(** * Open in Claude Code (Windows): command construction, path resolution,
      presence caches and terminal launch

    A shallow embedding of [src/main.ts].  Pure helpers ([escapeWindowsPath],
    [buildClaudeCommand], the path resolver) are Rocq functions on strings.
    The asynchronous methods of the plugin class are given twice.  As
    programs of a small state-and-exception monad, whose state carries the
    plugin fields, the module-level terminal cache, the clock and the log
    of every call made to [child_process.exec], they describe one call
    followed from its first statement to its last.  As tasks, with every
    [await] spelled out, they describe calls that overlap: a scheduler
    starts and resumes them in any order.  The two readings agree on a
    call that is followed alone. *)

From Stdlib Require Import ZArith Ascii String List Lia Bool.
From stdpp Require Import base option list gmap strings pretty.

(** ** JavaScript string primitives used by the plugin *)

Module JS.

(** Characters that cannot be written inside a literal. *)
Definition dquote : ascii := "034"%char.
Definition backslash : ascii := "092"%char.

Definition str1 (c : ascii) : string := String c EmptyString.

(** [str.replace(/c/g, rep)] for a one-character pattern [c] and a
    replacement [rep] without dollar patterns: every match is replaced,
    scanning from the left. *)
Fixpoint replaceAllChar (c : ascii) (rep : string) (str : string) : string :=
  match str with
  | EmptyString => EmptyString
  | String a rest =>
      if Ascii.eqb a c then rep +:+ replaceAllChar c rep rest
      else String a (replaceAllChar c rep rest)
  end.

(** White space and line terminators (code units below 256). *)
Definition isWhiteSpace (a : ascii) : bool :=
  match nat_of_ascii a with
  | 9 | 10 | 11 | 12 | 13 | 32 | 160 => true
  | _ => false
  end.

Fixpoint trimStart (s : string) : string :=
  match s with
  | EmptyString => EmptyString
  | String a rest => if isWhiteSpace a then trimStart rest else s
  end.

Fixpoint trimEnd (s : string) : string :=
  match s with
  | EmptyString => EmptyString
  | String a rest =>
      match trimEnd rest with
      | EmptyString => if isWhiteSpace a then EmptyString else str1 a
      | r => String a r
      end
  end.

(** [String.prototype.trim] *)
Definition trim (s : string) : string := trimEnd (trimStart s).

(** [Array.prototype.join] on an array of strings *)
Definition join (sep : string) (l : list string) : string := String.concat sep l.

(** Truthiness of a string value: the empty string is falsy. *)
Definition truthy (s : string) : bool :=
  match s with EmptyString => false | _ => true end.

(** [String.prototype.includes] *)
Fixpoint includes (needle hay : string) : bool :=
  String.prefix needle hay
  || match hay with
     | EmptyString => false
     | String _ rest => includes needle rest
     end.

(** Number of occurrences of a character. *)
Fixpoint count (c : ascii) (s : string) : nat :=
  match s with
  | EmptyString => 0
  | String a rest => (if Ascii.eqb a c then 1 else 0) + count c rest
  end.

(** The string with every occurrence of a character removed. *)
Fixpoint without (c : ascii) (s : string) : string :=
  match s with
  | EmptyString => EmptyString
  | String a rest => if Ascii.eqb a c then without c rest else String a (without c rest)
  end.

(** *** Numbers inside a template literal ([Number::toString])

    A number of the program is a double.  The settings hold integer-valued
    numbers; the integer [n] stands for the Number value nearest to it. *)

(** The Number value of a non-negative integer: 53 significant bits, ties
    to the even significand. *)
Definition roundToDouble (m : Z) : Z :=
  let e := (Z.log2 m - 52)%Z in
  if (e <=? 0)%Z then m
  else
    let q := (m / 2 ^ e)%Z in
    let r := (m mod 2 ^ e)%Z in
    let half := (2 ^ (e - 1))%Z in
    let q' := if (r <? half)%Z then q
              else if (half <? r)%Z then (q + 1)%Z
              else if Z.even q then q else (q + 1)%Z in
    (q' * 2 ^ e)%Z.

(** The decimal with the fewest significant digits that reads back to the
    Number [x], which has [n] digits: with [k] digits the two candidates
    are the multiples of [10^(n-k)] around [x]; of two that read back, the
    one nearer to [x] is taken, then the one with the even last digit. *)
Fixpoint shortestFrom (fuel : nat) (k n x : Z) : Z :=
  match fuel with
  | O => x
  | S fuel' =>
      let e := (n - k)%Z in
      if (e <=? 0)%Z then x
      else
        let lo := (x / 10 ^ e * 10 ^ e)%Z in
        let hi := (lo + 10 ^ e)%Z in
        match (roundToDouble lo =? x)%Z, (roundToDouble hi =? x)%Z with
        | true, true =>
            if (x - lo <? hi - x)%Z then lo
            else if (hi - x <? x - lo)%Z then hi
            else if Z.even (lo / 10 ^ e) then lo else hi
        | true, false => lo
        | false, true => hi
        | false, false => shortestFrom fuel' (k + 1)%Z n x
        end
  end.

(** Seventeen digits always suffice for a double. *)
Definition shortestDecimal (x : Z) : Z :=
  shortestFrom 17 1 (Z.of_nat (String.length (pretty x))) x.

Fixpoint dropTrailingZeros (s : string) : string :=
  match s with
  | EmptyString => EmptyString
  | String a rest =>
      match dropTrailingZeros rest with
      | EmptyString => if Ascii.eqb a "0" then EmptyString else String a EmptyString
      | r => String a r
      end
  end.

(** The digits [d1 d2 ... dk] of [v] and its exponent as [d1.d2...dke+n]. *)
Definition exponentForm (v : Z) : string :=
  let digits := pretty v in
  let exponent := pretty (Z.of_nat (String.length digits) - 1)%Z in
  match dropTrailingZeros digits with
  | EmptyString => digits
  | String d EmptyString => String d ("e+" +:+ exponent)
  | String d rest => String d ("." +:+ rest +:+ "e+" +:+ exponent)
  end.

(** A positive integer-valued number: [Infinity] beyond the largest
    double, all the digits and padding zeros below 10^21, the exponent
    form from there on. *)
Definition positiveToString (m : Z) : string :=
  let x := roundToDouble m in
  if (2 ^ 1024 <=? x)%Z then "Infinity"
  else
    let v := shortestDecimal x in
    if (v <? 10 ^ 21)%Z then pretty v else exponentForm v.

Definition NumberToString (n : Z) : string :=
  match n with
  | Z0 => "0"
  | Zpos _ => positiveToString n
  | Zneg _ => "-" +:+ positiveToString (Z.abs n)
  end.

(** [s.split('\n')[0]]: the text before the first line feed. *)
Fixpoint firstLine (s : string) : string :=
  match s with
  | EmptyString => EmptyString
  | String a rest => if Ascii.eqb a "010"%char then EmptyString else String a (firstLine rest)
  end.

(** The rest of [s] after the prefix [pat], when [s] starts with [pat]. *)
Fixpoint dropPrefix (pat s : string) : option string :=
  match pat, s with
  | EmptyString, _ => Some s
  | String p pat', String a s' => if Ascii.eqb p a then dropPrefix pat' s' else None
  | String _ _, EmptyString => None
  end.

(** The text before and the text after the first occurrence of [pat]. *)
Fixpoint splitFirst (pat s : string) : option (string * string) :=
  match dropPrefix pat s with
  | Some rest => Some (EmptyString, rest)
  | None =>
      match s with
      | EmptyString => None
      | String a s' =>
          match splitFirst pat s' with
          | Some (before, after) => Some (String a before, after)
          | None => None
          end
      end
  end.

(** GetSubstitution for a string pattern (no capture groups): in the
    replacement text, [$$] stands for a dollar sign, [$&] for the matched
    text, [$`] for the text before the match and [$'] for the text after
    it; every other character, a dollar sign included, is copied. *)
Fixpoint GetSubstitution (matched before after template : string) : string :=
  match template with
  | EmptyString => EmptyString
  | String "$" (String "$" rest) => String "$" (GetSubstitution matched before after rest)
  | String "$" (String "&" rest) => matched +:+ GetSubstitution matched before after rest
  | String "$" (String "`" rest) => before +:+ GetSubstitution matched before after rest
  | String "$" (String "'" rest) => after +:+ GetSubstitution matched before after rest
  | String c rest => String c (GetSubstitution matched before after rest)
  end.

(** [str.replace(pattern, replacement)] with a string pattern: only the
    first occurrence is replaced. *)
Definition replace (pattern replacement str : string) : string :=
  match splitFirst pattern str with
  | Some (before, after) =>
      before +:+ GetSubstitution pattern before after replacement +:+ after
  | None => str
  end.

(** What a caller expecting plain substitution of every occurrence would
    compute; used to compare [replace] with it. *)
Fixpoint replaceEvery (fuel : nat) (pattern replacement str : string) : string :=
  match fuel with
  | O => str
  | S fuel' =>
      match splitFirst pattern str with
      | Some (before, after) =>
          before +:+ replacement +:+ replaceEvery fuel' pattern replacement after
      | None => str
      end
  end.

End JS.

(** ** Utility function to escape Windows paths (main.ts, [escapeWindowsPath]) *)

Definition escapeWindowsPath (str : string) : string :=
  JS.replaceAllChar JS.dquote (String JS.dquote (JS.str1 JS.dquote)) str.

(** ** Plugin settings *)

Inductive PermissionMode :=
  pm_acceptEdits | pm_bypassPermissions | pm_plan | pm_default | pm_custom.

Definition permissionModeText (m : PermissionMode) : string :=
  match m with
  | pm_acceptEdits => "acceptEdits"
  | pm_bypassPermissions => "bypassPermissions"
  | pm_plan => "plan"
  | pm_default => "default"
  | pm_custom => "custom"
  end.

Definition isDefaultMode (m : PermissionMode) : bool :=
  match m with pm_default => true | _ => false end.

(** Fields declared optional in the interface are [option]s: [None] is
    [undefined].  The numeric fields hold integer-valued numbers (see
    [JS.NumberToString]); fractions are outside the model. *)
Record OpenInClaudeCodeSettings := mkSettings {
  terminalApp : string;
  customCommand : string;
  claudeCodePath : string;
  useCustomClaudePath : bool;
  keyboardShortcut : string;
  showDebugInfo : option bool;
  terminalDelay : option Z;
  alwaysOpenVaultRoot : option bool;
  useCustomVaultPath : option bool;
  customVaultPath : option string;
  permissionMode : option PermissionMode;
  dangerouslySkipPermissions : option bool;
  allowedTools : option (list string);
  deniedTools : option (list string);
  claudeModel : option string;
  continueLastSession : option bool;
  additionalDirectories : option (list string);
  maxTurns : option Z;
  verboseMode : option bool
}.

Definition DEFAULT_SETTINGS : OpenInClaudeCodeSettings := {|
  terminalApp := "cmd";
  customCommand := EmptyString;
  claudeCodePath := "claude";
  useCustomClaudePath := false;
  keyboardShortcut := "Ctrl+Shift+C";
  showDebugInfo := Some false;
  terminalDelay := Some 1500%Z;
  alwaysOpenVaultRoot := Some false;
  useCustomVaultPath := Some false;
  customVaultPath := Some EmptyString;
  permissionMode := Some pm_default;
  dangerouslySkipPermissions := Some false;
  allowedTools := Some [];
  deniedTools := Some [];
  claudeModel := Some "default";
  continueLastSession := Some false;
  additionalDirectories := Some [];
  maxTurns := Some 10%Z;
  verboseMode := Some false
|}.

(** Truthiness of optional values. *)
Definition truthyBool (b : option bool) : bool := from_option id false b.
Definition truthyString (s : option string) : bool := from_option JS.truthy false s.

Definition set_maxTurns (v : option Z) (s : OpenInClaudeCodeSettings) : OpenInClaudeCodeSettings :=
  mkSettings (terminalApp s) (customCommand s) (claudeCodePath s) (useCustomClaudePath s)
    (keyboardShortcut s) (showDebugInfo s) (terminalDelay s) (alwaysOpenVaultRoot s)
    (useCustomVaultPath s) (customVaultPath s) (permissionMode s)
    (dangerouslySkipPermissions s) (allowedTools s) (deniedTools s) (claudeModel s)
    (continueLastSession s) (additionalDirectories s) v (verboseMode s).

Definition set_claudeCodePath (v : string) (s : OpenInClaudeCodeSettings) : OpenInClaudeCodeSettings :=
  mkSettings (terminalApp s) (customCommand s) v (useCustomClaudePath s)
    (keyboardShortcut s) (showDebugInfo s) (terminalDelay s) (alwaysOpenVaultRoot s)
    (useCustomVaultPath s) (customVaultPath s) (permissionMode s)
    (dangerouslySkipPermissions s) (allowedTools s) (deniedTools s) (claudeModel s)
    (continueLastSession s) (additionalDirectories s) (maxTurns s) (verboseMode s).

Definition set_useCustomClaudePath (v : bool) (s : OpenInClaudeCodeSettings) : OpenInClaudeCodeSettings :=
  mkSettings (terminalApp s) (customCommand s) (claudeCodePath s) v
    (keyboardShortcut s) (showDebugInfo s) (terminalDelay s) (alwaysOpenVaultRoot s)
    (useCustomVaultPath s) (customVaultPath s) (permissionMode s)
    (dangerouslySkipPermissions s) (allowedTools s) (deniedTools s) (claudeModel s)
    (continueLastSession s) (additionalDirectories s) (maxTurns s) (verboseMode s).

(** ** Build Claude command with CLI options (main.ts, [buildClaudeCommand]) *)

(** The loop over [additionalDirectories]: blank entries are skipped, the
    others are trimmed, escaped and quoted. *)
Fixpoint addDirs (command : string) (dirs : list string) : string :=
  match dirs with
  | [] => command
  | dir :: rest =>
      if JS.truthy (JS.trim dir)
      then addDirs (command +:+ " --add-dir " +:+ JS.str1 JS.dquote
                      +:+ escapeWindowsPath (JS.trim dir) +:+ JS.str1 JS.dquote) rest
      else addDirs command rest
  end.

Definition nonEmptyList (l : option (list string)) : bool :=
  match l with Some (_ :: _) => true | _ => false end.

(** Each conditional [command += ...] of the builder, as a function of the
    command built so far. *)

(* Add permission mode if not default *)
Definition addPermissionMode (settings : OpenInClaudeCodeSettings) (command : string) : string :=
  match permissionMode settings with
  | Some m => if isDefaultMode m then command
              else command +:+ " --permission-mode " +:+ permissionModeText m
  | None => command
  end.

(* Add dangerous skip permissions flag *)
Definition addSkipPermissions (settings : OpenInClaudeCodeSettings) (command : string) : string :=
  if truthyBool (dangerouslySkipPermissions settings)
  then command +:+ " --dangerously-skip-permissions" else command.

(* Add allowed tools *)
Definition addAllowedTools (settings : OpenInClaudeCodeSettings) (command : string) : string :=
  if nonEmptyList (allowedTools settings)
  then command +:+ " --allowedTools " +:+ JS.join "," (from_option id [] (allowedTools settings))
  else command.

(* Add denied tools *)
Definition addDeniedTools (settings : OpenInClaudeCodeSettings) (command : string) : string :=
  if nonEmptyList (deniedTools settings)
  then command +:+ " --disallowedTools " +:+ JS.join "," (from_option id [] (deniedTools settings))
  else command.

(* Add model selection *)
Definition addModel (settings : OpenInClaudeCodeSettings) (command : string) : string :=
  match claudeModel settings with
  | Some model =>
      if JS.truthy model && negb (String.eqb model "default")
      then command +:+ " --model " +:+ model else command
  | None => command
  end.

(* Add continue last session *)
Definition addContinue (settings : OpenInClaudeCodeSettings) (command : string) : string :=
  if truthyBool (continueLastSession settings) then command +:+ " --continue" else command.

(* Add max turns if not default *)
Definition addMaxTurns (settings : OpenInClaudeCodeSettings) (command : string) : string :=
  match maxTurns settings with
  | Some n =>
      if negb (n =? 0)%Z && negb (n =? 10)%Z
      then command +:+ " --max-turns " +:+ JS.NumberToString n else command
  | None => command
  end.

(* Add verbose mode *)
Definition addVerbose (settings : OpenInClaudeCodeSettings) (command : string) : string :=
  if truthyBool (verboseMode settings) then command +:+ " --verbose" else command.

(* Add additional directories *)
Definition addAdditionalDirectories (settings : OpenInClaudeCodeSettings) (command : string) : string :=
  if nonEmptyList (additionalDirectories settings)
  then addDirs command (from_option id [] (additionalDirectories settings))
  else command.

(** The command after the first six steps. *)
Definition commandBeforeMaxTurns (settings : OpenInClaudeCodeSettings) : string :=
  let command := if useCustomClaudePath settings then claudeCodePath settings else "claude" in
  let command := addPermissionMode settings command in
  let command := addSkipPermissions settings command in
  let command := addAllowedTools settings command in
  let command := addDeniedTools settings command in
  let command := addModel settings command in
  let command := addContinue settings command in
  command.

Definition buildClaudeCommand (settings : OpenInClaudeCodeSettings) : string :=
  let command := commandBeforeMaxTurns settings in
  let command := addMaxTurns settings command in
  let command := addVerbose settings command in
  let command := addAdditionalDirectories settings command in
  command.

(** ** Path resolver (main.ts, [getVaultPath] and [getWorkingDirectory]) *)

(** The host's view of the workspace: the parent folder of a file may be
    absent, and the vault adapter has a base path only when it is a
    [FileSystemAdapter]. *)
Record TFolder := { folder_path : string }.
Record TFile := { parent : option TFolder }.
Record App := {
  adapterBasePath : option string;
  activeFile : option TFile
}.

(** Get the vault path from Obsidian or custom setting *)
Definition getVaultPath (settings : OpenInClaudeCodeSettings) (app : App) : string :=
  if truthyBool (useCustomVaultPath settings) && truthyString (customVaultPath settings)
  then from_option id EmptyString (customVaultPath settings)
  else match adapterBasePath app with
       | Some basePath => basePath
       | None => EmptyString
       end.

(** [activeFile.parent?.path || ''] *)
Definition folderPathOf (file : TFile) : string :=
  match parent file with
  | Some folder => folder_path folder
  | None => EmptyString
  end.

(** Get the working directory based on the active note *)
Definition getWorkingDirectory (settings : OpenInClaudeCodeSettings) (app : App) : string :=
  let vaultPath := getVaultPath settings app in
  if truthyBool (alwaysOpenVaultRoot settings) then vaultPath
  else match activeFile app with
       | None => vaultPath
       | Some file =>
           let folderPath := folderPathOf file in
           if JS.truthy folderPath
           then vaultPath +:+ JS.str1 JS.backslash
                  +:+ JS.replaceAllChar "/" (JS.str1 JS.backslash) folderPath
           else vaultPath
       end.

(** ** The plugin's state and its environment *)

(** One call of [child_process.exec]: the command line and the [cwd] option. *)
Definition ExecCall : Type := string * option string.

(** A pending [setTimeout] of the editor automation: when it was set, the
    delay, and the two variables its callback has captured, the editor's
    name and the command to type.  The key chord is not among them: the
    callback reads the selected terminal when it runs. *)
Record PendingAutomation := {
  pa_at : Z;
  pa_delay : Z;
  pa_editorName : string;
  pa_command : string
}.

(** The operating system and the host application.  The answer and the
    duration of a process depend on the calls made so far, on the command
    and on its working directory; [inl] is the message of the error the
    call rejects with, [inr] the captured standard output. *)
Record Env := {
  exec_result : list ExecCall -> string -> option string -> string + string;
  exec_duration : list ExecCall -> string -> Z;
  process_env : string -> option string;
  saveData_error : option string;
  isDesktopApp : bool;
  isWin : bool;
  app : App
}.

Record State := mkState {
  this_settings : OpenInClaudeCodeSettings;
  this_claudeInstalled : option bool;
  terminalAppCache : gmap string (bool * Z);
  clock : Z;
  execLog : list ExecCall;
  notices : list string;
  savedData : list OpenInClaudeCodeSettings;
  timers : list PendingAutomation
}.

(** The plugin object right after construction (a process start). *)
Definition newPlugin (settings : OpenInClaudeCodeSettings) (t : Z) : State :=
  mkState settings None ∅ t [] [] [] [].

Definition with_settings (v : OpenInClaudeCodeSettings) (st : State) : State :=
  mkState v (this_claudeInstalled st) (terminalAppCache st) (clock st)
    (execLog st) (notices st) (savedData st) (timers st).
Definition with_claudeInstalled (v : option bool) (st : State) : State :=
  mkState (this_settings st) v (terminalAppCache st) (clock st)
    (execLog st) (notices st) (savedData st) (timers st).
Definition with_cache (v : gmap string (bool * Z)) (st : State) : State :=
  mkState (this_settings st) (this_claudeInstalled st) v (clock st)
    (execLog st) (notices st) (savedData st) (timers st).
Definition with_clock (v : Z) (st : State) : State :=
  mkState (this_settings st) (this_claudeInstalled st) (terminalAppCache st) v
    (execLog st) (notices st) (savedData st) (timers st).
Definition with_exec (call : ExecCall) (elapsed : Z) (st : State) : State :=
  mkState (this_settings st) (this_claudeInstalled st) (terminalAppCache st)
    (clock st + elapsed)%Z (execLog st ++ [call]) (notices st) (savedData st) (timers st).
Definition with_notice (text : string) (st : State) : State :=
  mkState (this_settings st) (this_claudeInstalled st) (terminalAppCache st) (clock st)
    (execLog st) (notices st ++ [text]) (savedData st) (timers st).
Definition with_saved (v : OpenInClaudeCodeSettings) (st : State) : State :=
  mkState (this_settings st) (this_claudeInstalled st) (terminalAppCache st) (clock st)
    (execLog st) (notices st) (savedData st ++ [v]) (timers st).
Definition with_timer (v : PendingAutomation) (st : State) : State :=
  mkState (this_settings st) (this_claudeInstalled st) (terminalAppCache st) (clock st)
    (execLog st) (notices st) (savedData st) (timers st ++ [v]).

(** ** Asynchronous code as state passing with exceptions *)

Inductive Outcome (A : Type) :=
  | Ok (value : A)
  | Thrown (message : string).
Arguments Ok {A} value.
Arguments Thrown {A} message.

Definition M (A : Type) : Type := Env -> State -> Outcome A * State.

Definition ret {A} (a : A) : M A := fun _ st => (Ok a, st).

Definition bind {A B} (m : M A) (k : A -> M B) : M B :=
  fun env st =>
    match m env st with
    | (Ok a, st') => k a env st'
    | (Thrown e, st') => (Thrown e, st')
    end.

Definition throw {A} (message : string) : M A := fun _ st => (Thrown message, st).

Definition tryCatch {A} (body : M A) (handler : string -> M A) : M A :=
  fun env st =>
    match body env st with
    | (Ok a, st') => (Ok a, st')
    | (Thrown e, st') => handler e env st'
    end.

Definition get : M State := fun _ st => (Ok st, st).
Definition ask : M Env := fun env st => (Ok env, st).
Definition modify (f : State -> State) : M unit := fun _ st => (Ok tt, f st).

Notation "'do' x <- m ; k" := (bind m (fun x => k))
  (at level 10, x name, m at level 100, k at level 200).

(** Promise-based exec wrapper: the call is logged, time passes, and the
    promise resolves with the output or rejects with the error. *)
Definition execAsync (command : string) (cwd : option string) : M string :=
  fun env st =>
    let st' := with_exec (command, cwd) (exec_duration env (execLog st) command) st in
    match exec_result env (execLog st) command cwd with
    | inr stdout => (Ok stdout, st')
    | inl message => (Thrown message, st')
    end.

Definition Notice (text : string) : M unit := modify (with_notice text).

Definition saveSettings : M unit :=
  do env <- ask;
  match saveData_error env with
  | Some message => throw message
  | None => do st <- get; modify (with_saved (this_settings st))
  end.

Definition DateNow : M Z := do st <- get; ret (clock st).

(** [${process.env.NAME}] inside a template literal. *)
Definition envText (env : Env) (name : string) : string :=
  from_option id "undefined" (process_env env name).

Definition testPathCommand (path : string) : string :=
  "powershell -Command " +:+ JS.str1 JS.dquote +:+ "Test-Path '" +:+ path +:+ "'"
    +:+ JS.str1 JS.dquote.

(** ** Windows terminal app configurations (main.ts, [TERMINAL_APPS]) *)

Record TerminalConfig := {
  config_name : string;
  executableName : string;
  openCommand : option (string -> string -> string);
  requiresDelay : option bool;
  customDelay : option Z
}.

Definition Q : string := JS.str1 JS.dquote.
Definition BS : string := JS.str1 JS.backslash.
Definition BQ : string := String JS.backslash Q.

Definition TERMINAL_APPS : list (string * TerminalConfig) := [
  ("cmd", {|
     config_name := "Command Prompt";
     executableName := "cmd.exe";
     openCommand := Some (fun cwd claudePath =>
       let escapedPath := escapeWindowsPath cwd in
       "cmd /c " +:+ Q +:+ "start cmd /k " +:+ BQ +:+ "cd /d " +:+ escapedPath
         +:+ " && " +:+ claudePath +:+ BQ +:+ Q);
     requiresDelay := None; customDelay := None |});
  ("powershell", {|
     config_name := "PowerShell";
     executableName := "powershell.exe";
     openCommand := Some (fun cwd claudePath =>
       let escapedPath := escapeWindowsPath cwd in
       "powershell -Command " +:+ Q
         +:+ "Start-Process powershell -ArgumentList '-NoExit', '-Command', 'Set-Location "
         +:+ BQ +:+ escapedPath +:+ BQ +:+ "; " +:+ claudePath +:+ "'" +:+ Q);
     requiresDelay := None; customDelay := None |});
  ("windowsterminal", {|
     config_name := "Windows Terminal";
     executableName := "wt.exe";
     openCommand := Some (fun cwd claudePath =>
       let escapedPath := escapeWindowsPath cwd in
       "wt -d " +:+ Q +:+ escapedPath +:+ Q +:+ " cmd /k " +:+ Q +:+ claudePath +:+ Q);
     requiresDelay := None; customDelay := None |});
  ("vscode", {|
     config_name := "VS Code";
     executableName := "code.exe";
     openCommand := Some (fun cwd claudePath =>
       let escapedPath := escapeWindowsPath cwd in
       "code " +:+ Q +:+ escapedPath +:+ Q);
     requiresDelay := Some true; customDelay := None |});
  ("cursor", {|
     config_name := "Cursor";
     executableName := "cursor.exe";
     openCommand := Some (fun cwd claudePath =>
       let escapedPath := escapeWindowsPath cwd in
       "cursor " +:+ Q +:+ escapedPath +:+ Q);
     requiresDelay := Some true; customDelay := None |})
].

(** Reading [table[key]] on an object literal finds the object's own
    properties first and then the properties every object inherits from
    [Object.prototype]; all of the latter are functions or objects (truthy)
    and none has an [openCommand] or [customDelay] property. *)
Definition Object_prototype : list string := [
  "constructor"; "hasOwnProperty"; "isPrototypeOf"; "propertyIsEnumerable";
  "toLocaleString"; "toString"; "valueOf"; "__proto__";
  "__defineGetter__"; "__defineSetter__"; "__lookupGetter__"; "__lookupSetter__"
].

Inductive Property (A : Type) :=
  | OwnProperty (value : A)
  | Inherited (key : string)
  | Undefined.
Arguments OwnProperty {A} value.
Arguments Inherited {A} key.
Arguments Undefined {A}.

Fixpoint ownProperty {A} (table : list (string * A)) (key : string) : option A :=
  match table with
  | [] => None
  | (k, v) :: rest => if String.eqb k key then Some v else ownProperty rest key
  end.

Definition inPrototype (key : string) : bool :=
  existsb (String.eqb key) Object_prototype.

Definition getProperty {A} (table : list (string * A)) (key : string) : Property A :=
  match ownProperty table key with
  | Some v => OwnProperty v
  | None => if inPrototype key then Inherited key else Undefined
  end.

Definition openCommandOf (p : Property TerminalConfig) : option (string -> string -> string) :=
  match p with OwnProperty c => openCommand c | _ => None end.

Definition customDelayOf (p : Property TerminalConfig) : option Z :=
  match p with OwnProperty c => customDelay c | _ => None end.

(** Cache for terminal app detection *)
Definition CACHE_DURATION : Z := 60000.

(** ** Methods of the plugin class (main.ts, class [OpenInClaudeCodePlugin])

    Each program follows one call from its first statement to its last,
    with nothing else running in between. *)

(** The loop over candidate paths shared by the detection routines: the
    first path for which [Test-Path] prints [True]; a failing call moves on
    to the next path. *)
Fixpoint firstExistingPath (paths : list string) : M (option string) :=
  match paths with
  | [] => ret None
  | path :: rest =>
      do found <- tryCatch
                    (do stdout <- execAsync (testPathCommand path) None;
                     ret (String.eqb (JS.trim stdout) "True"))
                    (fun _ => ret false);
      if found then ret (Some path) else firstExistingPath rest
  end.

(** Detect Claude Code installation path *)
Definition detectClaudePath : M (option string) :=
  tryCatch
    (do fromPATH <- tryCatch
                      (do stdout <- execAsync "where claude" None;
                       let path := JS.firstLine (JS.trim stdout) in
                       ret (if JS.truthy path then Some path else None))
                      (fun _ => ret None);
     match fromPATH with
     | Some path => ret (Some path)
     | None =>
         do env <- ask;
         firstExistingPath [
           "claude";
           "claude.exe";
           envText env "USERPROFILE" +:+ "\AppData\Local\Programs\Claude\claude.exe";
           envText env "PROGRAMFILES" +:+ "\Claude\claude.exe";
           envText env "PROGRAMFILES_X86" +:+ "\Claude\claude.exe"
         ]
     end)
    (fun _ => ret None).

(** Verify if a given path contains Claude Code executable *)
Definition verifyClaudePath (path : string) : M bool :=
  if negb (JS.truthy path) then ret false
  else tryCatch
         (do stdout <- execAsync (testPathCommand path) None;
          ret (String.eqb (JS.trim stdout) "True"))
         (fun _ => ret false).

(** Check if Claude Code is installed (with caching) *)
Definition checkClaudeCodeInstallation : M bool :=
  do st <- get;
  match this_claudeInstalled st with
  | Some cached => ret cached
  | None =>
      tryCatch
        (if useCustomClaudePath (this_settings st)
         then
           do verified <- verifyClaudePath (claudeCodePath (this_settings st));
           do _ <- modify (with_claudeInstalled (Some verified));
           ret verified
         else
           do detectedPath <- detectClaudePath;
           if from_option JS.truthy false detectedPath
           then
             do _ <- modify (fun st' =>
                       with_settings
                         (set_claudeCodePath (from_option id EmptyString detectedPath)
                            (this_settings st')) st');
             do _ <- saveSettings;
             do _ <- modify (with_claudeInstalled (Some true));
             ret true
           else
             do _ <- modify (with_claudeInstalled (Some false));
             ret false)
        (fun _ =>
           do _ <- modify (with_claudeInstalled (Some false));
           ret false)
  end.

Definition cacheSet (executable : string) (installed : bool) : M unit :=
  do now <- DateNow;
  modify (fun st => with_cache (<[executable := (installed, now)]> (terminalAppCache st)) st).

(** The loop over the common installation paths of a terminal. *)
Fixpoint probeCommonPaths (executable : string) (paths : list string) : M bool :=
  match paths with
  | [] => ret false
  | path :: rest =>
      do found <- tryCatch
                    (do stdout <- execAsync (testPathCommand path) None;
                     if String.eqb (JS.trim stdout) "True"
                     then do _ <- cacheSet executable true; ret true
                     else ret false)
                    (fun _ => ret false);
      if found then ret true else probeCommonPaths executable rest
  end.

(** The probe proper: the part of [checkTerminalAppInstalled] after the
    cache has been consulted. *)
Definition probeTerminalApp (executable : string) : M bool :=
  tryCatch
    (do viaWhere <- tryCatch
                      (do stdout <- execAsync ("where " +:+ executable) None;
                       if JS.truthy (JS.trim stdout)
                       then do _ <- cacheSet executable true; ret true
                       else ret false)
                      (fun _ => ret false);
     if viaWhere then ret true
     else
       do env <- ask;
       do found <- probeCommonPaths executable [
                     envText env "WINDIR" +:+ "\System32" +:+ BS +:+ executable;
                     envText env "PROGRAMFILES" +:+ BS +:+ executable;
                     envText env "PROGRAMFILES_X86" +:+ BS +:+ executable;
                     envText env "LOCALAPPDATA" +:+ "\Programs" +:+ BS +:+ executable
                   ];
       if found then ret true
       else do _ <- cacheSet executable false; ret false)
    (fun _ => do _ <- cacheSet executable false; ret false).

(** Check if a terminal app is installed (with caching) *)
Definition checkTerminalAppInstalled (executable : string) : M bool :=
  do env <- ask;
  if negb (isWin env) then ret true
  else
    do st <- get;
    do now <- DateNow;
    match terminalAppCache st !! executable with
    | Some (installed, timestamp) =>
        if (now - timestamp <? CACHE_DURATION)%Z then ret installed
        else probeTerminalApp executable
    | None => probeTerminalApp executable
    end.

Definition isEditor (terminal : string) : bool :=
  String.eqb terminal "vscode" || String.eqb terminal "cursor".

(** [a || b || c] on optional numbers: the first one that is neither
    [undefined] nor zero. *)
Definition firstTruthyNumber (candidates : list (option Z)) (fallback : Z) : Z :=
  from_option id fallback
    (List.find (fun z => negb (z =? 0)%Z) (omap id candidates)).

(** The synchronous end of [handleCodeEditor], once the editor has been
    started: the notice, and the timer of the keystroke automation. *)
Definition scheduleAutomation (delay : Z) (claudeCommand : string) : M unit :=
  do st <- get;
  let editorName :=
    if String.eqb (terminalApp (this_settings st)) "vscode" then "VS Code" else "Cursor" in
  do _ <- Notice ("Opening " +:+ editorName +:+ "... Terminal will open automatically.");
  (* Wait and then open terminal with Claude command *)
  modify (with_timer {| pa_at := clock st;
                        pa_delay := delay;
                        pa_editorName := editorName;
                        pa_command := claudeCommand |}).

(** Handle VS Code and Cursor editors: open the directory in the editor,
    announce it, and schedule the keystroke automation. *)
Definition handleCodeEditor (terminalConfig : Property TerminalConfig)
    (cwd claudeCommand : string) : M unit :=
  do st <- get;
  let delay :=
    firstTruthyNumber [customDelayOf terminalConfig; terminalDelay (this_settings st)]
      (from_option id 0%Z (terminalDelay DEFAULT_SETTINGS)) in
  match openCommandOf terminalConfig with
  | None => throw "terminalConfig.openCommand is not a function"
  | Some open =>
      do _ <- execAsync (open cwd claudeCommand) None;
      scheduleAutomation delay claudeCommand
  end.

(** Open in the selected terminal application *)
Definition openInTerminal (cwd : string) : M unit :=
  do st <- get;
  do env <- ask;
  let settings := this_settings st in
  let terminalConfig := getProperty TERMINAL_APPS (terminalApp settings) in
  match terminalConfig with
  | Undefined => throw "Invalid terminal application selected"
  | _ =>
      (* Build the Claude command with all options *)
      let claudeCommand := buildClaudeCommand settings in
      (* Handle VS Code and Cursor specially *)
      if isEditor (terminalApp settings)
      then handleCodeEditor terminalConfig cwd claudeCommand
      else
        match (if isWin env then openCommandOf terminalConfig else None) with
        | Some open =>
            (* Use Windows commands for other terminals *)
            do _ <- execAsync (open cwd claudeCommand) None; ret tt
        | None =>
            (* Fallback *)
            do _ <- execAsync claudeCommand (Some cwd); ret tt
        end
  end.

(** The command line [executeCustomCommand] builds from the template. *)
Definition customCommandLine (settings : OpenInClaudeCodeSettings) (cwd : string) : string :=
  let claudeCommand := buildClaudeCommand settings in
  JS.replace "{{claude}}" claudeCommand
    (JS.replace "{{cwd}}" cwd (customCommand settings)).

(** Execute custom command with working directory *)
Definition executeCustomCommand (cwd : string) : M unit :=
  do st <- get;
  let command := customCommandLine (this_settings st) cwd in
  tryCatch
    (do _ <- execAsync command (Some cwd); ret tt)
    (fun message => throw ("Custom command failed: " +:+ message)).

Definition displayPathOf (app : App) : string :=
  match activeFile app with
  | Some file => if JS.truthy (folderPathOf file) then folderPathOf file else "vault root"
  | None => "vault root"
  end.

(** Open Claude Code in the appropriate directory *)
Definition openClaudeCode : M unit :=
  do env <- ask;
  (* Check if we're on desktop and Windows *)
  if negb (isDesktopApp env) || negb (isWin env)
  then Notice "This feature is only available on Windows desktop"
  else
    (* Check if Claude is installed *)
    do claudeInstalled <- checkClaudeCodeInstallation;
    if negb claudeInstalled
    then Notice "Claude Code not found. Please install it first."
    else
      do st <- get;
      let workingDir := getWorkingDirectory (this_settings st) (app env) in
      let displayPath := displayPathOf (app env) in
      tryCatch
        (do _ <- (if String.eqb (terminalApp (this_settings st)) "custom"
                  then executeCustomCommand workingDir
                  else openInTerminal workingDir);
         do st' <- get;
         if negb (isEditor (terminalApp (this_settings st')))
         then Notice ("Opening Claude Code in: " +:+ displayPath)
         else ret tt)
        (fun message => Notice ("Failed to open Claude Code: " +:+ message)).

(** ** The settings tab (main.ts, class [OpenInClaudeCodeSettingTab]) *)

Definition set_terminalApp (v : string) (s : OpenInClaudeCodeSettings) : OpenInClaudeCodeSettings :=
  mkSettings v (customCommand s) (claudeCodePath s) (useCustomClaudePath s)
    (keyboardShortcut s) (showDebugInfo s) (terminalDelay s) (alwaysOpenVaultRoot s)
    (useCustomVaultPath s) (customVaultPath s) (permissionMode s)
    (dangerouslySkipPermissions s) (allowedTools s) (deniedTools s) (claudeModel s)
    (continueLastSession s) (additionalDirectories s) (maxTurns s) (verboseMode s).

Definition set_customCommand (v : string) (s : OpenInClaudeCodeSettings) : OpenInClaudeCodeSettings :=
  mkSettings (terminalApp s) v (claudeCodePath s) (useCustomClaudePath s)
    (keyboardShortcut s) (showDebugInfo s) (terminalDelay s) (alwaysOpenVaultRoot s)
    (useCustomVaultPath s) (customVaultPath s) (permissionMode s)
    (dangerouslySkipPermissions s) (allowedTools s) (deniedTools s) (claudeModel s)
    (continueLastSession s) (additionalDirectories s) (maxTurns s) (verboseMode s).

Definition modifySettings (f : OpenInClaudeCodeSettings -> OpenInClaudeCodeSettings) : M unit :=
  modify (fun st => with_settings (f (this_settings st)) st).

(** The loop of [checkInstalledTerminalApps] over the entries of the table;
    [availableApps] is filled in the table's order. *)
Fixpoint collectInstalled (entries : list (string * TerminalConfig))
    (availableApps : list (string * string)) : M (list (string * string)) :=
  match entries with
  | [] => ret availableApps
  | (key, config) :: rest =>
      do env <- ask;
      (* Always include cmd and powershell as they're built-in on Windows *)
      if (String.eqb key "cmd" || String.eqb key "powershell") && isWin env
      then collectInstalled rest (availableApps ++ [(key, config_name config)])
      else
        do isInstalled <- checkTerminalAppInstalled (executableName config);
        if isInstalled
        then collectInstalled rest (availableApps ++ [(key, config_name config)])
        else collectInstalled rest availableApps
  end.

Definition checkInstalledTerminalApps : M (list (string * string)) :=
  collectInstalled TERMINAL_APPS [].

(** The debug section's loop: each terminal app is checked afresh. *)
Fixpoint checkEach (entries : list (string * TerminalConfig)) : M unit :=
  match entries with
  | [] => ret tt
  | (_, config) :: rest =>
      do _ <- checkTerminalAppInstalled (executableName config);
      checkEach rest
  end.

(** The state-changing part of [checkAndDisplayClaudeStatus]; what it
    draws is left out. *)
Definition checkAndDisplayClaudeStatus : M unit :=
  do st <- get;
  do currentPath <-
    (if useCustomClaudePath (this_settings st)
     then ret (claudeCodePath (this_settings st))
     else do detected <- detectClaudePath;
          ret (if from_option JS.truthy false detected
               then from_option id EmptyString detected else "claude"));
  do _ <- verifyClaudePath currentPath;
  if truthyBool (showDebugInfo (this_settings st))
  then
    (* Clear terminal app cache to get fresh results *)
    do _ <- modify (with_cache ∅);
    checkEach TERMINAL_APPS
  else ret tt.

(** Truthiness of [availableApps[key]]: the name of an own key, truthy
    unless empty; a member inherited from [Object.prototype]; or nothing. *)
Definition truthyProperty (p : Property string) : bool :=
  match p with
  | OwnProperty v => JS.truthy v
  | Inherited _ => true
  | Undefined => false
  end.

(** ** Spec-side descriptions, to be compared with the code *)

(** The text the turn-limit step is expected to add: nothing for the
    default 10, nothing for a falsy value (0 or absent), the flag with the
    number otherwise. *)
Definition maxTurnsFlag (mt : option Z) : string :=
  match mt with
  | Some n =>
      if (n =? 10)%Z || (n =? 0)%Z then EmptyString
      else " --max-turns " +:+ JS.NumberToString n
  | None => EmptyString
  end.

(** The flags of steps 8 and 9, which follow the turn limit. *)
Definition flagsAfterMaxTurns (settings : OpenInClaudeCodeSettings) : string :=
  (if truthyBool (verboseMode settings) then " --verbose" else EmptyString)
  +:+ (if nonEmptyList (additionalDirectories settings)
       then addDirs EmptyString (from_option id [] (additionalDirectories settings))
       else EmptyString).

(** The effective root of the path resolver. *)
Definition effectiveRoot (overrideEnabled : bool) (overridePath detectedRoot : string) : string :=
  if overrideEnabled && JS.truthy overridePath then overridePath else detectedRoot.

(** ** Predicates on states used in the proofs *)

Definition installedIs (b : bool) (st : State) : Prop := this_claudeInstalled st = Some b.

Definition logExtends (log : list ExecCall) (st : State) : Prop :=
  exists rest, execLog st = log ++ rest.

(** From a state satisfying [P0], the program ends, normally or not, in a
    state satisfying [P]. *)
Definition hoare {A} (P0 : State -> Prop) (m : M A) (P : State -> Prop) : Prop :=
  forall env st, P0 st -> P (snd (m env st)).

(** A property of the state that a program does not destroy. *)
Definition stable {A} (P : State -> Prop) (m : M A) : Prop := hoare P m P.

(** The calls the installation check may make: asking the shell where the
    executable is, and testing a path. *)
Definition isProbeCall (call : ExecCall) : Prop :=
  call.2 = None /\ (call.1 = "where claude" \/ exists path, call.1 = testPathCommand path).

Definition probesSince (log : list ExecCall) (st : State) : Prop :=
  exists probes, execLog st = log ++ probes /\ Forall isProbeCall probes.

(** ** Example environments and states *)

(** An environment in which every process gives the same answer and takes
    the same time. *)
Definition env_const (answer : string + string) (elapsed : Z) : Env := {|
  exec_result := fun _ _ _ => answer;
  exec_duration := fun _ _ => elapsed;
  process_env := fun _ => None;
  saveData_error := None;
  isDesktopApp := true;
  isWin := true;
  app := {| adapterBasePath := Some "C:\Vault"; activeFile := None |}
|}.

(** Every process prints [True]; every process fails. *)
Definition env_all_present : Env := env_const (inr "True") 5.
Definition env_all_absent : Env := env_const (inl "not found") 5.

(** The override is on, with a path. *)
Definition probed_settings : OpenInClaudeCodeSettings :=
  set_claudeCodePath "C:\tools\claude.exe" (set_useCustomClaudePath true DEFAULT_SETTINGS).

Definition st_wt_cached : State :=
  snd (checkTerminalAppInstalled "wt.exe" (env_const (inr "C:\wt.exe") 0)
         (newPlugin DEFAULT_SETTINGS 1000)).

(** ** Further primitives and functions of the plugin *)

Module JSExt.

(** [str.replace(/[class]/g, template)] for a one-character class: every
    match is replaced by the expansion of the template, which sees the
    matched character, the text before it and the text after it. *)
Fixpoint replaceAllClass (class : ascii -> bool) (template before str : string) : string :=
  match str with
  | EmptyString => EmptyString
  | String a rest =>
      if class a
      then JS.GetSubstitution (JS.str1 a) before rest template
             +:+ replaceAllClass class template (before +:+ JS.str1 a) rest
      else String a (replaceAllClass class template (before +:+ JS.str1 a) rest)
  end.

(** [str.split(c)] for a one-character separator. *)
Fixpoint split (c : ascii) (str : string) : list string :=
  match str with
  | EmptyString => [EmptyString]
  | String a rest =>
      if Ascii.eqb a c then EmptyString :: split c rest
      else match split c rest with
           | part :: parts => String a part :: parts
           | [] => [JS.str1 a]
           end
  end.

(** Lower case of a code unit below 256: the letters A to Z and the
    accented capitals of Latin-1 move up by 32. *)
Definition lowerChar (a : ascii) : ascii :=
  let n := nat_of_ascii a in
  if ((65 <=? n) && (n <=? 90)) || ((192 <=? n) && (n <=? 222) && negb (n =? 215))
  then ascii_of_nat (n + 32) else a.

Fixpoint toLowerCase (s : string) : string :=
  match s with
  | EmptyString => EmptyString
  | String a rest => String (lowerChar a) (toLowerCase rest)
  end.

(** The value of a digit or letter as a numeral digit. *)
Definition digitValue (a : ascii) : option Z :=
  let n := nat_of_ascii a in
  if (48 <=? n) && (n <=? 57) then Some (Z.of_nat (n - 48))
  else if (97 <=? n) && (n <=? 122) then Some (Z.of_nat (n - 87))
  else if (65 <=? n) && (n <=? 90) then Some (Z.of_nat (n - 55))
  else None.

(** The longest prefix of digits in the radix, as a number; [None] when
    there is no digit. *)
Fixpoint parseDigits (radix : Z) (acc : option Z) (s : string) : option Z :=
  match s with
  | EmptyString => acc
  | String a rest =>
      match digitValue a with
      | Some d =>
          if (d <? radix)%Z
          then parseDigits radix (Some (from_option id 0%Z acc * radix + d)%Z) rest
          else acc
      | None => acc
      end
  end.

(** [parseInt(str)] without a radix: leading white space is skipped, a
    sign is read, a prefix [0x] or [0X] selects radix 16, and the longest
    run of digits is the value; [None] is [NaN].  The value is the exact
    integer (the language rounds integers above 2^53). *)
Definition parseInt (str : string) : option Z :=
  let s := JS.trimStart str in
  let '(negative, s) :=
    match s with
    | String "-" rest => (true, rest)
    | String "+" rest => (false, rest)
    | _ => (false, s)
    end in
  let '(radix, s) :=
    match s with
    | String "0" (String "x" rest) => (16%Z, rest)
    | String "0" (String "X" rest) => (16%Z, rest)
    | _ => (10%Z, s)
    end in
  match parseDigits radix None s with
  | Some n => Some (if negative then (- n)%Z else n)
  | None => None
  end.

End JSExt.

(** Utility function to escape PowerShell strings (main.ts,
    [escapePowerShellString]): a backtick goes before every double quote,
    backtick and dollar sign. *)
Definition isPowerShellSpecial (a : ascii) : bool :=
  Ascii.eqb a JS.dquote || Ascii.eqb a "`" || Ascii.eqb a "$".

Definition escapePowerShellString (str : string) : string :=
  JSExt.replaceAllClass isPowerShellSpecial "`$&" EmptyString str.

(** Parse hotkey string into Obsidian hotkey format (main.ts,
    [parseHotkey]). *)
Record Hotkey := { modifiers : list string; key : string }.

Definition hotkeyStep (acc : list string * string) (part : string) : list string * string :=
  let lowerPart := JSExt.toLowerCase part in
  if String.eqb lowerPart "ctrl" || String.eqb lowerPart "cmd"
  then (acc.1 ++ ["Mod"], acc.2)
  else if String.eqb lowerPart "alt" || String.eqb lowerPart "option"
  then (acc.1 ++ ["Alt"], acc.2)
  else if String.eqb lowerPart "shift"
  then (acc.1 ++ ["Shift"], acc.2)
  else (acc.1, part).

Definition parseHotkey (hotkeyString : string) : list Hotkey :=
  if negb (JS.truthy hotkeyString) then []
  else
    let parts := map JS.trim (JSExt.split "+" hotkeyString) in
    let result := fold_left hotkeyStep parts ([], EmptyString) in
    [ {| modifiers := result.1; key := result.2 |} ].

(** *** More handlers of the settings tab *)

Definition set_terminalDelay (v : option Z) (s : OpenInClaudeCodeSettings) : OpenInClaudeCodeSettings :=
  mkSettings (terminalApp s) (customCommand s) (claudeCodePath s) (useCustomClaudePath s)
    (keyboardShortcut s) (showDebugInfo s) v (alwaysOpenVaultRoot s)
    (useCustomVaultPath s) (customVaultPath s) (permissionMode s)
    (dangerouslySkipPermissions s) (allowedTools s) (deniedTools s) (claudeModel s)
    (continueLastSession s) (additionalDirectories s) (maxTurns s) (verboseMode s).

Definition set_permissionMode (v : option PermissionMode) (s : OpenInClaudeCodeSettings) : OpenInClaudeCodeSettings :=
  mkSettings (terminalApp s) (customCommand s) (claudeCodePath s) (useCustomClaudePath s)
    (keyboardShortcut s) (showDebugInfo s) (terminalDelay s) (alwaysOpenVaultRoot s)
    (useCustomVaultPath s) (customVaultPath s) v
    (dangerouslySkipPermissions s) (allowedTools s) (deniedTools s) (claudeModel s)
    (continueLastSession s) (additionalDirectories s) (maxTurns s) (verboseMode s).

Definition set_dangerouslySkipPermissions (v : option bool) (s : OpenInClaudeCodeSettings) : OpenInClaudeCodeSettings :=
  mkSettings (terminalApp s) (customCommand s) (claudeCodePath s) (useCustomClaudePath s)
    (keyboardShortcut s) (showDebugInfo s) (terminalDelay s) (alwaysOpenVaultRoot s)
    (useCustomVaultPath s) (customVaultPath s) (permissionMode s)
    v (allowedTools s) (deniedTools s) (claudeModel s)
    (continueLastSession s) (additionalDirectories s) (maxTurns s) (verboseMode s).

Definition set_allowedTools (v : option (list string)) (s : OpenInClaudeCodeSettings) : OpenInClaudeCodeSettings :=
  mkSettings (terminalApp s) (customCommand s) (claudeCodePath s) (useCustomClaudePath s)
    (keyboardShortcut s) (showDebugInfo s) (terminalDelay s) (alwaysOpenVaultRoot s)
    (useCustomVaultPath s) (customVaultPath s) (permissionMode s)
    (dangerouslySkipPermissions s) v (deniedTools s) (claudeModel s)
    (continueLastSession s) (additionalDirectories s) (maxTurns s) (verboseMode s).

Definition set_deniedTools (v : option (list string)) (s : OpenInClaudeCodeSettings) : OpenInClaudeCodeSettings :=
  mkSettings (terminalApp s) (customCommand s) (claudeCodePath s) (useCustomClaudePath s)
    (keyboardShortcut s) (showDebugInfo s) (terminalDelay s) (alwaysOpenVaultRoot s)
    (useCustomVaultPath s) (customVaultPath s) (permissionMode s)
    (dangerouslySkipPermissions s) (allowedTools s) v (claudeModel s)
    (continueLastSession s) (additionalDirectories s) (maxTurns s) (verboseMode s).

(** The field [Terminal activation delay]: the text is accepted only when
    it parses to a number from 500 to 10000. *)
Definition onChange_terminalDelay (value : string) : M unit :=
  match JSExt.parseInt value with
  | Some numValue =>
      if (500 <=? numValue)%Z && (numValue <=? 10000)%Z
      then do _ <- modifySettings (set_terminalDelay (Some numValue)); saveSettings
      else ret tt
  | None => ret tt
  end.

(** [if (!settings.allowedTools) settings.allowedTools = []] *)
Definition ensureAllowedTools (s : OpenInClaudeCodeSettings) : OpenInClaudeCodeSettings :=
  match allowedTools s with
  | Some _ => s
  | None => set_allowedTools (Some []) s
  end.

(** The assignments of the dropdown [Permission mode]. *)
Definition assignPermissionMode (value : PermissionMode) (s : OpenInClaudeCodeSettings)
    : OpenInClaudeCodeSettings :=
  let s := set_permissionMode (Some value) s in
  (* Update tool permissions based on permission mode *)
  let s := ensureAllowedTools s in
  match value with
  | pm_acceptEdits =>
      set_allowedTools (Some ["Edit"; "MultiEdit"; "Write"; "NotebookEdit"]) s
  | pm_bypassPermissions =>
      set_dangerouslySkipPermissions (Some false)
        (set_allowedTools
           (Some ["Bash"; "Edit"; "Write"; "MultiEdit"; "WebFetch"; "WebSearch"; "NotebookEdit"]) s)
  | pm_plan => set_allowedTools (Some []) s
  | pm_default => set_dangerouslySkipPermissions (Some false) (set_allowedTools (Some []) s)
  | pm_custom => s
  end.

Definition isCustomMode (m : option PermissionMode) : bool :=
  match m with Some pm_custom => true | _ => false end.

Definition arrayIncludes (tool : string) (tools : list string) : bool :=
  existsb (String.eqb tool) tools.

Definition arrayWithout (tool : string) (tools : list string) : list string :=
  List.filter (fun t => negb (String.eqb t tool)) tools.

(** The assignments of a tool's toggle in the custom permission section. *)
Definition assignToolToggle (tool : string) (value : bool) (s : OpenInClaudeCodeSettings)
    : OpenInClaudeCodeSettings :=
  let s := ensureAllowedTools s in
  let allowed := from_option id [] (allowedTools s) in
  if value then
    (* Add to allowed tools if not already there *)
    let s := if arrayIncludes tool allowed then s
             else set_allowedTools (Some (allowed ++ [tool])) s in
    (* Remove from denied tools if present *)
    match deniedTools s with
    | Some denied =>
        if arrayIncludes tool denied
        then set_deniedTools (Some (arrayWithout tool denied)) s else s
    | None => s
    end
  else
    (* Remove from allowed tools *)
    set_allowedTools (Some (arrayWithout tool allowed)) s.

Definition set_additionalDirectories (v : option (list string)) (s : OpenInClaudeCodeSettings) : OpenInClaudeCodeSettings :=
  mkSettings (terminalApp s) (customCommand s) (claudeCodePath s) (useCustomClaudePath s)
    (keyboardShortcut s) (showDebugInfo s) (terminalDelay s) (alwaysOpenVaultRoot s)
    (useCustomVaultPath s) (customVaultPath s) (permissionMode s)
    (dangerouslySkipPermissions s) (allowedTools s) (deniedTools s) (claudeModel s)
    (continueLastSession s) v (maxTurns s) (verboseMode s).

(** An entry of [additionalDirectories] that is not blank. *)
Definition notBlank (dir : string) : bool := JS.truthy (JS.trim dir).

(** *** Predicates used in the further properties *)

(** The program never ends with an exception. *)
Definition total {A} (m : M A) : Prop :=
  forall env st, exists a, fst (m env st) = Ok a.

(** The activation delay is unset or lies in the range the settings tab
    accepts. *)
Definition delayInRange (s : OpenInClaudeCodeSettings) : Prop :=
  match terminalDelay s with
  | Some n => (500 <= n <= 10000)%Z
  | None => True
  end.

(** Every process the environment is asked to run fails. *)
Definition allFail (env : Env) : Prop :=
  forall log command cwd, exists message, exec_result env log command cwd = inl message.

(** The inverse of quote doubling on its image. *)
Fixpoint undoubleQuotes (s : string) : string :=
  match s with
  | EmptyString => EmptyString
  | String a rest =>
      if Ascii.eqb a JS.dquote
      then match rest with
           | String b rest' => String a (undoubleQuotes rest')
           | EmptyString => JS.str1 a
           end
      else String a (undoubleQuotes rest)
  end.

(** The inverse of backtick escaping on its image. *)
Fixpoint dropBackticks (s : string) : string :=
  match s with
  | EmptyString => EmptyString
  | String a rest =>
      if Ascii.eqb a "`"
      then match rest with
           | String b rest' => String b (dropBackticks rest')
           | EmptyString => EmptyString
           end
      else String a (dropBackticks rest)
  end.

(** ** Asynchronous methods as tasks that run interleaved

    The programs above run a method from its first statement to its last.
    In the plugin an [async] method gives up control at every [await], and
    methods are started without being awaited ([onload] starts the
    installation check that way, [display] its two scans), so calls
    overlap.  A task spells out where a method waits. *)

Inductive Task (A : Type) : Type :=
  | Finish (value : A)                                  (* return *)
  | Fail (message : string)                             (* throw *)
  | Step (update : Env -> State -> State)               (* synchronous code *)
      (next : Env -> State -> Task A)
  | AwaitExec (command : string) (cwd : option string)  (* await execAsync(...) *)
      (k : string + string -> Task A)
  | AwaitSave (k : option string -> Task A)             (* await this.saveData(...) *)
  | AwaitTick (k : Task A)                              (* await of a settled promise *)
  | Fork (child : Task unit) (k : Task A).              (* a call that is not awaited *)
Arguments Finish {A} value.
Arguments Fail {A} message.
Arguments Step {A} update next.
Arguments AwaitExec {A} command cwd k.
Arguments AwaitSave {A} k.
Arguments AwaitTick {A} k.
Arguments Fork {A} child k.

Fixpoint tbind {A B} (t : Task A) (g : A -> Task B) : Task B :=
  match t with
  | Finish a => g a
  | Fail message => Fail message
  | Step update next => Step update (fun env st => tbind (next env st) g)
  | AwaitExec command cwd k => AwaitExec command cwd (fun r => tbind (k r) g)
  | AwaitSave k => AwaitSave (fun r => tbind (k r) g)
  | AwaitTick k => AwaitTick (tbind k g)
  | Fork child k => Fork child (tbind k g)
  end.

(** [try { t } catch (e) { handler e }] *)
Fixpoint tcatch {A} (t : Task A) (handler : string -> Task A) : Task A :=
  match t with
  | Finish a => Finish a
  | Fail message => handler message
  | Step update next => Step update (fun env st => tcatch (next env st) handler)
  | AwaitExec command cwd k => AwaitExec command cwd (fun r => tcatch (k r) handler)
  | AwaitSave k => AwaitSave (fun r => tcatch (k r) handler)
  | AwaitTick k => AwaitTick (tcatch k handler)
  | Fork child k => Fork child (tcatch k handler)
  end.

(** The caller's side of [await method(...)]: when the method has returned
    or thrown, the caller goes on one turn of the job queue later. *)
Fixpoint settle {A} (t : Task A) : Task A :=
  match t with
  | Finish a => AwaitTick (Finish a)
  | Fail message => AwaitTick (Fail message)
  | Step update next => Step update (fun env st => settle (next env st))
  | AwaitExec command cwd k => AwaitExec command cwd (fun r => settle (k r))
  | AwaitSave k => AwaitSave (fun r => settle (k r))
  | AwaitTick k => AwaitTick (settle k)
  | Fork child k => Fork child (settle k)
  end.

(** A piece of synchronous code, given as a program of [M] without calls
    of [execAsync] or [saveSettings]. *)
Definition sync {A} (m : M A) : Task A :=
  Step (fun env st => snd (m env st))
       (fun env st => match fst (m env st) with
                      | Ok a => Finish a
                      | Thrown message => Fail message
                      end).

Definition tmap {A B} (f : A -> B) (t : Task A) : Task B :=
  tbind t (fun a => Finish (f a)).

Notation "'do!' x <- t ; k" := (tbind t (fun x => k))
  (at level 10, x name, t at level 100, k at level 200).
Notation "'await' x <- t ; k" := (tbind (settle t) (fun x => k))
  (at level 10, x name, t at level 100, k at level 200).

(** *** What a thread waits for, and how it goes on *)

(** A process that has been started, with the log it was started after; a
    write of the data file, with the settings handed over; a turn of the
    job queue. *)
Inductive Waiting (A : Type) : Type :=
  | ForExec (log : list ExecCall) (command : string) (cwd : option string)
      (k : string + string -> Task A)
  | ForSave (data : OpenInClaudeCodeSettings) (k : option string -> Task A)
  | ForTick (k : Task A).
Arguments ForExec {A} log command cwd k.
Arguments ForSave {A} data k.
Arguments ForTick {A} k.

Inductive Progress (A : Type) : Type :=
  | Done (outcome : Outcome A)
  | Blocked (w : Waiting A).
Arguments Done {A} outcome.
Arguments Blocked {A} w.

(** Starting a process logs the call; its end lets the time it took pass.
    Both together are [with_exec]. *)
Definition spawned (call : ExecCall) (st : State) : State :=
  mkState (this_settings st) (this_claudeInstalled st) (terminalAppCache st) (clock st)
    (execLog st ++ [call]) (notices st) (savedData st) (timers st).

Definition elapsed (ms : Z) (st : State) : State := with_clock (clock st + ms)%Z st.

(** Run a thread up to its next [await] or its end.  The threads it forks
    on the way run up to their own first [await] before it goes on, and
    are returned with it. *)
Fixpoint advance (A : Type) (t : Task A) (env : Env) (st : State) {struct t}
    : State * list (Waiting unit) * Progress A :=
  match t with
  | Finish a => (st, [], Done (Ok a))
  | Fail message => (st, [], Done (Thrown message))
  | Step update next => advance A (next env st) env (update env st)
  | AwaitExec command cwd k =>
      (spawned (command, cwd) st, [], Blocked (ForExec (execLog st) command cwd k))
  | AwaitSave k => (st, [], Blocked (ForSave (this_settings st) k))
  | AwaitTick k => (st, [], Blocked (ForTick k))
  | Fork child k =>
      match advance unit child env st with
      | (st', forked, Done _) =>
          match advance A k env st' with
          | (st'', more, p) => (st'', forked ++ more, p)
          end
      | (st', forked, Blocked w) =>
          match advance A k env st' with
          | (st'', more, p) => (st'', forked ++ w :: more, p)
          end
      end
  end.
Arguments advance {A} t env st.

(** What a waiting thread receives when its wait is over, in the
    environment of that moment. *)
Definition resume {A} (w : Waiting A) (env : Env) (st : State) : State * Task A :=
  match w with
  | ForExec log command cwd k =>
      (elapsed (exec_duration env log command) st, k (exec_result env log command cwd))
  | ForSave data k =>
      match saveData_error env with
      | Some message => (st, k (Some message))
      | None => (with_saved data st, k None)
      end
  | ForTick k => (st, k)
  end.

(** One thread followed to its end without anything in between: every
    wait is over at once.  For a task that forks nothing this is the
    reading of the section on the plugin's methods. *)
Fixpoint run (A : Type) (t : Task A) (env : Env) (st : State) {struct t} : Outcome A * State :=
  match t with
  | Finish a => (Ok a, st)
  | Fail message => (Thrown message, st)
  | Step update next => run A (next env st) env (update env st)
  | AwaitExec command cwd k =>
      run A (k (exec_result env (execLog st) command cwd)) env
        (with_exec (command, cwd) (exec_duration env (execLog st) command) st)
  | AwaitSave k =>
      match saveData_error env with
      | Some message => run A (k (Some message)) env st
      | None => run A (k None) env (with_saved (this_settings st) st)
      end
  | AwaitTick k => run A k env st
  | Fork child k => run A k env (advance child env st).1.1
  end.
Arguments run {A} t env st.

(** *** The methods of the plugin class, with their waits *)

Module Async.

Definition execAsync (command : string) (cwd : option string) : Task string :=
  AwaitExec command cwd
    (fun r => match r with inr stdout => Finish stdout | inl message => Fail message end).

Definition saveSettings : Task unit :=
  AwaitSave (fun error => match error with Some message => Fail message | None => Finish tt end).

Fixpoint firstExistingPath (paths : list string) : Task (option string) :=
  match paths with
  | [] => Finish None
  | path :: rest =>
      do! found <- tcatch
                     (do! stdout <- execAsync (testPathCommand path) None;
                      Finish (String.eqb (JS.trim stdout) "True"))
                     (fun _ => Finish false);
      if found then Finish (Some path) else firstExistingPath rest
  end.

(** Detect Claude Code installation path *)
Definition detectClaudePath : Task (option string) :=
  tcatch
    (do! fromPATH <- tcatch
                       (do! stdout <- execAsync "where claude" None;
                        let path := JS.firstLine (JS.trim stdout) in
                        Finish (if JS.truthy path then Some path else None))
                       (fun _ => Finish None);
     match fromPATH with
     | Some path => Finish (Some path)
     | None =>
         do! env <- sync ask;
         firstExistingPath [
           "claude";
           "claude.exe";
           envText env "USERPROFILE" +:+ "\AppData\Local\Programs\Claude\claude.exe";
           envText env "PROGRAMFILES" +:+ "\Claude\claude.exe";
           envText env "PROGRAMFILES_X86" +:+ "\Claude\claude.exe"
         ]
     end)
    (fun _ => Finish None).

(** Verify if a given path contains Claude Code executable *)
Definition verifyClaudePath (path : string) : Task bool :=
  if negb (JS.truthy path) then Finish false
  else tcatch
         (do! stdout <- execAsync (testPathCommand path) None;
          Finish (String.eqb (JS.trim stdout) "True"))
         (fun _ => Finish false).

(** Check if Claude Code is installed (with caching) *)
Definition checkClaudeCodeInstallation : Task bool :=
  do! st <- sync get;
  match this_claudeInstalled st with
  | Some cached => Finish cached
  | None =>
      tcatch
        (if useCustomClaudePath (this_settings st)
         then
           await verified <- verifyClaudePath (claudeCodePath (this_settings st));
           do! _ <- sync (modify (with_claudeInstalled (Some verified)));
           Finish verified
         else
           await detectedPath <- detectClaudePath;
           if from_option JS.truthy false detectedPath
           then
             do! _ <- sync (modify (fun st' =>
                        with_settings
                          (set_claudeCodePath (from_option id EmptyString detectedPath)
                             (this_settings st')) st'));
             await _ <- saveSettings;
             do! _ <- sync (modify (with_claudeInstalled (Some true)));
             Finish true
           else
             do! _ <- sync (modify (with_claudeInstalled (Some false)));
             Finish false)
        (fun _ =>
           do! _ <- sync (modify (with_claudeInstalled (Some false)));
           Finish false)
  end.

Fixpoint probeCommonPaths (executable : string) (paths : list string) : Task bool :=
  match paths with
  | [] => Finish false
  | path :: rest =>
      do! found <- tcatch
                     (do! stdout <- execAsync (testPathCommand path) None;
                      if String.eqb (JS.trim stdout) "True"
                      then do! _ <- sync (cacheSet executable true); Finish true
                      else Finish false)
                     (fun _ => Finish false);
      if found then Finish true else probeCommonPaths executable rest
  end.

Definition probeTerminalApp (executable : string) : Task bool :=
  tcatch
    (do! viaWhere <- tcatch
                       (do! stdout <- execAsync ("where " +:+ executable) None;
                        if JS.truthy (JS.trim stdout)
                        then do! _ <- sync (cacheSet executable true); Finish true
                        else Finish false)
                       (fun _ => Finish false);
     if viaWhere then Finish true
     else
       do! env <- sync ask;
       do! found <- probeCommonPaths executable [
                      envText env "WINDIR" +:+ "\System32" +:+ BS +:+ executable;
                      envText env "PROGRAMFILES" +:+ BS +:+ executable;
                      envText env "PROGRAMFILES_X86" +:+ BS +:+ executable;
                      envText env "LOCALAPPDATA" +:+ "\Programs" +:+ BS +:+ executable
                    ];
       if found then Finish true
       else do! _ <- sync (cacheSet executable false); Finish false)
    (fun _ => do! _ <- sync (cacheSet executable false); Finish false).

(** Check if a terminal app is installed (with caching) *)
Definition checkTerminalAppInstalled (executable : string) : Task bool :=
  do! env <- sync ask;
  if negb (isWin env) then Finish true
  else
    do! st <- sync get;
    do! now <- sync DateNow;
    match terminalAppCache st !! executable with
    | Some (installed, timestamp) =>
        if (now - timestamp <? CACHE_DURATION)%Z then Finish installed
        else probeTerminalApp executable
    | None => probeTerminalApp executable
    end.

(** Handle VS Code and Cursor editors *)
Definition handleCodeEditor (terminalConfig : Property TerminalConfig)
    (cwd claudeCommand : string) : Task unit :=
  do! st <- sync get;
  let delay :=
    firstTruthyNumber [customDelayOf terminalConfig; terminalDelay (this_settings st)]
      (from_option id 0%Z (terminalDelay DEFAULT_SETTINGS)) in
  match openCommandOf terminalConfig with
  | None => Fail "terminalConfig.openCommand is not a function"
  | Some open =>
      do! _ <- execAsync (open cwd claudeCommand) None;
      sync (scheduleAutomation delay claudeCommand)
  end.

(** Open in the selected terminal application *)
Definition openInTerminal (cwd : string) : Task unit :=
  do! st <- sync get;
  do! env <- sync ask;
  let settings := this_settings st in
  let terminalConfig := getProperty TERMINAL_APPS (terminalApp settings) in
  match terminalConfig with
  | Undefined => Fail "Invalid terminal application selected"
  | _ =>
      let claudeCommand := buildClaudeCommand settings in
      if isEditor (terminalApp settings)
      then await _ <- handleCodeEditor terminalConfig cwd claudeCommand; Finish tt
      else
        match (if isWin env then openCommandOf terminalConfig else None) with
        | Some open =>
            do! _ <- execAsync (open cwd claudeCommand) None; Finish tt
        | None =>
            do! _ <- execAsync claudeCommand (Some cwd); Finish tt
        end
  end.

(** Execute custom command with working directory *)
Definition executeCustomCommand (cwd : string) : Task unit :=
  do! st <- sync get;
  let command := customCommandLine (this_settings st) cwd in
  tcatch
    (do! _ <- execAsync command (Some cwd); Finish tt)
    (fun message => Fail ("Custom command failed: " +:+ message)).

(** Open Claude Code in the appropriate directory *)
Definition openClaudeCode : Task unit :=
  do! env <- sync ask;
  if negb (isDesktopApp env) || negb (isWin env)
  then sync (Notice "This feature is only available on Windows desktop")
  else
    await claudeInstalled <- checkClaudeCodeInstallation;
    if negb claudeInstalled
    then sync (Notice "Claude Code not found. Please install it first.")
    else
      do! st <- sync get;
      (* the active file is the one of this moment *)
      do! env <- sync ask;
      let workingDir := getWorkingDirectory (this_settings st) (app env) in
      let displayPath := displayPathOf (app env) in
      tcatch
        (await _ <- (if String.eqb (terminalApp (this_settings st)) "custom"
                      then executeCustomCommand workingDir
                      else openInTerminal workingDir);
         do! st' <- sync get;
         if negb (isEditor (terminalApp (this_settings st')))
         then sync (Notice ("Opening Claude Code in: " +:+ displayPath))
         else Finish tt)
        (fun message => sync (Notice ("Failed to open Claude Code: " +:+ message))).

(** The text typed into the editor: the chord that opens the integrated
    terminal, the command, the Enter key. *)
Definition LF : string := JS.str1 "010"%char.

Definition automationScript (vscode : bool) (claudeCommand : string) : string :=
  let line := fun text : string => "            " +:+ text +:+ LF in
  let sendWait := fun keys : string =>
    "[System.Windows.Forms.SendKeys]::SendWait(" +:+ Q +:+ keys +:+ Q +:+ ")" in
  LF +:+ line "Add-Type -AssemblyName System.Windows.Forms"
     +:+ line "Start-Sleep -Milliseconds 500"
     +:+ line (sendWait (if vscode then "^`" else "^j"))
     +:+ line "Start-Sleep -Milliseconds 1000"
     +:+ line (sendWait claudeCommand)
     +:+ line (sendWait "{ENTER}")
     +:+ "          ".

Definition powerShellCommand (script : string) : string :=
  "powershell -Command " +:+ Q +:+ escapePowerShellString script +:+ Q.

(** Enhanced PowerShell execution with timeout.  The wrapper rejects with
    an Error of its own making, whose message it builds from
    [error.killed], [stderr] and [error.message]; the [inl] answer of the
    environment is read as that message. *)
Definition runPowerShellScript (script : string) : Task unit :=
  AwaitExec (powerShellCommand script) None
    (fun r => match r with inr _ => Finish tt | inl message => Fail message end).

(** The callback of the timer set by [handleCodeEditor]. *)
Definition automationCallback (pa : PendingAutomation) : Task unit :=
  tcatch
    (do! st <- sync get;
     let terminalScript :=
       automationScript (String.eqb (terminalApp (this_settings st)) "vscode")
         (pa_command pa) in
     await _ <- runPowerShellScript terminalScript;
     Finish tt)
    (fun _ =>
       sync (Notice ("Failed to open terminal in " +:+ pa_editorName pa
                       +:+ ". Please open it manually."))).

(** [onload], from the point where the settings have been loaded: the
    notice on other platforms, the registrations (which change nothing
    here), and the installation check, started and not awaited. *)
Definition onload : Task unit :=
  do! env <- sync ask;
  do! _ <- (if negb (isDesktopApp env) || negb (isWin env)
            then sync (Notice ("Open in Claude Code: This plugin only supports Windows desktop. "
                                 +:+ "The plugin will not function on this platform."))
            else Finish tt);
  if isDesktopApp env && isWin env
  then Fork (do! _ <- checkClaudeCodeInstallation; Finish tt) (Finish tt)
  else Finish tt.

(** *** The settings tab *)

Fixpoint collectInstalled (entries : list (string * TerminalConfig))
    (availableApps : list (string * string)) : Task (list (string * string)) :=
  match entries with
  | [] => Finish availableApps
  | (key, config) :: rest =>
      do! env <- sync ask;
      if (String.eqb key "cmd" || String.eqb key "powershell") && isWin env
      then collectInstalled rest (availableApps ++ [(key, config_name config)])
      else
        await isInstalled <- checkTerminalAppInstalled (executableName config);
        if isInstalled
        then collectInstalled rest (availableApps ++ [(key, config_name config)])
        else collectInstalled rest availableApps
  end.

Definition checkInstalledTerminalApps : Task (list (string * string)) :=
  collectInstalled TERMINAL_APPS [].

Fixpoint checkEach (entries : list (string * TerminalConfig)) : Task unit :=
  match entries with
  | [] => Finish tt
  | (_, config) :: rest =>
      await _ <- checkTerminalAppInstalled (executableName config);
      checkEach rest
  end.

(** The state-changing part of [checkAndDisplayClaudeStatus]. *)
Definition checkAndDisplayClaudeStatus : Task unit :=
  do! st <- sync get;
  do! currentPath <-
    (if useCustomClaudePath (this_settings st)
     then Finish (claudeCodePath (this_settings st))
     else await detected <- detectClaudePath;
          Finish (if from_option JS.truthy false detected
                  then from_option id EmptyString detected else "claude"));
  await _ <- verifyClaudePath currentPath;
  do! st' <- sync get;
  if truthyBool (showDebugInfo (this_settings st'))
  then
    (* Clear terminal app cache to get fresh results *)
    do! _ <- sync (modify (with_cache ∅));
    checkEach TERMINAL_APPS
  else Finish tt.

(** [Object.keys(availableApps)[0] || 'cmd'] *)
Definition firstKey (availableApps : list (string * string)) : string :=
  match availableApps with
  | (key, _) :: _ => if JS.truthy key then key else "cmd"
  | [] => "cmd"
  end.

(** The callback that fills the terminal dropdown when the list of
    installed terminals arrives: a selection that is not available is
    reset, and the settings are saved without waiting for it. *)
Definition onAvailableApps (availableApps : list (string * string)) : Task unit :=
  do! st <- sync get;
  let current := terminalApp (this_settings st) in
  if negb (String.eqb current "custom")
     && negb (truthyProperty (getProperty availableApps current))
  then
    do! _ <- sync (modifySettings (set_terminalApp (firstKey availableApps)));
    Fork saveSettings (Finish tt)
  else Finish tt.

(** The state-changing part of [display]: it starts the status section and
    the scan of the installed terminals, and waits for neither. *)
Definition display : Task unit :=
  Fork checkAndDisplayClaudeStatus
    (Fork (await availableApps <- checkInstalledTerminalApps;
           onAvailableApps availableApps)
       (Finish tt)).

(** The toggle of the section [Claude Code custom path]. *)
Definition onChange_useCustomClaudePath (value : bool) : Task unit :=
  do! _ <- sync (modifySettings (set_useCustomClaudePath value));
  do! _ <- (if negb value
            then
              (* Reset to auto-detected path *)
              await detectedPath <- detectClaudePath;
              if from_option JS.truthy false detectedPath
              then sync (modifySettings
                           (set_claudeCodePath (from_option id EmptyString detectedPath)))
              else Finish tt
            else Finish tt);
  await _ <- saveSettings;
  display.

(** The text field of the same section. *)
Definition onChange_claudeCodePath (value : string) : Task unit :=
  do! _ <- sync (modifySettings (set_claudeCodePath value));
  await _ <- saveSettings;
  Finish tt.

(** The button [Test] of the same section. *)
Definition onClick_testClaudePath : Task unit :=
  do! st <- sync get;
  await isValid <- verifyClaudePath (claudeCodePath (this_settings st));
  if isValid
  then sync (Notice "✓ Claude Code found at this path!")
  else sync (Notice "✗ Claude Code not found at this path").

(** The button [Test] of the section [Custom vault path]. *)
Definition onClick_testVaultPath : Task unit :=
  do! st <- sync get;
  let path := from_option id EmptyString (customVaultPath (this_settings st)) in
  if negb (JS.truthy path)
  then sync (Notice "Please enter a vault path first")
  else
    tcatch
      (do! stdout <- execAsync (testPathCommand path) None;
       if String.eqb (JS.trim stdout) "True"
       then sync (Notice "✓ Vault path exists and is accessible!")
       else sync (Notice "✗ Vault path not found or not accessible"))
      (fun _ => sync (Notice "✗ Error checking vault path")).

(** The field [Terminal activation delay]. *)
Definition onChange_terminalDelay (value : string) : Task unit :=
  match JSExt.parseInt value with
  | Some numValue =>
      if (500 <=? numValue)%Z && (numValue <=? 10000)%Z
      then do! _ <- sync (modifySettings (set_terminalDelay (Some numValue)));
           await _ <- saveSettings; Finish tt
      else Finish tt
  | None => Finish tt
  end.

(** The dropdown [Permission mode]. *)
Definition onChange_permissionMode (value : PermissionMode) : Task unit :=
  do! st <- sync get;
  let previousMode := permissionMode (this_settings st) in
  do! _ <- sync (modifySettings (assignPermissionMode value));
  await _ <- saveSettings;
  (* Only refresh the UI if switching to/from custom mode *)
  if (isCustomMode previousMode && negb (isCustomMode (Some value)))
     || (negb (isCustomMode previousMode) && isCustomMode (Some value))
  then display else Finish tt.

(** What a handler does after it has saved. *)
Inductive Afterwards :=
  | Nothing
  | Redraw                      (* this.display() *)
  | Notify (text : string).     (* new Notice(text) *)

(** Every other handler of the tab has one shape: assign the changed
    fields, save, and then nothing, a redraw of the tab, or a notice. *)
Definition onChange_other (assign : OpenInClaudeCodeSettings -> OpenInClaudeCodeSettings)
    (after : Afterwards) : Task unit :=
  do! _ <- sync (modifySettings assign);
  await _ <- saveSettings;
  match after with
  | Nothing => Finish tt
  | Redraw => display
  | Notify text => sync (Notice text)
  end.

End Async.

(** *** A process lifetime: threads started and resumed in any order *)

Inductive Action :=
  | Startup                                (* onload *)
  | CheckClaude                            (* checkClaudeCodeInstallation() *)
  | CheckTerminal (executable : string)    (* checkTerminalAppInstalled(name) *)
  | Launch                                 (* openClaudeCode(): ribbon icon, command *)
  | Refresh                                (* display() *)
  | ToggleCustomPath (value : bool)        (* the override toggle *)
  | EditClaudePath (value : string)        (* the override text field *)
  | TestClaudePath                         (* the override's Test button *)
  | TestVaultPath                          (* the vault path's Test button *)
  | EditDelay (value : string)             (* the delay field *)
  | SelectPermissionMode (value : PermissionMode)
  | EditOther (assign : OpenInClaudeCodeSettings -> OpenInClaudeCodeSettings)
      (after : Async.Afterwards).          (* any other setting *)

(** What a thread hands back: the boolean of a check, nothing otherwise. *)
Definition Answer : Type := option bool.

Definition silent {A} (t : Task A) : Task Answer := tmap (fun _ => None) t.

Definition taskOf (a : Action) : Task Answer :=
  match a with
  | Startup => silent Async.onload
  | CheckClaude => tmap Some Async.checkClaudeCodeInstallation
  | CheckTerminal executable => silent (Async.checkTerminalAppInstalled executable)
  | Launch => silent Async.openClaudeCode
  | Refresh => silent Async.display
  | ToggleCustomPath value => silent (Async.onChange_useCustomClaudePath value)
  | EditClaudePath value => silent (Async.onChange_claudeCodePath value)
  | TestClaudePath => silent Async.onClick_testClaudePath
  | TestVaultPath => silent Async.onClick_testVaultPath
  | EditDelay value => silent (Async.onChange_terminalDelay value)
  | SelectPermissionMode value => silent (Async.onChange_permissionMode value)
  | EditOther assign after => silent (Async.onChange_other assign after)
  end.

Definition adopt (w : Waiting unit) : Waiting Answer :=
  match w with
  | ForExec log command cwd k => ForExec log command cwd (fun r => silent (k r))
  | ForSave data k => ForSave data (fun r => silent (k r))
  | ForTick k => ForTick (silent k)
  end.

(** The plugin with its threads in flight: the state, the threads that
    wait, the answers of the threads that have ended (in the order of
    their ends), and the timers that have fired. *)
Record Config := mkConfig {
  cfg_state : State;
  cfg_waiting : list (Waiting Answer);
  cfg_answers : list (Outcome Answer);
  cfg_fired : list nat
}.

(** A process start: the plugin object as constructed, nothing in flight. *)
Definition startOf (settings : OpenInClaudeCodeSettings) (t : Z) : Config :=
  mkConfig (newPlugin settings t) [] [] [].

Inductive Event :=
  | Begin (a : Action)     (* the host or the user starts an action *)
  | Resume (i : nat)       (* the wait of the i-th waiting thread is over *)
  | Fire (j : nat)         (* the j-th timer goes off *)
  | Elapse (ms : Z).       (* time passes *)

(** A thread has been advanced: it joins the waiting threads, behind the
    threads it has forked, or its answer is recorded. *)
Definition park (r : State * list (Waiting unit) * Progress Answer)
    (others : list (Waiting Answer)) (answers : list (Outcome Answer))
    (fired : list nat) : Config :=
  match r with
  | (st, forked, Done outcome) =>
      mkConfig st (others ++ map adopt forked) (answers ++ [outcome]) fired
  | (st, forked, Blocked w) =>
      mkConfig st (others ++ map adopt forked ++ [w]) answers fired
  end.

Definition due (j : nat) (pa : PendingAutomation) (cfg : Config) : bool :=
  negb (existsb (Nat.eqb j) (cfg_fired cfg))
  && (pa_at pa + pa_delay pa <=? clock (cfg_state cfg))%Z.

Definition step (e : Event) (env : Env) (cfg : Config) : Config :=
  match e with
  | Begin a =>
      park (advance (taskOf a) env (cfg_state cfg))
        (cfg_waiting cfg) (cfg_answers cfg) (cfg_fired cfg)
  | Resume i =>
      match cfg_waiting cfg !! i with
      | Some w =>
          let (st, t) := resume w env (cfg_state cfg) in
          park (advance t env st) (delete i (cfg_waiting cfg)) (cfg_answers cfg) (cfg_fired cfg)
      | None => cfg
      end
  | Fire j =>
      match timers (cfg_state cfg) !! j with
      | Some pa =>
          if due j pa cfg
          then park (advance (silent (Async.automationCallback pa)) env (cfg_state cfg))
                 (cfg_waiting cfg) (cfg_answers cfg) (j :: cfg_fired cfg)
          else cfg
      | None => cfg
      end
  | Elapse ms =>
      mkConfig (elapsed (Z.max 0 ms) (cfg_state cfg))
        (cfg_waiting cfg) (cfg_answers cfg) (cfg_fired cfg)
  end.

(** A run: events, each met by the environment of its moment. *)
Fixpoint play (events : list (Event * Env)) (cfg : Config) : Config :=
  match events with
  | [] => cfg
  | (e, env) :: rest => play rest (step e env cfg)
  end.

(** *** Predicates on tasks *)

(** The thread, followed alone, does what the program of [M] does. *)
Definition agrees {A} (t : Task A) (m : M A) : Prop :=
  forall env st, run t env st = m env st.

(** Whatever the thread is told when its waits are over, it leaves a
    cached answer [b] of the installation check as it is. *)
Fixpoint keeps (b : bool) (A : Type) (t : Task A) {struct t} : Prop :=
  match t with
  | Finish _ | Fail _ => True
  | Step update next =>
      forall env st, this_claudeInstalled st = Some b ->
        this_claudeInstalled (update env st) = Some b /\ keeps b A (next env st)
  | AwaitExec _ _ k => forall r, keeps b A (k r)
  | AwaitSave k => forall r, keeps b A (k r)
  | AwaitTick k => keeps b A k
  | Fork child k => keeps b unit child /\ keeps b A k
  end.
Arguments keeps b {A} t.

Definition keepsWaiting (b : bool) {A} (w : Waiting A) : Prop :=
  match w with
  | ForExec _ _ _ k => forall r, keeps b (k r)
  | ForSave _ k => forall r, keeps b (k r)
  | ForTick k => keeps b k
  end.

(** No thread in flight is going to assign the installation flag: none is
    in the middle of a check that found no cached answer. *)
Definition settled (b : bool) (cfg : Config) : Prop :=
  Forall (keepsWaiting b) (cfg_waiting cfg).

(** A thread that hands back a boolean has stored it in the installation
    flag in the same synchronous step. *)
Fixpoint answersCached (A : Type) (view : A -> option bool) (t : Task A) {struct t} : Prop :=
  match t with
  | Finish a => view a = None
  | Fail _ => True
  | Step update next =>
      forall env st,
        (exists a, next env st = Finish a
                   /\ this_claudeInstalled (update env st) = view a)
        \/ answersCached A view (next env st)
  | AwaitExec _ _ k => forall r, answersCached A view (k r)
  | AwaitSave k => forall r, answersCached A view (k r)
  | AwaitTick k => answersCached A view k
  | Fork _ k => answersCached A view k
  end.
Arguments answersCached {A} view t.

Definition answersCachedWaiting {A} (view : A -> option bool) (w : Waiting A) : Prop :=
  match w with
  | ForExec _ _ _ k => forall r, answersCached view (k r)
  | ForSave _ k => forall r, answersCached view (k r)
  | ForTick k => answersCached view k
  end.

Definition honest (cfg : Config) : Prop :=
  Forall (answersCachedWaiting id) (cfg_waiting cfg).

(** * Properties *)

(** ** Strings *)

Section StringFacts.

Lemma app_nil_l (s : string) : EmptyString +:+ s = s.
Proof. reflexivity. Qed.

Lemma app_cons (a : ascii) (s t : string) : String a s +:+ t = String a (s +:+ t).
Proof. reflexivity. Qed.

Lemma app_nil_r (s : string) : s +:+ EmptyString = s.
Proof. induction s as [|a s IH]; [reflexivity|]. rewrite app_cons, IH. reflexivity. Qed.

Lemma app_assoc (s t u : string) : (s +:+ t) +:+ u = s +:+ (t +:+ u).
Proof.
  induction s as [|a s IH]; [reflexivity|].
  rewrite !app_cons, IH. reflexivity.
Qed.

Lemma prefix_app (p s : string) : String.prefix p (p +:+ s) = true.
Proof.
  induction p as [|a p IH].
  - destruct s; reflexivity.
  - rewrite app_cons. simpl. destruct (ascii_dec a a); [exact IH|congruence].
Qed.

Lemma includes_prefix (p s : string) :
  String.prefix p s = true -> JS.includes p s = true.
Proof. destruct s; simpl; intros ->; reflexivity. Qed.

Lemma includes_here (p s : string) : JS.includes p (p +:+ s) = true.
Proof. apply includes_prefix, prefix_app. Qed.

Lemma includes_app (p before after : string) :
  JS.includes p (before +:+ p +:+ after) = true.
Proof.
  induction before as [|a before IH].
  - rewrite app_nil_l. apply includes_here.
  - rewrite app_cons. simpl. rewrite IH. apply orb_true_r.
Qed.

Lemma count_app (c : ascii) (s t : string) :
  JS.count c (s +:+ t) = JS.count c s + JS.count c t.
Proof.
  induction s as [|a s IH]; [reflexivity|].
  rewrite app_cons. simpl. rewrite IH. lia.
Qed.

Lemma replaceAllChar_app (c : ascii) (rep s t : string) :
  JS.replaceAllChar c rep (s +:+ t)
  = JS.replaceAllChar c rep s +:+ JS.replaceAllChar c rep t.
Proof.
  induction s as [|a s IH]; [reflexivity|].
  rewrite app_cons. simpl. rewrite IH.
  destruct (Ascii.eqb a c); [rewrite app_assoc|rewrite app_cons]; reflexivity.
Qed.

Lemma replaceAllChar_absent (c : ascii) (rep s : string) :
  JS.count c s = 0 -> JS.replaceAllChar c rep s = s.
Proof.
  induction s as [|a s IH]; [reflexivity|].
  simpl. destruct (Ascii.eqb a c); [discriminate|].
  intros H. rewrite IH by exact H. reflexivity.
Qed.

Lemma replaceAllChar_removes (c r : ascii) (s : string) :
  r <> c -> JS.count c (JS.replaceAllChar c (JS.str1 r) s) = 0.
Proof.
  intros Hne. unfold JS.str1. induction s as [|a s IH]; [reflexivity|].
  simpl. destruct (Ascii.eqb a c) eqn:E.
  - rewrite app_cons, app_nil_l. simpl.
    apply Ascii.eqb_neq in Hne. rewrite Hne. exact IH.
  - simpl. rewrite E. exact IH.
Qed.

Lemma replaceAllChar_length (c r : ascii) (s : string) :
  String.length (JS.replaceAllChar c (JS.str1 r) s) = String.length s.
Proof.
  unfold JS.str1. induction s as [|a s IH]; [reflexivity|].
  simpl. destruct (Ascii.eqb a c); [rewrite app_cons, app_nil_l|]; simpl; congruence.
Qed.

(** A string with exactly one occurrence of a character splits around it. *)
Lemma count_one_split (c : ascii) (s : string) :
  JS.count c s = 1 ->
  exists a b, s = a +:+ JS.str1 c +:+ b /\ JS.count c a = 0 /\ JS.count c b = 0.
Proof.
  induction s as [|x s IH]; [discriminate|].
  simpl. destruct (Ascii.eqb x c) eqn:E.
  - intros H. apply Ascii.eqb_eq in E. subst x.
    exists EmptyString, s. split; [reflexivity|]. split; [reflexivity|lia].
  - intros H. destruct (IH H) as (a & b & -> & Ha & Hb).
    exists (String x a), b. rewrite app_cons. simpl. rewrite E.
    split; [reflexivity|]. split; assumption.
Qed.

End StringFacts.

(** ** Path escaping *)

Lemma escape_quote_free (s : string) :
  JS.count JS.dquote s = 0 -> escapeWindowsPath s = s.
Proof. apply replaceAllChar_absent. Qed.

Lemma escape_app (s t : string) :
  escapeWindowsPath (s +:+ t) = escapeWindowsPath s +:+ escapeWindowsPath t.
Proof. apply replaceAllChar_app. Qed.

Lemma escape_counts (s : string) :
  JS.count JS.dquote (escapeWindowsPath s) = 2 * JS.count JS.dquote s.
Proof.
  induction s as [|a s IH]; [reflexivity|].
  unfold escapeWindowsPath, JS.str1 in *. simpl.
  destruct (Ascii.eqb a JS.dquote) eqn:E.
  - rewrite !app_cons, app_nil_l. simpl. rewrite IH. lia.
  - simpl. rewrite E, IH. lia.
Qed.

Lemma escape_others (s : string) :
  JS.without JS.dquote (escapeWindowsPath s) = JS.without JS.dquote s.
Proof.
  induction s as [|a s IH]; [reflexivity|].
  unfold escapeWindowsPath, JS.str1 in *. simpl.
  destruct (Ascii.eqb a JS.dquote) eqn:E.
  - rewrite !app_cons, app_nil_l. simpl. exact IH.
  - simpl. rewrite E, IH. reflexivity.
Qed.

(** C6.  [escapeWindowsPath] leaves a string without quote characters as
    it is; a string with exactly one quote character comes back with that
    quote doubled once and the text around it unchanged; in general the
    number of quote characters doubles, the other characters are kept in
    order, and escaping distributes over concatenation. *)
Theorem escapeWindowsPath_doubles_quotes :
  (forall s, JS.count JS.dquote s = 0 -> escapeWindowsPath s = s)
  /\ (forall s, JS.count JS.dquote s = 1 ->
        exists a b, s = a +:+ Q +:+ b
                    /\ JS.count JS.dquote a = 0 /\ JS.count JS.dquote b = 0
                    /\ escapeWindowsPath s = a +:+ Q +:+ Q +:+ b)
  /\ (forall s, JS.count JS.dquote (escapeWindowsPath s) = 2 * JS.count JS.dquote s
                /\ JS.without JS.dquote (escapeWindowsPath s) = JS.without JS.dquote s)
  /\ (forall s t, escapeWindowsPath (s +:+ t) = escapeWindowsPath s +:+ escapeWindowsPath t)
  /\ escapeWindowsPath Q = Q +:+ Q.
Proof.
  split; [exact escape_quote_free|].
  split.
  - intros s H. destruct (count_one_split _ _ H) as (a & b & -> & Ha & Hb).
    exists a, b. split; [reflexivity|]. split; [assumption|]. split; [assumption|].
    rewrite !escape_app, (escape_quote_free a Ha), (escape_quote_free b Hb).
    reflexivity.
  - split; [intros s; split; [apply escape_counts|apply escape_others]|].
    split; [exact escape_app|reflexivity].
Qed.

Lemma escapeWindowsPath_doubles_quotes_witness :
  escapeWindowsPath "C:\Vault" = "C:\Vault"
  /\ exists a b, "C:\My " +:+ Q +:+ "Vault" = a +:+ Q +:+ b
                 /\ JS.count JS.dquote a = 0 /\ JS.count JS.dquote b = 0
                 /\ escapeWindowsPath ("C:\My " +:+ Q +:+ "Vault") = a +:+ Q +:+ Q +:+ b.
Proof.
  destruct escapeWindowsPath_doubles_quotes as (H0 & H1 & _).
  split.
  - apply H0. reflexivity.
  - apply H1. reflexivity.
Defined.

(** ** Command builder *)

Example build_default : buildClaudeCommand DEFAULT_SETTINGS = "claude".
Proof. reflexivity. Qed.

Example build_verbose :
  buildClaudeCommand
    (mkSettings "custom" EmptyString "claude" false "Ctrl+Shift+C" None None None None None
       None None None None None None None None (Some true))
  = "claude --verbose".
Proof. reflexivity. Qed.

Example build_all_flags :
  buildClaudeCommand
    (mkSettings "cmd" EmptyString "C:\bin\claude.exe" true "Ctrl+Shift+C" None None None
       None None (Some pm_plan) (Some true) (Some ["Edit"; "Write"]) (Some ["Bash"])
       (Some "opus") (Some true) (Some ["  C:\a b  "; "   "; "D:\x"]) (Some (-3)%Z)
       (Some true))
  = "C:\bin\claude.exe --permission-mode plan --dangerously-skip-permissions"
    +:+ " --allowedTools Edit,Write --disallowedTools Bash --model opus --continue"
    +:+ " --max-turns -3 --verbose --add-dir " +:+ Q +:+ "C:\a b" +:+ Q
    +:+ " --add-dir " +:+ Q +:+ "D:\x" +:+ Q.
Proof. vm_compute. reflexivity. Qed.

(** C5.  With every option at its default value the built command is the
    base invocation token alone: the override path when the override is
    enabled, [claude] otherwise. *)
Theorem buildClaudeCommand_defaults (settings : OpenInClaudeCodeSettings) :
  permissionMode settings = Some pm_default ->
  dangerouslySkipPermissions settings = Some false ->
  allowedTools settings = Some [] ->
  deniedTools settings = Some [] ->
  claudeModel settings = Some "default" ->
  continueLastSession settings = Some false ->
  maxTurns settings = Some 10%Z ->
  verboseMode settings = Some false ->
  additionalDirectories settings = Some [] ->
  buildClaudeCommand settings
  = if useCustomClaudePath settings then claudeCodePath settings else "claude".
Proof.
  intros Hmode Hskip Hallow Hdeny Hmodel Hcont Hturns Hverbose Hdirs.
  unfold buildClaudeCommand, commandBeforeMaxTurns, addPermissionMode,
    addSkipPermissions, addAllowedTools, addDeniedTools, addModel, addContinue,
    addMaxTurns, addVerbose, addAdditionalDirectories.
  rewrite Hmode, Hskip, Hallow, Hdeny, Hmodel, Hcont, Hturns, Hverbose, Hdirs.
  reflexivity.
Qed.

Lemma buildClaudeCommand_defaults_witness :
  buildClaudeCommand (set_claudeCodePath "C:\tools\claude.exe"
                        (set_useCustomClaudePath true DEFAULT_SETTINGS))
  = "C:\tools\claude.exe".
Proof.
  apply (buildClaudeCommand_defaults
           (set_claudeCodePath "C:\tools\claude.exe"
              (set_useCustomClaudePath true DEFAULT_SETTINGS))); reflexivity.
Defined.

Lemma addDirs_app (command : string) (dirs : list string) :
  addDirs command dirs = command +:+ addDirs EmptyString dirs.
Proof.
  revert command. induction dirs as [|dir rest IH]; intros command; simpl.
  - rewrite app_nil_r. reflexivity.
  - destruct (JS.truthy (JS.trim dir)); [|apply IH].
    rewrite IH, (IH (EmptyString +:+ _)), app_nil_l, !app_assoc. reflexivity.
Qed.

Lemma buildClaudeCommand_split (settings : OpenInClaudeCodeSettings) :
  buildClaudeCommand settings
  = commandBeforeMaxTurns settings +:+ maxTurnsFlag (maxTurns settings)
      +:+ flagsAfterMaxTurns settings.
Proof.
  unfold buildClaudeCommand, addAdditionalDirectories, addVerbose, addMaxTurns,
    maxTurnsFlag, flagsAfterMaxTurns.
  generalize (commandBeforeMaxTurns settings) as c. intros c.
  assert (Hturn :
    match maxTurns settings with
    | Some n => if negb (n =? 0)%Z && negb (n =? 10)%Z
                then c +:+ " --max-turns " +:+ JS.NumberToString n else c
    | None => c
    end
    = c +:+ match maxTurns settings with
            | Some n => if (n =? 10)%Z || (n =? 0)%Z then EmptyString
                        else " --max-turns " +:+ JS.NumberToString n
            | None => EmptyString
            end).
  { destruct (maxTurns settings) as [n|]; [|rewrite app_nil_r; reflexivity].
    destruct (n =? 0)%Z, (n =? 10)%Z; simpl; rewrite ?app_nil_r; reflexivity. }
  cbv zeta. rewrite Hturn. set (flag := match maxTurns settings with Some _ => _ | None => _ end).
  destruct (truthyBool (verboseMode settings)),
    (nonEmptyList (additionalDirectories settings));
    rewrite ?(addDirs_app (_ +:+ _)), ?app_assoc, ?app_nil_l, ?app_nil_r; reflexivity.
Qed.

Lemma commandBeforeMaxTurns_set_maxTurns (mt : option Z) (settings : OpenInClaudeCodeSettings) :
  commandBeforeMaxTurns (set_maxTurns mt settings) = commandBeforeMaxTurns settings.
Proof. reflexivity. Qed.

Lemma flagsAfterMaxTurns_set_maxTurns (mt : option Z) (settings : OpenInClaudeCodeSettings) :
  flagsAfterMaxTurns (set_maxTurns mt settings) = flagsAfterMaxTurns settings.
Proof. reflexivity. Qed.

Lemma buildClaudeCommand_set_maxTurns (mt : option Z) (settings : OpenInClaudeCodeSettings) :
  buildClaudeCommand (set_maxTurns mt settings)
  = commandBeforeMaxTurns settings +:+ maxTurnsFlag mt +:+ flagsAfterMaxTurns settings.
Proof. rewrite buildClaudeCommand_split. reflexivity. Qed.

Lemma maxTurnsFlag_other (n : Z) :
  n <> 10%Z -> n <> 0%Z ->
  maxTurnsFlag (Some n) = " --max-turns " +:+ JS.NumberToString n.
Proof.
  intros H10 H0. unfold maxTurnsFlag.
  destruct (Z.eqb_spec n 10); [contradiction|].
  destruct (Z.eqb_spec n 0); [contradiction|]. reflexivity.
Qed.

(** *** Printing of integers

    The integers below 2^53 in magnitude are Numbers, and are printed with
    all their digits. *)

Lemma roundToDouble_safe (m : Z) : (0 <= m < 2 ^ 53)%Z -> JS.roundToDouble m = m.
Proof.
  intros [H0 H]. unfold JS.roundToDouble.
  destruct (Z.leb_spec (Z.log2 m - 52) 0) as [_|He]; [reflexivity|].
  exfalso. destruct (Z.eq_dec m 0%Z) as [->|Hm]; [simpl in He; lia|].
  assert (Z.log2 m < 53)%Z by (apply Z.log2_lt_pow2; lia). lia.
Qed.

Lemma roundToDouble_large (m : Z) : (2 ^ 53 <= m)%Z -> (2 ^ 53 <= JS.roundToDouble m)%Z.
Proof.
  intros H. unfold JS.roundToDouble.
  destruct (Z.leb_spec (Z.log2 m - 52) 0) as [He|He]; [exact H|].
  set (e := (Z.log2 m - 52)%Z) in *.
  assert (Hm : (0 < m)%Z) by lia.
  destruct (Z.log2_spec m Hm) as [Hlo _].
  assert (Hpow : (2 ^ Z.log2 m = 2 ^ 52 * 2 ^ e)%Z).
  { rewrite <- Z.pow_add_r by lia. f_equal. lia. }
  assert (Hpe : (0 < 2 ^ e)%Z) by (apply Z.pow_pos_nonneg; lia).
  assert (Hq : (2 ^ 52 <= m / 2 ^ e)%Z).
  { apply Z.div_le_lower_bound; [exact Hpe|]. rewrite Z.mul_comm. lia. }
  assert (Hq' : (2 ^ 52 <= (if (m mod 2 ^ e <? 2 ^ (e - 1))%Z then m / 2 ^ e
              else if (2 ^ (e - 1) <? m mod 2 ^ e)%Z then m / 2 ^ e + 1
              else if Z.even (m / 2 ^ e) then m / 2 ^ e else m / 2 ^ e + 1))%Z).
  { destruct (_ <? _)%Z; [lia|]. destruct (_ <? _)%Z; [lia|]. destruct (Z.even _); lia. }
  cbv zeta.
  assert (H2e : (2 <= 2 ^ e)%Z).
  { change 2%Z with (2 ^ 1)%Z at 1. apply Z.pow_le_mono_r; lia. }
  nia.
Qed.

Lemma shortestFrom_safe (fuel : nat) (k n x : Z) :
  (0 <= x < 2 ^ 53)%Z -> JS.shortestFrom fuel k n x = x.
Proof.
  intros Hx. revert k. induction fuel as [|fuel IH]; intros k; simpl; [reflexivity|].
  destruct (Z.leb_spec (n - k) 0) as [_|He]; [reflexivity|].
  set (p := (10 ^ (n - k))%Z).
  assert (Hp : (0 < p)%Z) by (apply Z.pow_pos_nonneg; lia).
  assert (Hlo : (0 <= x / p * p <= x)%Z).
  { pose proof (Z.mul_div_le x p Hp). pose proof (Z.div_pos x p). nia. }
  assert (Hhi : (x < x / p * p + p)%Z).
  { pose proof (Z.mod_pos_bound x p Hp). pose proof (Z.div_mod x p). nia. }
  rewrite (roundToDouble_safe (x / p * p)) by lia.
  assert (Hno : (JS.roundToDouble (x / p * p + p) =? x)%Z = false).
  { apply Z.eqb_neq. destruct (Z_lt_le_dec (x / p * p + p) (2 ^ 53)) as [Hs|Hl].
    - rewrite roundToDouble_safe by lia. lia.
    - pose proof (roundToDouble_large _ Hl). lia. }
  rewrite Hno. destruct (Z.eqb_spec (x / p * p) x) as [Heq|_]; [exact Heq|apply IH].
Qed.

Lemma NumberToString_safe (n : Z) :
  (Z.abs n < 2 ^ 53)%Z -> JS.NumberToString n = pretty n.
Proof.
  intros Hn.
  assert (Hpos : forall m, (0 < m < 2 ^ 53)%Z -> JS.positiveToString m = pretty m).
  { intros m Hm. unfold JS.positiveToString, JS.shortestDecimal.
    rewrite roundToDouble_safe by lia.
    destruct (Z.leb_spec (2 ^ 1024) m) as [Hbig|_].
    { exfalso. assert (2 ^ 53 < 2 ^ 1024)%Z by (apply Z.pow_lt_mono_r; lia). lia. }
    rewrite shortestFrom_safe by lia.
    destruct (Z.ltb_spec m (10 ^ 21)) as [_|Hbig]; [reflexivity|].
    exfalso. assert (2 ^ 53 < 10 ^ 21)%Z by reflexivity. lia. }
  destruct n as [|p|p]; [reflexivity| |].
  - apply Hpos. lia.
  - unfold JS.NumberToString. rewrite Hpos by lia. reflexivity.
Qed.

Example NumberToString_examples :
  map JS.NumberToString
    [0; 25; -7; 2 ^ 53; 2 ^ 53 + 1; 2 ^ 60; 2 ^ 64; 10 ^ 21 - 1; 10 ^ 21; 2 ^ 70;
     10 ^ 23; - 10 ^ 22; 123456789012345678901234; 2 ^ 1024]%Z
  = ["0"; "25"; "-7"; "9007199254740992"; "9007199254740992"; "1152921504606847000";
     "18446744073709552000"; "1e+21"; "1e+21"; "1.1805916207174113e+21";
     "1e+23"; "-1e+22"; "1.2345678901234569e+23"; "Infinity"].
Proof. vm_compute. reflexivity. Qed.

(** C2, as the code has it.  A turn limit of 10, and likewise a limit of 0
    (falsy, so the guard skips it), adds nothing: the command is the one
    built without the option.  Every other integer [n] that a Number holds
    exactly (below 2^53 in magnitude) adds [ --max-turns n], the number in
    decimal: the command is the text of steps 1 to 6, then this flag, then
    the text of steps 8 and 9. *)
Theorem buildClaudeCommand_maxTurns (settings : OpenInClaudeCodeSettings) (n : Z) :
  maxTurns settings = Some n ->
  (n = 10%Z \/ n = 0%Z ->
     buildClaudeCommand settings = buildClaudeCommand (set_maxTurns None settings))
  /\ (n <> 10%Z -> n <> 0%Z -> (Z.abs n < 2 ^ 53)%Z ->
        buildClaudeCommand settings
        = commandBeforeMaxTurns settings +:+ (" --max-turns " +:+ pretty n)
            +:+ flagsAfterMaxTurns settings
        /\ JS.includes (" --max-turns " +:+ pretty n) (buildClaudeCommand settings) = true
        /\ buildClaudeCommand (set_maxTurns None settings)
           = commandBeforeMaxTurns settings +:+ flagsAfterMaxTurns settings
        /\ buildClaudeCommand (set_maxTurns (Some 10%Z) settings)
           = commandBeforeMaxTurns settings +:+ flagsAfterMaxTurns settings).
Proof.
  intros Hn. split.
  - intros Hdefault. rewrite buildClaudeCommand_set_maxTurns, buildClaudeCommand_split, Hn.
    destruct Hdefault as [-> | ->]; reflexivity.
  - intros H10 H0 Hsafe.
    assert (Hbuild : buildClaudeCommand settings
                     = commandBeforeMaxTurns settings
                         +:+ (" --max-turns " +:+ pretty n)
                         +:+ flagsAfterMaxTurns settings).
    { rewrite buildClaudeCommand_split, Hn, maxTurnsFlag_other by assumption.
      rewrite NumberToString_safe by exact Hsafe. reflexivity. }
    split; [exact Hbuild|]. split.
    + rewrite Hbuild. apply includes_app.
    + rewrite !buildClaudeCommand_set_maxTurns. split; reflexivity.
Qed.

Lemma buildClaudeCommand_maxTurns_witness :
  JS.includes " --max-turns 25"
    (buildClaudeCommand (set_maxTurns (Some 25%Z) DEFAULT_SETTINGS)) = true.
Proof.
  apply (buildClaudeCommand_maxTurns (set_maxTurns (Some 25%Z) DEFAULT_SETTINGS) 25%Z);
    [reflexivity|lia|lia|reflexivity].
Defined.

(** A turn limit of 0 is an integer other than 10, and no flag is added. *)
Lemma maxTurns_zero_adds_no_flag :
  maxTurns (set_maxTurns (Some 0%Z) DEFAULT_SETTINGS) = Some 0%Z
  /\ 0%Z <> 10%Z
  /\ buildClaudeCommand (set_maxTurns (Some 0%Z) DEFAULT_SETTINGS) = "claude"
  /\ JS.includes "--max-turns" (buildClaudeCommand (set_maxTurns (Some 0%Z) DEFAULT_SETTINGS))
     = false.
Proof. split; [reflexivity|]. split; [lia|]. split; reflexivity. Qed.

(** Beyond the integers a Number holds exactly the limit is not printed
    digit for digit: 2^53 + 1 is printed as 2^53, and 10^21 in exponent
    form. *)
Example maxTurns_large_not_verbatim :
  buildClaudeCommand (set_maxTurns (Some (2 ^ 53 + 1)%Z) DEFAULT_SETTINGS)
  = "claude --max-turns 9007199254740992"
  /\ buildClaudeCommand (set_maxTurns (Some (10 ^ 21)%Z) DEFAULT_SETTINGS)
     = "claude --max-turns 1e+21".
Proof. split; vm_compute; reflexivity. Qed.

(** ** Path resolver *)

Example resolve_scenario :
  getWorkingDirectory DEFAULT_SETTINGS
    {| adapterBasePath := Some "C:\Vault";
       activeFile := Some {| parent := Some {| folder_path := "Projects/2024" |} |} |}
  = "C:\Vault\Projects\2024".
Proof. reflexivity. Qed.

Lemma getVaultPath_effectiveRoot (settings : OpenInClaudeCodeSettings) (app : App) :
  getVaultPath settings app
  = effectiveRoot (truthyBool (useCustomVaultPath settings))
      (from_option id EmptyString (customVaultPath settings))
      (from_option id EmptyString (adapterBasePath app)).
Proof.
  unfold getVaultPath, effectiveRoot, truthyString.
  destruct (customVaultPath settings) as [p|]; simpl;
    destruct (adapterBasePath app); reflexivity.
Qed.

(** C4.  The working directory is the effective root (the override path
    when the override is enabled and non-empty, else the detected root)
    when [alwaysOpenVaultRoot] is set, when there is no active file, or
    when the active file has no parent folder (a null parent or an empty
    parent path, which the code does not tell apart).  Otherwise it is the
    effective root, a backslash, and the parent's path with every slash
    turned into a backslash. *)
Theorem getWorkingDirectory_resolves (settings : OpenInClaudeCodeSettings) (app : App) :
  let root := effectiveRoot (truthyBool (useCustomVaultPath settings))
                (from_option id EmptyString (customVaultPath settings))
                (from_option id EmptyString (adapterBasePath app)) in
  (truthyBool (alwaysOpenVaultRoot settings) = true
   \/ activeFile app = None
   \/ (exists file, activeFile app = Some file
                    /\ (parent file = None \/ folderPathOf file = EmptyString)) ->
   getWorkingDirectory settings app = root)
  /\ (forall file folder,
        truthyBool (alwaysOpenVaultRoot settings) = false ->
        activeFile app = Some file ->
        parent file = Some folder ->
        folder_path folder <> EmptyString ->
        exists normalized,
          getWorkingDirectory settings app = root +:+ BS +:+ normalized
          /\ normalized = JS.replaceAllChar "/" BS (folder_path folder)
          /\ JS.count "/" normalized = 0
          /\ String.length normalized = String.length (folder_path folder)
          /\ JS.without JS.backslash (JS.without "/" normalized)
             = JS.without JS.backslash (JS.without "/" (folder_path folder))).
Proof.
  intros root. unfold getWorkingDirectory. rewrite getVaultPath_effectiveRoot.
  fold root. split.
  - intros [Halways | [Hnone | (file & Hfile & Hparent)]].
    + rewrite Halways. reflexivity.
    + rewrite Hnone. destruct (truthyBool (alwaysOpenVaultRoot settings)); reflexivity.
    + rewrite Hfile. destruct (truthyBool (alwaysOpenVaultRoot settings)); [reflexivity|].
      assert (Hempty : folderPathOf file = EmptyString).
      { destruct Hparent as [Hp | Hp]; [|exact Hp].
        unfold folderPathOf. rewrite Hp. reflexivity. }
      rewrite Hempty. reflexivity.
  - intros file folder Halways Hfile Hparent Hpath.
    rewrite Halways, Hfile. unfold folderPathOf. rewrite Hparent.
    destruct (folder_path folder) as [|c p] eqn:E; [contradiction|].
    exists (JS.replaceAllChar "/" BS (String c p)).
    split; [reflexivity|]. split; [reflexivity|].
    split; [apply replaceAllChar_removes; discriminate|].
    split; [apply replaceAllChar_length|].
    generalize (String c p) as s. clear.
    induction s as [|a s IH]; [reflexivity|].
    simpl. destruct (Ascii.eqb a "/") eqn:E.
    + unfold BS, JS.str1. rewrite app_cons, app_nil_l. simpl. exact IH.
    + simpl. rewrite E. simpl. rewrite IH. reflexivity.
Qed.

Lemma getWorkingDirectory_resolves_witness :
  getWorkingDirectory DEFAULT_SETTINGS
    {| adapterBasePath := Some "C:\Vault"; activeFile := None |} = "C:\Vault"
  /\ exists normalized,
       getWorkingDirectory DEFAULT_SETTINGS
         {| adapterBasePath := Some "C:\Vault";
            activeFile := Some {| parent := Some {| folder_path := "References" |} |} |}
       = "C:\Vault" +:+ BS +:+ normalized
       /\ normalized = JS.replaceAllChar "/" BS "References"
       /\ JS.count "/" normalized = 0
       /\ String.length normalized = String.length "References"
       /\ JS.without JS.backslash (JS.without "/" normalized)
          = JS.without JS.backslash (JS.without "/" "References").
Proof.
  split.
  - destruct (getWorkingDirectory_resolves DEFAULT_SETTINGS
                {| adapterBasePath := Some "C:\Vault"; activeFile := None |}) as [Hroot _].
    apply Hroot. right. left. reflexivity.
  - destruct (getWorkingDirectory_resolves DEFAULT_SETTINGS
                {| adapterBasePath := Some "C:\Vault";
                   activeFile := Some {| parent := Some {| folder_path := "References" |} |} |})
      as [_ Hfolder].
    apply (Hfolder {| parent := Some {| folder_path := "References" |} |}
                   {| folder_path := "References" |});
      [reflexivity|reflexivity|reflexivity|discriminate].
Defined.

(** ** Reasoning about the plugin's methods *)

Lemma hoare_bind {A B} (P0 P : State -> Prop) (m : M A) (k : A -> M B) :
  hoare P0 m P -> (forall a, stable P (k a)) -> hoare P0 (bind m k) P.
Proof.
  intros Hm Hk env st H. unfold bind.
  specialize (Hm env st H). destruct (m env st) as [[a|e] st']; simpl in *.
  - apply Hk, Hm.
  - exact Hm.
Qed.

Lemma hoare_tryCatch {A} (P0 P : State -> Prop) (body : M A) (handler : string -> M A) :
  hoare P0 body P -> (forall e, stable P (handler e)) -> hoare P0 (tryCatch body handler) P.
Proof.
  intros Hm Hk env st H. unfold tryCatch.
  specialize (Hm env st H). destruct (body env st) as [[a|e] st']; simpl in *.
  - exact Hm.
  - apply Hk, Hm.
Qed.

Lemma hoare_execAsync (P0 P : State -> Prop) (command : string) (cwd : option string) :
  (forall elapsed st, P0 st -> P (with_exec (command, cwd) elapsed st)) ->
  hoare P0 (execAsync command cwd) P.
Proof.
  intros Hexec env st H. unfold execAsync.
  destruct (exec_result env (execLog st) command cwd); simpl; apply Hexec, H.
Qed.

Create HintDb stable.

Section Stability.

Variable P : State -> Prop.
Hypothesis P_exec : forall call elapsed st, P st -> P (with_exec call elapsed st).
Hypothesis P_notice : forall text st, P st -> P (with_notice text st).
Hypothesis P_saved : forall v st, P st -> P (with_saved v st).
Hypothesis P_timer : forall v st, P st -> P (with_timer v st).
Hypothesis P_cache : forall v st, P st -> P (with_cache v st).
Hypothesis P_settings : forall v st, P st -> P (with_settings v st).

Lemma stable_ret {A} (a : A) : stable P (ret a).
Proof. intros env st H. exact H. Qed.

Lemma stable_throw {A} (message : string) : stable P (@throw A message).
Proof. intros env st H. exact H. Qed.

Lemma stable_get : stable P get.
Proof. intros env st H. exact H. Qed.

Lemma stable_ask : stable P ask.
Proof. intros env st H. exact H. Qed.

Lemma stable_bind {A B} (m : M A) (k : A -> M B) :
  stable P m -> (forall a, stable P (k a)) -> stable P (bind m k).
Proof. apply hoare_bind. Qed.

Lemma stable_tryCatch {A} (body : M A) (handler : string -> M A) :
  stable P body -> (forall e, stable P (handler e)) -> stable P (tryCatch body handler).
Proof. apply hoare_tryCatch. Qed.

Lemma stable_modify (f : State -> State) :
  (forall st, P st -> P (f st)) -> stable P (modify f).
Proof. intros Hf env st H. apply Hf, H. Qed.

Lemma stable_if {A} (b : bool) (m1 m2 : M A) :
  stable P m1 -> stable P m2 -> stable P (if b then m1 else m2).
Proof. destruct b; auto. Qed.

Lemma stable_execAsync (command : string) (cwd : option string) :
  stable P (execAsync command cwd).
Proof. apply hoare_execAsync. intros. apply P_exec. assumption. Qed.

Lemma stable_Notice (text : string) : stable P (Notice text).
Proof. apply stable_modify. intros st. apply P_notice. Qed.

Lemma stable_saveSettings : stable P saveSettings.
Proof.
  unfold saveSettings. apply stable_bind; [apply stable_ask|]. intros env.
  destruct (saveData_error env).
  - apply stable_throw.
  - apply stable_bind; [apply stable_get|]. intros st.
    apply stable_modify. intros st'. apply P_saved.
Qed.

Lemma stable_modifySettings (f : OpenInClaudeCodeSettings -> OpenInClaudeCodeSettings) :
  stable P (modifySettings f).
Proof. apply stable_modify. intros st. apply P_settings. Qed.

Lemma stable_DateNow : stable P DateNow.
Proof. unfold DateNow. apply stable_bind; [apply stable_get|]. intros; apply stable_ret. Qed.

Lemma stable_cacheSet (executable : string) (installed : bool) :
  stable P (cacheSet executable installed).
Proof.
  unfold cacheSet. apply stable_bind; [apply stable_DateNow|]. intros now.
  apply stable_modify. intros st. apply P_cache.
Qed.

Hint Resolve stable_ret stable_throw stable_get stable_ask stable_execAsync
  stable_Notice stable_saveSettings stable_modifySettings stable_DateNow
  stable_cacheSet : stable.

Ltac stable_step :=
  match goal with
  | |- stable _ (bind _ _) => apply stable_bind; [|intros ?]
  | |- stable _ (tryCatch _ _) => apply stable_tryCatch; [|intros ?]
  | |- stable _ (if _ then _ else _) => apply stable_if
  | |- stable _ (match ?x with Some _ => _ | None => _ end) => destruct x
  | |- stable _ (match ?x with OwnProperty _ => _ | Inherited _ => _ | Undefined => _ end) =>
      destruct x
  | |- stable _ (modify _) => apply stable_modify; intros ?; auto
  | |- _ => solve [auto with stable]
  end.

Ltac stable_auto := repeat stable_step.

Lemma stable_firstExistingPath (paths : list string) : stable P (firstExistingPath paths).
Proof. induction paths as [|path rest IH]; simpl; stable_auto. Qed.

Lemma stable_detectClaudePath : stable P detectClaudePath.
Proof. unfold detectClaudePath. stable_auto. apply stable_firstExistingPath. Qed.

Lemma stable_verifyClaudePath (path : string) : stable P (verifyClaudePath path).
Proof. unfold verifyClaudePath. stable_auto. Qed.

Lemma stable_probeCommonPaths (executable : string) (paths : list string) :
  stable P (probeCommonPaths executable paths).
Proof. induction paths as [|path rest IH]; simpl; stable_auto. Qed.

Lemma stable_probeTerminalApp (executable : string) :
  stable P (probeTerminalApp executable).
Proof. unfold probeTerminalApp. stable_auto. apply stable_probeCommonPaths. Qed.

Lemma stable_checkTerminalAppInstalled (executable : string) :
  stable P (checkTerminalAppInstalled executable).
Proof.
  unfold checkTerminalAppInstalled. stable_auto.
  - destruct p as [installed timestamp]. stable_auto. apply stable_probeTerminalApp.
  - apply stable_probeTerminalApp.
Qed.

Lemma stable_collectInstalled (entries : list (string * TerminalConfig))
    (availableApps : list (string * string)) :
  stable P (collectInstalled entries availableApps).
Proof.
  revert availableApps.
  induction entries as [|[key config] rest IH]; intros availableApps; simpl; stable_auto.
  apply stable_checkTerminalAppInstalled.
Qed.

Lemma stable_checkEach (entries : list (string * TerminalConfig)) :
  stable P (checkEach entries).
Proof.
  induction entries as [|[key config] rest IH]; simpl; stable_auto.
  apply stable_checkTerminalAppInstalled.
Qed.

Lemma stable_checkAndDisplayClaudeStatus : stable P checkAndDisplayClaudeStatus.
Proof.
  unfold checkAndDisplayClaudeStatus. stable_auto.
  - apply stable_detectClaudePath.
  - apply stable_verifyClaudePath.
  - apply stable_checkEach.
Qed.

Lemma stable_scheduleAutomation (delay : Z) (claudeCommand : string) :
  stable P (scheduleAutomation delay claudeCommand).
Proof. unfold scheduleAutomation. stable_auto. Qed.

Lemma stable_handleCodeEditor (terminalConfig : Property TerminalConfig)
    (cwd claudeCommand : string) :
  stable P (handleCodeEditor terminalConfig cwd claudeCommand).
Proof. unfold handleCodeEditor. stable_auto. apply stable_scheduleAutomation. Qed.

Lemma stable_openInTerminal (cwd : string) : stable P (openInTerminal cwd).
Proof.
  unfold openInTerminal. stable_auto.
  all: try apply stable_handleCodeEditor.
Qed.

Lemma stable_executeCustomCommand (cwd : string) : stable P (executeCustomCommand cwd).
Proof. unfold executeCustomCommand. stable_auto. Qed.

(** The launch keeps the property as soon as the installation check does. *)
Lemma stable_openClaudeCode :
  stable P checkClaudeCodeInstallation -> stable P openClaudeCode.
Proof.
  intros Hcheck. unfold openClaudeCode. stable_auto.
  all: first [ exact Hcheck
             | apply stable_executeCustomCommand
             | apply stable_openInTerminal ].
Qed.

End Stability.

(** ** The installation check of the assistant *)

Lemma checkClaude_cached (env : Env) (st : State) (b : bool) :
  this_claudeInstalled st = Some b ->
  checkClaudeCodeInstallation env st = (Ok b, st).
Proof.
  intros H. unfold checkClaudeCodeInstallation, bind, get. rewrite H. reflexivity.
Qed.

(** The check never throws, and it leaves its answer in the field. *)
Lemma checkClaude_completes (env : Env) (st : State) :
  exists b, fst (checkClaudeCodeInstallation env st) = Ok b
            /\ this_claudeInstalled (snd (checkClaudeCodeInstallation env st)) = Some b.
Proof.
  destruct (this_claudeInstalled st) as [b|] eqn:Hc.
  { exists b. rewrite (checkClaude_cached env st b Hc). split; [reflexivity|exact Hc]. }
  unfold checkClaudeCodeInstallation, bind, get. rewrite Hc.
  unfold tryCatch. destruct (useCustomClaudePath (this_settings st)).
  - unfold bind. destruct (verifyClaudePath _ env st) as [[v|e] st1]; simpl.
    + exists v. split; reflexivity.
    + exists false. split; reflexivity.
  - unfold bind. destruct (detectClaudePath env st) as [[d|e] st1]; simpl.
    + destruct (from_option JS.truthy false d); simpl.
      * unfold saveSettings, bind, ask, get, modify, throw.
        destruct (saveData_error env); simpl; eexists; split; reflexivity.
      * exists false. split; reflexivity.
    + exists false. split; reflexivity.
Qed.

Lemma installedIs_check (b : bool) : stable (installedIs b) checkClaudeCodeInstallation.
Proof.
  intros env st H. rewrite (checkClaude_cached env st b H). exact H.
Qed.

Lemma logExtends_frame (log : list ExecCall) :
  (forall call elapsed st, logExtends log st -> logExtends log (with_exec call elapsed st))
  /\ (forall text st, logExtends log st -> logExtends log (with_notice text st))
  /\ (forall v st, logExtends log st -> logExtends log (with_saved v st))
  /\ (forall v st, logExtends log st -> logExtends log (with_timer v st))
  /\ (forall v st, logExtends log st -> logExtends log (with_cache v st))
  /\ (forall v st, logExtends log st -> logExtends log (with_settings v st)).
Proof.
  repeat split; intros; try assumption.
  destruct H as [rest H]. exists (rest ++ [call]). simpl. rewrite H.
  rewrite <- List.app_assoc. reflexivity.
Qed.

(** After a process start with the override enabled, the check runs
    [Test-Path] on the configured path and answers what it prints. *)
Lemma checkClaude_fresh_custom (env : Env) (st : State) :
  this_claudeInstalled st = None ->
  useCustomClaudePath (this_settings st) = true ->
  claudeCodePath (this_settings st) <> EmptyString ->
  let probe := testPathCommand (claudeCodePath (this_settings st)) in
  let answer := match exec_result env (execLog st) probe None with
                | inr stdout => String.eqb (JS.trim stdout) "True"
                | inl _ => false
                end in
  checkClaudeCodeInstallation env st
  = (Ok answer,
     with_claudeInstalled (Some answer)
       (with_exec (probe, None) (exec_duration env (execLog st) probe) st)).
Proof.
  intros Hnone Hcustom Hpath probe answer.
  unfold checkClaudeCodeInstallation, bind, get. rewrite Hnone, Hcustom.
  unfold tryCatch, bind, verifyClaudePath.
  destruct (claudeCodePath (this_settings st)) as [|c p] eqn:E; [contradiction|].
  change (negb (JS.truthy (String c p))) with false. cbv iota.
  unfold tryCatch, bind, execAsync, ret, modify. subst answer probe.
  destruct (exec_result env (execLog st) (testPathCommand (String c p)) None); reflexivity.
Qed.

(** After a process start without the override, the check first asks the
    shell where the executable is. *)
Lemma checkClaude_fresh_detect (env : Env) (st : State) :
  this_claudeInstalled st = None ->
  useCustomClaudePath (this_settings st) = false ->
  logExtends (execLog st ++ [("where claude", None)])
    (snd (checkClaudeCodeInstallation env st)).
Proof.
  intros Hnone Hcustom.
  set (P := logExtends (execLog st ++ [("where claude", None)])).
  destruct (logExtends_frame (execLog st ++ [("where claude", None)]))
    as (F1 & F2 & F3 & F4 & F5 & F6). fold P in F1, F2, F3, F4, F5, F6.
  assert (Hdetect : hoare (eq st) detectClaudePath P).
  { unfold detectClaudePath.
    apply hoare_tryCatch; [|intros; apply stable_ret].
    apply hoare_bind.
    - apply hoare_tryCatch; [|intros; apply stable_ret].
      apply hoare_bind; [|intros; apply stable_ret].
      apply hoare_execAsync. intros elapsed st' <-.
      exists []. simpl. rewrite List.app_nil_r. reflexivity.
    - intros [path|]; [apply stable_ret|].
      apply stable_bind; [apply stable_ask|]. intros env'.
      apply stable_firstExistingPath; assumption. }
  specialize (Hdetect env st eq_refl).
  unfold checkClaudeCodeInstallation, bind, get. rewrite Hnone, Hcustom.
  unfold tryCatch, bind.
  destruct (detectClaudePath env st) as [[d|e] st1]; simpl in *.
  - destruct (from_option JS.truthy false d); simpl; [|exact Hdetect].
    unfold saveSettings, bind, ask, get, modify, throw.
    destruct (saveData_error env); simpl; exact Hdetect.
  - exact Hdetect.
Qed.

(** ** Tasks: one thread followed alone *)

Lemma run_tbind {A B} (t : Task A) (g : A -> Task B) (env : Env) (st : State) :
  run (tbind t g) env st
  = match run t env st with
    | (Ok a, st') => run (g a) env st'
    | (Thrown e, st') => (Thrown e, st')
    end.
Proof.
  revert B g env st.
  induction t as [A a|A e|A u n IH|A c w k IH|A k IH|A k IH|A child _ k IH];
    intros B g env st; simpl; auto.
  destruct (saveData_error env); auto.
Qed.

Lemma run_tcatch {A} (t : Task A) (h : string -> Task A) (env : Env) (st : State) :
  run (tcatch t h) env st
  = match run t env st with
    | (Ok a, st') => (Ok a, st')
    | (Thrown e, st') => run (h e) env st'
    end.
Proof.
  revert h env st.
  induction t as [A a|A e|A u n IH|A c w k IH|A k IH|A k IH|A child _ k IH];
    intros h env st; simpl; auto.
  destruct (saveData_error env); auto.
Qed.

Lemma run_settle {A} (t : Task A) (env : Env) (st : State) :
  run (settle t) env st = run t env st.
Proof.
  revert env st.
  induction t as [A a|A e|A u n IH|A c w k IH|A k IH|A k IH|A child _ k IH];
    intros env st; simpl; auto.
  destruct (saveData_error env); auto.
Qed.

Lemma agrees_bind {A B} (t : Task A) (g : A -> Task B) (m : M A) (k : A -> M B) :
  agrees t m -> (forall a, agrees (g a) (k a)) -> agrees (tbind t g) (bind m k).
Proof.
  intros Ht Hg env st. rewrite run_tbind, Ht. unfold bind.
  destruct (m env st) as [[a|e] st']; [apply Hg|reflexivity].
Qed.

Lemma agrees_tryCatch {A} (t : Task A) (h : string -> Task A) (m : M A) (k : string -> M A) :
  agrees t m -> (forall e, agrees (h e) (k e)) -> agrees (tcatch t h) (tryCatch m k).
Proof.
  intros Ht Hh env st. rewrite run_tcatch, Ht. unfold tryCatch.
  destruct (m env st) as [[a|e] st']; [reflexivity|apply Hh].
Qed.

Lemma agrees_settle {A} (t : Task A) (m : M A) : agrees t m -> agrees (settle t) m.
Proof. intros Ht env st. rewrite run_settle. apply Ht. Qed.

Lemma agrees_sync {A} (m : M A) : agrees (sync m) m.
Proof. intros env st. simpl. destruct (m env st) as [[a|e] st']; reflexivity. Qed.

Lemma agrees_ret {A} (a : A) : agrees (Finish a) (ret a).
Proof. intros env st. reflexivity. Qed.

Lemma agrees_throw {A} (message : string) : agrees (@Fail A message) (throw message).
Proof. intros env st. reflexivity. Qed.

Lemma agrees_execAsync (command : string) (cwd : option string) :
  agrees (Async.execAsync command cwd) (execAsync command cwd).
Proof.
  intros env st. unfold execAsync. simpl.
  destruct (exec_result env (execLog st) command cwd); reflexivity.
Qed.

Lemma agrees_saveSettings : agrees Async.saveSettings saveSettings.
Proof.
  intros env st. unfold saveSettings, bind, ask, get, modify, throw. simpl.
  destruct (saveData_error env); reflexivity.
Qed.

(** [await method(...); return] and [return method(...)] end alike. *)
Lemma agrees_tail (t : Task unit) (m : M unit) :
  agrees t m -> agrees (tbind t (fun _ => Finish tt)) m.
Proof.
  intros Ht env st. rewrite run_tbind, Ht.
  destruct (m env st) as [[[]|e] st']; reflexivity.
Qed.

Create HintDb agrees.
#[local] Hint Resolve agrees_sync agrees_ret agrees_throw agrees_execAsync
  agrees_saveSettings : agrees.

Ltac agree_step :=
  match goal with
  | |- agrees (tbind (settle _) _) (bind _ _) =>
      apply agrees_bind; [apply agrees_settle|intros ?]
  | |- agrees (tbind _ _) (bind _ _) => apply agrees_bind; [|intros ?]
  | |- agrees (tcatch _ _) (tryCatch _ _) => apply agrees_tryCatch; [|intros ?]
  | |- agrees (if ?b then _ else _) (if ?b then _ else _) => destruct b
  | |- agrees (match ?x with Some _ => _ | None => _ end)
              (match ?x with Some _ => _ | None => _ end) => destruct x
  | |- agrees (match ?x with
               | OwnProperty _ => _ | Inherited _ => _ | Undefined => _ end) _ => destruct x
  | |- _ => solve [auto with agrees]
  end.

Ltac agree_auto := repeat agree_step.

Lemma agrees_firstExistingPath (paths : list string) :
  agrees (Async.firstExistingPath paths) (firstExistingPath paths).
Proof.
  induction paths as [|path rest IH];
    cbn [Async.firstExistingPath firstExistingPath]; agree_auto.
Qed.

Lemma agrees_detectClaudePath : agrees Async.detectClaudePath detectClaudePath.
Proof.
  unfold Async.detectClaudePath, detectClaudePath. agree_auto.
  apply agrees_firstExistingPath.
Qed.

Lemma agrees_verifyClaudePath (path : string) :
  agrees (Async.verifyClaudePath path) (verifyClaudePath path).
Proof. unfold Async.verifyClaudePath, verifyClaudePath. agree_auto. Qed.

Lemma agrees_checkClaudeCodeInstallation :
  agrees Async.checkClaudeCodeInstallation checkClaudeCodeInstallation.
Proof.
  unfold Async.checkClaudeCodeInstallation, checkClaudeCodeInstallation. agree_auto.
  - apply agrees_verifyClaudePath.
  - apply agrees_detectClaudePath.
Qed.

Lemma agrees_probeCommonPaths (executable : string) (paths : list string) :
  agrees (Async.probeCommonPaths executable paths) (probeCommonPaths executable paths).
Proof.
  induction paths as [|path rest IH];
    cbn [Async.probeCommonPaths probeCommonPaths]; agree_auto.
Qed.

Lemma agrees_probeTerminalApp (executable : string) :
  agrees (Async.probeTerminalApp executable) (probeTerminalApp executable).
Proof.
  unfold Async.probeTerminalApp, probeTerminalApp. agree_auto.
  apply agrees_probeCommonPaths.
Qed.

Lemma agrees_checkTerminalAppInstalled (executable : string) :
  agrees (Async.checkTerminalAppInstalled executable) (checkTerminalAppInstalled executable).
Proof.
  unfold Async.checkTerminalAppInstalled, checkTerminalAppInstalled. agree_auto.
  - destruct p as [installed timestamp]. agree_auto. apply agrees_probeTerminalApp.
  - apply agrees_probeTerminalApp.
Qed.

Lemma agrees_handleCodeEditor (terminalConfig : Property TerminalConfig)
    (cwd claudeCommand : string) :
  agrees (Async.handleCodeEditor terminalConfig cwd claudeCommand)
    (handleCodeEditor terminalConfig cwd claudeCommand).
Proof. unfold Async.handleCodeEditor, handleCodeEditor. agree_auto. Qed.

Lemma agrees_openInTerminal (cwd : string) :
  agrees (Async.openInTerminal cwd) (openInTerminal cwd).
Proof.
  unfold Async.openInTerminal, openInTerminal. agree_auto.
  all: try (apply agrees_tail, agrees_settle, agrees_handleCodeEditor).
Qed.

Lemma agrees_executeCustomCommand (cwd : string) :
  agrees (Async.executeCustomCommand cwd) (executeCustomCommand cwd).
Proof. unfold Async.executeCustomCommand, executeCustomCommand. agree_auto. Qed.

Ltac open_bind :=
  match goal with
  | |- _ = bind ?m ?k ?env ?st =>
      change (bind m k env st)
        with (match m env st with
              | (Ok a, st') => k a env st'
              | (Thrown e, st') => (Thrown e, st')
              end)
  end.

(** The launch looks up the active file after the check; followed alone,
    it meets the environment of its start. *)
Lemma agrees_openClaudeCode : agrees Async.openClaudeCode openClaudeCode.
Proof.
  intros env st. unfold Async.openClaudeCode, openClaudeCode.
  rewrite run_tbind, (agrees_sync ask). open_bind.
  change (ask env st) with (Ok env, st). cbv beta iota.
  destruct (negb (isDesktopApp env) || negb (isWin env)); [apply agrees_sync|].
  rewrite run_tbind, run_settle, agrees_checkClaudeCodeInstallation. open_bind.
  destruct (checkClaudeCodeInstallation env st) as [[claudeInstalled|e] st1]; [|reflexivity].
  destruct (negb claudeInstalled); [apply agrees_sync|].
  rewrite run_tbind, (agrees_sync get). open_bind.
  change (get env st1) with (Ok st1, st1). cbv beta iota.
  rewrite run_tbind, (agrees_sync ask).
  change (ask env st1) with (Ok env, st1). cbv beta iota.
  match goal with
  | |- run ?t env st1 = ?m env st1 => assert (Hrest : agrees t m)
  end.
  { agree_auto.
    - apply agrees_executeCustomCommand.
    - apply agrees_openInTerminal. }
  apply Hrest.
Qed.

Lemma agrees_collectInstalled (entries : list (string * TerminalConfig))
    (availableApps : list (string * string)) :
  agrees (Async.collectInstalled entries availableApps)
    (collectInstalled entries availableApps).
Proof.
  revert availableApps.
  induction entries as [|[key config] rest IH]; intros availableApps;
    cbn [Async.collectInstalled collectInstalled]; agree_auto.
  apply agrees_checkTerminalAppInstalled.
Qed.

Lemma agrees_checkEach (entries : list (string * TerminalConfig)) :
  agrees (Async.checkEach entries) (checkEach entries).
Proof.
  induction entries as [|[key config] rest IH];
    cbn [Async.checkEach checkEach]; agree_auto.
  apply agrees_checkTerminalAppInstalled.
Qed.

Lemma agrees_onChange_terminalDelay (value : string) :
  agrees (Async.onChange_terminalDelay value) (onChange_terminalDelay value).
Proof.
  unfold Async.onChange_terminalDelay, onChange_terminalDelay. agree_auto.
Qed.

Lemma agrees_checkInstalledTerminalApps :
  agrees Async.checkInstalledTerminalApps checkInstalledTerminalApps.
Proof. apply agrees_collectInstalled. Qed.

(** The status section reads the debug setting after its waits; followed
    alone, it finds the setting as it was at the start. *)
Lemma agrees_checkAndDisplayClaudeStatus :
  agrees Async.checkAndDisplayClaudeStatus checkAndDisplayClaudeStatus.
Proof.
  intros env st. unfold Async.checkAndDisplayClaudeStatus, checkAndDisplayClaudeStatus.
  set (P := fun st' : State => this_settings st' = this_settings st).
  assert (Hexec : forall call elapsed st', P st' -> P (with_exec call elapsed st'))
    by (intros; assumption).
  rewrite run_tbind, (agrees_sync get). open_bind.
  change (get env st) with (Ok st, st). cbv beta iota.
  match goal with
  | |- run (tbind ?block _) _ _ = bind ?m _ _ _ =>
      assert (Hblock : agrees block m)
        by (agree_auto; apply agrees_detectClaudePath);
      assert (Hkeep : stable P m)
  end.
  { destruct (useCustomClaudePath (this_settings st)); [apply stable_ret|].
    apply stable_bind; [apply stable_detectClaudePath; exact Hexec|].
    intros detected. apply stable_ret. }
  rewrite run_tbind, Hblock. open_bind.
  specialize (Hkeep env st eq_refl). revert Hkeep.
  match type of Hblock with
  | agrees _ ?m => destruct (m env st) as [[currentPath|e] st1]
  end; intros Hkeep; [|reflexivity].
  cbn [snd] in Hkeep.
  rewrite run_tbind, run_settle, (agrees_verifyClaudePath currentPath). open_bind.
  pose proof (stable_verifyClaudePath P Hexec currentPath env st1 Hkeep) as Hkeep2.
  destruct (verifyClaudePath currentPath env st1) as [[verified|e] st2]; [|reflexivity].
  cbn [snd] in Hkeep2.
  rewrite run_tbind, (agrees_sync get).
  change (get env st2) with (Ok st2, st2). cbv beta iota. rewrite Hkeep2.
  destruct (truthyBool (showDebugInfo (this_settings st))); [|reflexivity].
  assert (Hrest : agrees (do! _ <- sync (modify (with_cache ∅)); Async.checkEach TERMINAL_APPS)
                    (do _ <- modify (with_cache ∅); checkEach TERMINAL_APPS)).
  { apply agrees_bind; [apply agrees_sync|]. intros _. apply agrees_checkEach. }
  apply Hrest.
Qed.

(** ** Tasks: what a thread in flight can still do to the cached answer *)

Lemma keeps_tbind (b : bool) {A B} (t : Task A) (g : A -> Task B) :
  keeps b t -> (forall a, keeps b (g a)) -> keeps b (tbind t g).
Proof.
  revert B g.
  induction t as [A a|A e|A u n IH|A c w k IH|A k IH|A k IH|A child _ k IH];
    intros B g Ht Hg; simpl in *; auto.
  - intros env st H. destruct (Ht env st H). split; auto.
  - destruct Ht. split; auto.
Qed.

Lemma keeps_tcatch (b : bool) {A} (t : Task A) (h : string -> Task A) :
  keeps b t -> (forall e, keeps b (h e)) -> keeps b (tcatch t h).
Proof.
  revert h.
  induction t as [A a|A e|A u n IH|A c w k IH|A k IH|A k IH|A child _ k IH];
    intros h Ht Hh; simpl in *; auto.
  - intros env st H. destruct (Ht env st H). split; auto.
  - destruct Ht. split; auto.
Qed.

Lemma keeps_settle (b : bool) {A} (t : Task A) : keeps b t -> keeps b (settle t).
Proof.
  induction t as [A a|A e|A u n IH|A c w k IH|A k IH|A k IH|A child _ k IH];
    intros Ht; simpl in *; auto.
  - intros env st H. destruct (Ht env st H). split; auto.
  - destruct Ht. split; auto.
Qed.

Lemma keeps_sync (b : bool) {A} (m : M A) : stable (installedIs b) m -> keeps b (sync m).
Proof.
  intros Hm env st H. split; [apply Hm, H|].
  destruct (fst (m env st)); exact I.
Qed.

Lemma keeps_execAsync (b : bool) (command : string) (cwd : option string) :
  keeps b (Async.execAsync command cwd).
Proof. intros [message|stdout]; exact I. Qed.

Lemma keeps_saveSettings (b : bool) : keeps b Async.saveSettings.
Proof. intros [message|]; exact I. Qed.

Lemma keeps_silent (b : bool) {A} (t : Task A) : keeps b t -> keeps b (silent t).
Proof. intros Ht. apply keeps_tbind; [exact Ht|]. intros a. exact I. Qed.

Ltac installed_frame := intros; assumption.

Ltac keeps_sync_block :=
  apply keeps_sync;
  first [ apply stable_get | apply stable_ask | apply stable_ret
        | apply stable_Notice | apply stable_DateNow | apply stable_cacheSet
        | apply stable_modifySettings | apply stable_scheduleAutomation
        | apply stable_modify ];
  installed_frame.

Ltac keeps_step :=
  match goal with
  | |- keeps _ (tbind _ _) => apply keeps_tbind; [|intros ?]
  | |- keeps _ (tcatch _ _) => apply keeps_tcatch; [|intros ?]
  | |- keeps _ (settle _) => apply keeps_settle
  | |- keeps _ (silent _) => apply keeps_silent
  | |- keeps _ (sync _) => keeps_sync_block
  | |- keeps _ (Finish _) => exact I
  | |- keeps _ (Fail _) => exact I
  | |- keeps _ (Fork _ _) => split
  | |- keeps _ (Async.execAsync _ _) => apply keeps_execAsync
  | |- keeps _ Async.saveSettings => apply keeps_saveSettings
  | |- keeps _ (if ?b then _ else _) => destruct b
  | |- keeps _ (match ?x with Some _ => _ | None => _ end) => destruct x
  | |- keeps _ (match ?x with
                | OwnProperty _ => _ | Inherited _ => _ | Undefined => _ end) => destruct x
  | |- keeps _ (match ?x with
                | Async.Nothing => _ | Async.Redraw => _ | Async.Notify _ => _ end) =>
      destruct x
  | |- keeps _ _ => assumption
  end.

Ltac keeps_auto := repeat keeps_step.

Section Keeps.

Variable b : bool.

Lemma keeps_firstExistingPath (paths : list string) : keeps b (Async.firstExistingPath paths).
Proof.
  induction paths as [|path rest IH]; cbn [Async.firstExistingPath]; keeps_auto.
Qed.

Lemma keeps_detectClaudePath : keeps b Async.detectClaudePath.
Proof. unfold Async.detectClaudePath. keeps_auto. apply keeps_firstExistingPath. Qed.

Lemma keeps_verifyClaudePath (path : string) : keeps b (Async.verifyClaudePath path).
Proof. unfold Async.verifyClaudePath. keeps_auto. Qed.

(** A check that finds the cached answer returns it and touches nothing. *)
Lemma keeps_checkClaudeCodeInstallation : keeps b Async.checkClaudeCodeInstallation.
Proof.
  unfold Async.checkClaudeCodeInstallation. cbn [tbind sync].
  intros env st H. split; [exact H|]. cbn [get fst tbind]. rewrite H. exact I.
Qed.

Lemma keeps_probeCommonPaths (executable : string) (paths : list string) :
  keeps b (Async.probeCommonPaths executable paths).
Proof.
  induction paths as [|path rest IH]; cbn [Async.probeCommonPaths]; keeps_auto.
Qed.

Lemma keeps_probeTerminalApp (executable : string) :
  keeps b (Async.probeTerminalApp executable).
Proof. unfold Async.probeTerminalApp. keeps_auto. all: apply keeps_probeCommonPaths. Qed.

Lemma keeps_checkTerminalAppInstalled (executable : string) :
  keeps b (Async.checkTerminalAppInstalled executable).
Proof.
  unfold Async.checkTerminalAppInstalled. keeps_auto.
  - destruct p as [installed timestamp]. keeps_auto. apply keeps_probeTerminalApp.
  - apply keeps_probeTerminalApp.
Qed.

Lemma keeps_handleCodeEditor (terminalConfig : Property TerminalConfig)
    (cwd claudeCommand : string) :
  keeps b (Async.handleCodeEditor terminalConfig cwd claudeCommand).
Proof. unfold Async.handleCodeEditor. keeps_auto. Qed.

Lemma keeps_openInTerminal (cwd : string) : keeps b (Async.openInTerminal cwd).
Proof.
  unfold Async.openInTerminal. keeps_auto.
  all: try apply keeps_handleCodeEditor.
Qed.

Lemma keeps_executeCustomCommand (cwd : string) : keeps b (Async.executeCustomCommand cwd).
Proof. unfold Async.executeCustomCommand. keeps_auto. Qed.

Lemma keeps_openClaudeCode : keeps b Async.openClaudeCode.
Proof.
  unfold Async.openClaudeCode. keeps_auto.
  - apply keeps_checkClaudeCodeInstallation.
  - apply keeps_executeCustomCommand.
  - apply keeps_openInTerminal.
Qed.

Lemma keeps_automationCallback (pa : PendingAutomation) :
  keeps b (Async.automationCallback pa).
Proof.
  unfold Async.automationCallback, Async.runPowerShellScript. keeps_auto.
  cbn [settle]. intros [message|stdout]; exact I.
Qed.

Lemma keeps_onload : keeps b Async.onload.
Proof. unfold Async.onload. keeps_auto. apply keeps_checkClaudeCodeInstallation. Qed.

Lemma keeps_collectInstalled (entries : list (string * TerminalConfig))
    (availableApps : list (string * string)) :
  keeps b (Async.collectInstalled entries availableApps).
Proof.
  revert availableApps.
  induction entries as [|[key config] rest IH]; intros availableApps;
    cbn [Async.collectInstalled]; keeps_auto.
  all: first [ apply keeps_checkTerminalAppInstalled | apply IH ].
Qed.

Lemma keeps_checkEach (entries : list (string * TerminalConfig)) :
  keeps b (Async.checkEach entries).
Proof.
  induction entries as [|[key config] rest IH]; cbn [Async.checkEach]; keeps_auto.
  apply keeps_checkTerminalAppInstalled.
Qed.

Lemma keeps_checkAndDisplayClaudeStatus : keeps b Async.checkAndDisplayClaudeStatus.
Proof.
  unfold Async.checkAndDisplayClaudeStatus. keeps_auto.
  - apply keeps_detectClaudePath.
  - apply keeps_verifyClaudePath.
  - apply keeps_checkEach.
Qed.

Lemma keeps_onAvailableApps (availableApps : list (string * string)) :
  keeps b (Async.onAvailableApps availableApps).
Proof. unfold Async.onAvailableApps. keeps_auto. Qed.

Lemma keeps_display : keeps b Async.display.
Proof.
  unfold Async.display. keeps_auto.
  - apply keeps_checkAndDisplayClaudeStatus.
  - apply keeps_collectInstalled.
  - apply keeps_onAvailableApps.
Qed.

Lemma keeps_onChange_useCustomClaudePath (value : bool) :
  keeps b (Async.onChange_useCustomClaudePath value).
Proof.
  unfold Async.onChange_useCustomClaudePath. keeps_auto.
  all: first [ apply keeps_detectClaudePath | apply keeps_display ].
Qed.

Lemma keeps_onChange_claudeCodePath (value : string) :
  keeps b (Async.onChange_claudeCodePath value).
Proof. unfold Async.onChange_claudeCodePath. keeps_auto. Qed.

Lemma keeps_onClick_testClaudePath : keeps b Async.onClick_testClaudePath.
Proof. unfold Async.onClick_testClaudePath. keeps_auto. apply keeps_verifyClaudePath. Qed.

Lemma keeps_onClick_testVaultPath : keeps b Async.onClick_testVaultPath.
Proof. unfold Async.onClick_testVaultPath. keeps_auto. Qed.

Lemma keeps_onChange_terminalDelay (value : string) :
  keeps b (Async.onChange_terminalDelay value).
Proof. unfold Async.onChange_terminalDelay. keeps_auto. Qed.

Lemma keeps_onChange_permissionMode (value : PermissionMode) :
  keeps b (Async.onChange_permissionMode value).
Proof. unfold Async.onChange_permissionMode. keeps_auto. apply keeps_display. Qed.

Lemma keeps_onChange_other (assign : OpenInClaudeCodeSettings -> OpenInClaudeCodeSettings)
    (after : Async.Afterwards) :
  keeps b (Async.onChange_other assign after).
Proof. unfold Async.onChange_other. keeps_auto. apply keeps_display. Qed.

(** Every action of the plugin leaves a cached answer alone. *)
Lemma keeps_taskOf (a : Action) : keeps b (taskOf a).
Proof.
  destruct a; cbn [taskOf]; try apply keeps_silent.
  - apply keeps_onload.
  - apply keeps_tbind; [apply keeps_checkClaudeCodeInstallation|intros; exact I].
  - apply keeps_checkTerminalAppInstalled.
  - apply keeps_openClaudeCode.
  - apply keeps_display.
  - apply keeps_onChange_useCustomClaudePath.
  - apply keeps_onChange_claudeCodePath.
  - apply keeps_onClick_testClaudePath.
  - apply keeps_onClick_testVaultPath.
  - apply keeps_onChange_terminalDelay.
  - apply keeps_onChange_permissionMode.
  - apply keeps_onChange_other.
Qed.

Lemma advance_keeps {A} (t : Task A) (env : Env) (st : State) :
  keeps b t -> this_claudeInstalled st = Some b ->
  this_claudeInstalled (advance t env st).1.1 = Some b
  /\ Forall (keepsWaiting b) (advance t env st).1.2
  /\ match (advance t env st).2 with
     | Done _ => True
     | Blocked w => keepsWaiting b w
     end.
Proof.
  revert st.
  induction t as [A a|A e|A u n IH|A c w k IH|A k IH|A k IH|A child IHchild k IH];
    intros st Ht Hst; cbn [advance fst snd].
  - split; [exact Hst|split; [constructor|exact I]].
  - split; [exact Hst|split; [constructor|exact I]].
  - destruct (Ht env st Hst) as [Hu Hn]. apply IH; assumption.
  - split; [exact Hst|split; [constructor|exact Ht]].
  - split; [exact Hst|split; [constructor|exact Ht]].
  - split; [exact Hst|split; [constructor|exact Ht]].
  - destruct Ht as [Hchild Hk].
    specialize (IHchild st Hchild Hst).
    destruct (advance child env st) as [[st' forked] p] eqn:Echild. cbn [fst snd] in IHchild.
    destruct IHchild as (Hst' & Hforked & Hp).
    specialize (IH st' Hk Hst').
    destruct (advance k env st') as [[st'' more] q] eqn:Ek. cbn [fst snd] in IH.
    destruct IH as (Hst'' & Hmore & Hq).
    destruct p as [o|w]; cbn [fst snd]; (split; [exact Hst''|split; [|exact Hq]]).
    + apply Forall_app. split; assumption.
    + apply Forall_app. split; [assumption|]. constructor; assumption.
Qed.

Lemma resume_keeps {A} (w : Waiting A) (env : Env) (st : State) :
  keepsWaiting b w -> this_claudeInstalled st = Some b ->
  this_claudeInstalled (resume w env st).1 = Some b /\ keeps b (resume w env st).2.
Proof.
  intros Hw Hst. destruct w as [log c cwd k|data k|k]; cbn [resume keepsWaiting] in *.
  - split; [exact Hst|apply Hw].
  - destruct (saveData_error env); (split; [exact Hst|apply Hw]).
  - split; [exact Hst|exact Hw].
Qed.

Lemma adopt_keeps (w : Waiting unit) : keepsWaiting b w -> keepsWaiting b (adopt w).
Proof.
  destruct w as [log c cwd k|data k|k]; cbn [adopt keepsWaiting]; intros Hw.
  - intros r. apply keeps_silent, Hw.
  - intros r. apply keeps_silent, Hw.
  - apply keeps_silent, Hw.
Qed.

Lemma park_settled (t : Task Answer) (env : Env) (st : State)
    (others : list (Waiting Answer)) (answers : list (Outcome Answer)) (fired : list nat) :
  keeps b t -> this_claudeInstalled st = Some b -> Forall (keepsWaiting b) others ->
  this_claudeInstalled (cfg_state (park (advance t env st) others answers fired)) = Some b
  /\ settled b (park (advance t env st) others answers fired).
Proof.
  intros Ht Hst Hothers.
  destruct (advance_keeps t env st Ht Hst) as (Hst' & Hforked & Hp).
  destruct (advance t env st) as [[st' forked] p]. cbn [fst snd] in *.
  assert (Hadopted : Forall (keepsWaiting b) (map adopt forked)).
  { apply Forall_map. eapply Forall_impl; [exact Hforked|]. intros w. apply adopt_keeps. }
  unfold settled. destruct p as [o|w]; cbn [park cfg_state cfg_waiting].
  - split; [exact Hst'|]. apply Forall_app. split; assumption.
  - split; [exact Hst'|]. apply Forall_app. split; [assumption|].
    apply Forall_app. split; [assumption|]. constructor; [exact Hp|constructor].
Qed.

(** No event undoes a cached answer once nothing in flight is going to
    assign the flag. *)
Lemma step_settled (e : Event) (env : Env) (cfg : Config) :
  this_claudeInstalled (cfg_state cfg) = Some b -> settled b cfg ->
  this_claudeInstalled (cfg_state (step e env cfg)) = Some b /\ settled b (step e env cfg).
Proof.
  intros Hst Hpool. destruct e as [a|i|j|ms]; cbn [step].
  - apply park_settled; [apply keeps_taskOf|exact Hst|exact Hpool].
  - destruct (cfg_waiting cfg !! i) as [w|] eqn:Ew; [|split; assumption].
    assert (Hw : keepsWaiting b w).
    { unfold settled in Hpool. rewrite Forall_lookup in Hpool. apply (Hpool i w Ew). }
    destruct (resume_keeps w env (cfg_state cfg) Hw Hst) as [Hst' Ht].
    destruct (resume w env (cfg_state cfg)) as [st' t]. cbn [fst snd] in *.
    apply park_settled; [exact Ht|exact Hst'|].
    apply Forall_delete. exact Hpool.
  - destruct (timers (cfg_state cfg) !! j) as [pa|]; [|split; assumption].
    destruct (due j pa cfg); [|split; assumption].
    apply park_settled;
      [apply keeps_silent, keeps_automationCallback|exact Hst|exact Hpool].
  - split; [exact Hst|exact Hpool].
Qed.

Lemma play_settled (events : list (Event * Env)) (cfg : Config) :
  this_claudeInstalled (cfg_state cfg) = Some b -> settled b cfg ->
  this_claudeInstalled (cfg_state (play events cfg)) = Some b /\ settled b (play events cfg).
Proof.
  revert cfg. induction events as [|[e env] rest IH]; intros cfg Hst Hpool; cbn [play].
  - split; assumption.
  - destruct (step_settled e env cfg Hst Hpool). apply IH; assumption.
Qed.

(** With the answer cached, a call returns it at once: the state, the log
    of processes included, is as before, and no thread is left behind. *)
Lemma check_cached_at_once (env : Env) (st : State) :
  this_claudeInstalled st = Some b ->
  advance Async.checkClaudeCodeInstallation env st = (st, [], Done (Ok b)).
Proof.
  intros H. unfold Async.checkClaudeCodeInstallation.
  cbn [tbind sync advance get fst snd]. rewrite H. reflexivity.
Qed.

End Keeps.

(** ** Tasks: a boolean handed back is the boolean cached *)

Lemma answersCached_tbind {A B} (view : B -> option bool) (t : Task A) (g : A -> Task B) :
  (forall a, answersCached view (g a)) -> answersCached view (tbind t g).
Proof.
  intros Hg.
  induction t as [A a|A e|A u n IH|A c w k IH|A k IH|A k IH|A child _ k IH];
    simpl; auto.
Qed.

Lemma answersCached_tcatch {A} (view : A -> option bool) (t : Task A)
    (h : string -> Task A) :
  answersCached view t -> (forall e, answersCached view (h e)) ->
  answersCached view (tcatch t h).
Proof.
  revert h.
  induction t as [A a|A e|A u n IH|A c w k IH|A k IH|A k IH|A child _ k IH];
    intros h Ht Hh; simpl in *; auto.
  intros env st. destruct (Ht env st) as [(a & Hn & Hflag)|Hn].
  - left. exists a. rewrite Hn. split; [reflexivity|exact Hflag].
  - right. apply IH; assumption.
Qed.

Lemma answersCached_tmap {A B} (view : B -> option bool) (f : A -> B) (t : Task A) :
  answersCached (fun a => view (f a)) t -> answersCached view (tmap f t).
Proof.
  unfold tmap.
  induction t as [A a|A e|A u n IH|A c w k IH|A k IH|A k IH|A child _ k IH];
    intros Ht; simpl in *; auto.
  intros env st. destruct (Ht env st) as [(a & Hn & Hflag)|Hn].
  - left. exists (f a). rewrite Hn. split; [reflexivity|exact Hflag].
  - right. apply IH. exact Hn.
Qed.

(** A thread that hands back nothing has nothing to account for. *)
Lemma answersCached_silent {A} (t : Task A) : answersCached id (silent t).
Proof. apply answersCached_tbind. intros a. reflexivity. Qed.

(** The end of every branch of the check: the flag is assigned and the
    same boolean returned. *)
Lemma answersCached_assign (v : bool) :
  answersCached Some
    (do! _ <- sync (modify (with_claudeInstalled (Some v))); Finish v).
Proof. intros env st. left. exists v. split; reflexivity. Qed.

Lemma answersCached_checkClaudeCodeInstallation :
  answersCached Some Async.checkClaudeCodeInstallation.
Proof.
  unfold Async.checkClaudeCodeInstallation.
  change (answersCached Some (do! st <- sync get; ?k st))
    with (forall env st,
            (exists a, tbind (match fst (get env st) with
                              | Ok a => Finish a
                              | Thrown message => Fail message
                              end) k = Finish a
                       /\ this_claudeInstalled (snd (get env st)) = Some a)
            \/ answersCached Some
                 (tbind (match fst (get env st) with
                         | Ok a => Finish a
                         | Thrown message => Fail message
                         end) k)).
  intros env st. cbn [get fst snd tbind].
  destruct (this_claudeInstalled st) as [cached|] eqn:Hc.
  { left. exists cached. split; reflexivity. }
  right. apply answersCached_tcatch; [|intros e; apply answersCached_assign].
  destruct (useCustomClaudePath (this_settings st)).
  - apply answersCached_tbind. intros verified. apply answersCached_assign.
  - apply answersCached_tbind. intros detectedPath.
    destruct (from_option JS.truthy false detectedPath); [|apply answersCached_assign].
    apply answersCached_tbind. intros _.
    apply answersCached_tbind. intros _. apply answersCached_assign.
Qed.

Lemma answersCached_taskOf (a : Action) : answersCached id (taskOf a).
Proof.
  destruct a; cbn [taskOf]; try apply answersCached_silent.
  apply answersCached_tmap, answersCached_checkClaudeCodeInstallation.
Qed.

Lemma advance_answers {A} (view : A -> option bool) (t : Task A) (env : Env) (st : State) :
  answersCached view t ->
  match (advance t env st).2 with
  | Done (Ok a) => view a = None \/ this_claudeInstalled (advance t env st).1.1 = view a
  | Done (Thrown _) => True
  | Blocked w => answersCachedWaiting view w
  end.
Proof.
  revert st.
  induction t as [A a|A e|A u n IH|A c w k IH|A k IH|A k IH|A child _ k IH];
    intros st Ht; cbn [advance fst snd].
  - left. exact Ht.
  - exact I.
  - destruct (Ht env st) as [(a & Hn & Hflag)|Hn].
    + rewrite Hn. cbn [advance fst snd]. right. exact Hflag.
    + apply IH. exact Hn.
  - exact Ht.
  - exact Ht.
  - exact Ht.
  - destruct (advance child env st) as [[st' forked] p].
    specialize (IH view st' Ht).
    destruct (advance k env st') as [[st'' more] q]. cbn [fst snd] in IH.
    destruct p as [o|w]; cbn [fst snd]; exact IH.
Qed.

Lemma adopt_honest (w : Waiting unit) : answersCachedWaiting id (adopt w).
Proof.
  destruct w as [log c cwd k|data k|k]; cbn [adopt answersCachedWaiting]; intros;
    apply answersCached_silent.
Qed.

Lemma one_more {A} (l : list A) (x : A) : l <> l ++ [x].
Proof.
  intros H. apply (f_equal length) in H. rewrite length_app in H. simpl in H. lia.
Qed.

Lemma park_honest (t : Task Answer) (env : Env) (st : State)
    (others : list (Waiting Answer)) (answers : list (Outcome Answer)) (fired : list nat) :
  answersCached id t -> Forall (answersCachedWaiting id) others ->
  let cfg := park (advance t env st) others answers fired in
  honest cfg
  /\ forall b, cfg_answers cfg = answers ++ [Ok (Some b)] ->
       this_claudeInstalled (cfg_state cfg) = Some b.
Proof.
  intros Ht Hothers cfg. subst cfg.
  pose proof (@advance_answers Answer id t env st Ht) as Hp.
  destruct (advance t env st) as [[st' forked] p]. cbn [fst snd] in Hp.
  assert (Hadopted : Forall (answersCachedWaiting id) (map adopt forked)).
  { apply Forall_map. apply Forall_forall. intros w _. apply adopt_honest. }
  unfold honest. destruct p as [o|w]; cbn [park cfg_state cfg_waiting cfg_answers].
  - split; [apply Forall_app; split; assumption|].
    intros b Hb. apply app_inv_head in Hb. injection Hb as ->. cbv iota in Hp.
    destruct Hp as [Hp|Hp]; [discriminate|exact Hp].
  - split.
    + apply Forall_app. split; [assumption|].
      apply Forall_app. split; [assumption|]. constructor; [exact Hp|constructor].
    + intros b Hb. destruct (one_more _ _ Hb).
Qed.

(** Whatever has happened since the process started, a thread that ends
    with a boolean ends in a state that has this boolean cached. *)
Lemma step_honest (e : Event) (env : Env) (cfg : Config) :
  honest cfg ->
  honest (step e env cfg)
  /\ forall b, cfg_answers (step e env cfg) = cfg_answers cfg ++ [Ok (Some b)] ->
       this_claudeInstalled (cfg_state (step e env cfg)) = Some b.
Proof.
  intros Hpool. destruct e as [a|i|j|ms]; cbn [step].
  - apply park_honest; [apply answersCached_taskOf|exact Hpool].
  - destruct (cfg_waiting cfg !! i) as [w|] eqn:Ew.
    + assert (Hw : answersCachedWaiting id w).
      { unfold honest in Hpool. rewrite Forall_lookup in Hpool. apply (Hpool i w Ew). }
      assert (Ht : answersCached id (resume w env (cfg_state cfg)).2).
      { destruct w as [log c cwd k|data k|k]; cbn [resume answersCachedWaiting] in *.
        - apply Hw.
        - destruct (saveData_error env); apply Hw.
        - exact Hw. }
      destruct (resume w env (cfg_state cfg)) as [st' t]. cbn [snd] in Ht.
      apply park_honest; [exact Ht|]. apply Forall_delete. exact Hpool.
    + split; [exact Hpool|]. intros b Hb. destruct (one_more _ _ Hb).
  - destruct (timers (cfg_state cfg) !! j) as [pa|].
    + destruct (due j pa cfg).
      * apply park_honest; [apply answersCached_silent|exact Hpool].
      * split; [exact Hpool|]. intros b Hb. destruct (one_more _ _ Hb).
    + split; [exact Hpool|]. intros b Hb. destruct (one_more _ _ Hb).
  - split; [exact Hpool|]. cbn [cfg_answers]. intros b Hb. destruct (one_more _ _ Hb).
Qed.

Lemma play_honest (events : list (Event * Env)) (cfg : Config) :
  honest cfg -> honest (play events cfg).
Proof.
  revert cfg. induction events as [|[e env] rest IH]; intros cfg H; cbn [play]; [exact H|].
  apply IH, step_honest, H.
Qed.

Lemma startOf_honest (settings : OpenInClaudeCodeSettings) (t : Z) : honest (startOf settings t).
Proof. constructor. Qed.

(** At any moment of a process lifetime, a check that hands back [b] has
    stored [b] in the plugin object. *)
Lemma completion_caches (settings : OpenInClaudeCodeSettings) (t0 : Z)
    (history : list (Event * Env)) (event : Event) (env0 : Env) (b : bool) :
  let before := play history (startOf settings t0) in
  let cfg := step event env0 before in
  cfg_answers cfg = cfg_answers before ++ [Ok (Some b)] ->
  this_claudeInstalled (cfg_state cfg) = Some b.
Proof.
  intros before cfg Hanswer.
  apply (step_honest event env0 before); [|exact Hanswer].
  apply play_honest, startOf_honest.
Qed.

(** A stored answer, with no check left in flight, is the answer of every
    later call. *)
Lemma cached_stays (cfg : Config) (b : bool) :
  this_claudeInstalled (cfg_state cfg) = Some b ->
  settled b cfg ->
  forall (later : list (Event * Env)) (env : Env),
    let st := cfg_state (play later cfg) in
    this_claudeInstalled st = Some b
    /\ advance Async.checkClaudeCodeInstallation env st = (st, [], Done (Ok b))
    /\ checkClaudeCodeInstallation env st = (Ok b, st).
Proof.
  intros Hnow Hsettled later env st.
  destruct (play_settled b later cfg Hnow Hsettled) as [Hst _].
  split; [exact Hst|]. split.
  - apply check_cached_at_once. exact Hst.
  - apply checkClaude_cached. exact Hst.
Qed.

(** ** The cached answer of the installation check *)

(** C10, as the code has it.  A check that hands back its boolean, true
    or false, has stored it in the plugin object.  From a moment when the
    boolean is stored and no thread in flight is in the middle of a check
    of its own, it stays there whatever happens later, in whatever order
    the calls are interleaved (checks, launches, changes of the override
    toggle or path or of any setting, refreshes and tests in the settings
    tab, timers, any amount of time): a call of the check returns that
    boolean at once and leaves the state, the log of processes included,
    as it was. *)
Theorem claudeInstalled_cached_for_good (settings : OpenInClaudeCodeSettings) (t0 : Z)
    (history : list (Event * Env)) (event : Event) (env0 : Env) (b : bool) :
  let before := play history (startOf settings t0) in
  let cfg := step event env0 before in
  (cfg_answers cfg = cfg_answers before ++ [Ok (Some b)] ->
   this_claudeInstalled (cfg_state cfg) = Some b)
  /\ (this_claudeInstalled (cfg_state cfg) = Some b ->
      settled b cfg ->
      forall (later : list (Event * Env)) (env : Env),
        let st := cfg_state (play later cfg) in
        this_claudeInstalled st = Some b
        /\ advance Async.checkClaudeCodeInstallation env st = (st, [], Done (Ok b))
        /\ checkClaudeCodeInstallation env st = (Ok b, st)).
Proof.
  intros before cfg. split.
  - apply completion_caches.
  - apply cached_stays.
Qed.

Lemma claudeInstalled_cached_for_good_witness :
  let cfg := play [ (Begin CheckClaude, env_all_absent);
                    (Resume 0, env_all_absent);
                    (Resume 0, env_all_absent) ] (startOf probed_settings 0) in
  let st := cfg_state (play [ (Elapse 600000%Z, env_all_present);
                              (Begin (ToggleCustomPath false), env_all_present);
                              (Resume 0, env_all_present);
                              (Begin (EditClaudePath "C:\tools\claude.exe"), env_all_present);
                              (Begin Launch, env_all_present) ] cfg) in
  cfg_answers cfg = [Ok (Some false)]
  /\ this_claudeInstalled (cfg_state cfg) = Some false
  /\ this_claudeInstalled st = Some false
  /\ checkClaudeCodeInstallation env_all_present st = (Ok false, st).
Proof.
  intros cfg st. split; [reflexivity|].
  assert (Hsettled : settled false cfg) by constructor.
  destruct (claudeInstalled_cached_for_good probed_settings 0
              [ (Begin CheckClaude, env_all_absent); (Resume 0, env_all_absent) ]
              (Resume 0) env_all_absent false) as [Hstored Hstays].
  split; [exact (Hstored eq_refl)|].
  destruct (Hstays (Hstored eq_refl) Hsettled
              [ (Elapse 600000%Z, env_all_present);
                (Begin (ToggleCustomPath false), env_all_present);
                (Resume 0, env_all_present);
                (Begin (EditClaudePath "C:\tools\claude.exe"), env_all_present);
                (Begin Launch, env_all_present) ]
              env_all_present) as (Hflag & _ & Hcall).
  split; [exact Hflag|exact Hcall].
Defined.

(** Two checks overlap: the one started by [onload] and the one of a
    launch both find no cached answer and probe.  The first ends with
    true, and a call made then returns true; the probe of the second
    fails, it ends with false, and a call made after that returns false,
    although the settings have not changed. *)
Lemma overlapping_checks_change_the_answer :
  let cfg1 := play [ (Begin Startup, env_all_present);
                     (Begin Launch, env_all_present);
                     (Resume 0, env_all_present);
                     (Resume 1, env_all_present) ] (startOf probed_settings 0) in
  let cfg2 := step (Begin CheckClaude) env_all_present cfg1 in
  let cfg3 := play [ (Resume 0, env_all_absent);
                     (Resume 0, env_all_absent);
                     (Resume 0, env_all_absent);
                     (Resume 0, env_all_absent) ] cfg2 in
  let cfg4 := step (Begin CheckClaude) env_all_present cfg3 in
  this_claudeInstalled (cfg_state cfg1) = Some true
  /\ cfg_answers cfg2 = cfg_answers cfg1 ++ [Ok (Some true)]
  /\ length (cfg_waiting cfg2) = 1
  /\ cfg_waiting cfg3 = []
  /\ this_settings (cfg_state cfg3) = this_settings (cfg_state cfg1)
  /\ cfg_answers cfg4 = cfg_answers cfg3 ++ [Ok (Some false)]
  /\ notices (cfg_state cfg4) = ["Claude Code not found. Please install it first."].
Proof. vm_compute. repeat split; reflexivity. Qed.

(** C3, as the code has it.  A check that answers true has stored true
    in the plugin object.  From a moment when true is stored and no thread
    in flight is in the middle of a check of its own, every later call in
    the same process returns the cached true and probes nothing, whatever
    happens in between; changes of the override toggle or path are among
    the things that can happen, and do not undo this.  Only a new process
    does: its plugin object starts without an answer, and its first call
    decides afresh.  With the override on it tests the configured path
    (and answers false at once when the path is empty); with the override
    off it begins by asking the shell where the executable is. *)
Theorem claudeInstalled_true_short_circuit (settings : OpenInClaudeCodeSettings) (t0 : Z)
    (history : list (Event * Env)) (event : Event) (env0 : Env) :
  let before := play history (startOf settings t0) in
  let cfg := step event env0 before in
  (cfg_answers cfg = cfg_answers before ++ [Ok (Some true)] ->
   this_claudeInstalled (cfg_state cfg) = Some true)
  /\ (this_claudeInstalled (cfg_state cfg) = Some true ->
      settled true cfg ->
      forall (later : list (Event * Env)) (env : Env),
        let st := cfg_state (play later cfg) in
        (advance Async.checkClaudeCodeInstallation env st = (st, [], Done (Ok true))
         /\ checkClaudeCodeInstallation env st = (Ok true, st))
        /\ forall t : Z,
             let restarted := newPlugin (this_settings st) t in
             let probe := testPathCommand (claudeCodePath (this_settings st)) in
             this_claudeInstalled restarted = None
             /\ (useCustomClaudePath (this_settings st) = true ->
                 claudeCodePath (this_settings st) = EmptyString ->
                 checkClaudeCodeInstallation env restarted
                 = (Ok false, with_claudeInstalled (Some false) restarted))
             /\ (useCustomClaudePath (this_settings st) = true ->
                 claudeCodePath (this_settings st) <> EmptyString ->
                 execLog (snd (checkClaudeCodeInstallation env restarted)) = [(probe, None)]
                 /\ fst (checkClaudeCodeInstallation env restarted)
                    = Ok match exec_result env [] probe None with
                         | inr stdout => String.eqb (JS.trim stdout) "True"
                         | inl _ => false
                         end)
             /\ (useCustomClaudePath (this_settings st) = false ->
                 logExtends [("where claude", None)]
                   (snd (checkClaudeCodeInstallation env restarted)))).
Proof.
  intros before cfg. split; [apply completion_caches|].
  intros Hnow Hsettled later env st.
  destruct (cached_stays cfg true Hnow Hsettled later env) as (_ & Hadvance & Hcall).
  split; [split; [exact Hadvance|exact Hcall]|].
  intros t restarted probe. split; [reflexivity|]. split; [|split].
  - intros Hcustom Hpath.
    unfold checkClaudeCodeInstallation, bind, get. cbn [this_claudeInstalled restarted newPlugin].
    change (this_settings restarted) with (this_settings st). rewrite Hcustom, Hpath.
    reflexivity.
  - intros Hcustom Hpath.
    rewrite (checkClaude_fresh_custom env restarted eq_refl Hcustom Hpath).
    split; reflexivity.
  - intros Hcustom.
    apply (checkClaude_fresh_detect env restarted eq_refl Hcustom).
Qed.

Lemma claudeInstalled_true_short_circuit_witness :
  let cfg := play [ (Begin CheckClaude, env_all_present);
                    (Resume 0, env_all_present);
                    (Resume 0, env_all_present) ] (startOf probed_settings 0) in
  let st := cfg_state (play [ (Begin (EditClaudePath "D:\gone\claude.exe"), env_all_absent);
                              (Resume 0, env_all_absent);
                              (Resume 0, env_all_absent) ] cfg) in
  cfg_answers cfg = [Ok (Some true)]
  /\ this_claudeInstalled (cfg_state cfg) = Some true
  /\ checkClaudeCodeInstallation env_all_absent st = (Ok true, st).
Proof.
  intros cfg st. split; [reflexivity|].
  assert (Hsettled : settled true cfg) by constructor.
  destruct (claudeInstalled_true_short_circuit probed_settings 0
              [ (Begin CheckClaude, env_all_present); (Resume 0, env_all_present) ]
              (Resume 0) env_all_present) as [Hstored Hstays].
  split; [exact (Hstored eq_refl)|].
  destruct (Hstays (Hstored eq_refl) Hsettled
              [ (Begin (EditClaudePath "D:\gone\claude.exe"), env_all_absent);
                (Resume 0, env_all_absent);
                (Resume 0, env_all_absent) ]
              env_all_absent) as ((_ & Hcall) & _).
  exact Hcall.
Defined.

(** The user changes the override path to one where nothing is installed:
    the next call still answers the cached true and probes nothing, though
    a probe of the new path answers false. *)
Lemma override_change_keeps_cached_true :
  let cfg1 := play [ (Begin CheckClaude, env_all_present);
                     (Resume 0, env_all_present);
                     (Resume 0, env_all_present) ] (startOf probed_settings 0) in
  let cfg2 := play [ (Begin (EditClaudePath "D:\gone\claude.exe"), env_all_absent);
                     (Resume 0, env_all_absent);
                     (Resume 0, env_all_absent) ] cfg1 in
  let st2 := cfg_state cfg2 in
  cfg_answers cfg1 = [Ok (Some true)]
  /\ claudeCodePath (this_settings (cfg_state cfg1)) = "C:\tools\claude.exe"
  /\ claudeCodePath (this_settings st2) = "D:\gone\claude.exe"
  /\ savedData st2 = [this_settings st2]
  /\ cfg_waiting cfg2 = []
  /\ advance Async.checkClaudeCodeInstallation env_all_absent st2 = (st2, [], Done (Ok true))
  /\ execLog (advance Async.checkClaudeCodeInstallation env_all_absent st2).1.1 = execLog st2
  /\ fst (checkClaudeCodeInstallation env_all_absent (newPlugin (this_settings st2) 0))
     = Ok false.
Proof. vm_compute. repeat split; reflexivity. Qed.

(** The probe finds the executable, but the detected path cannot be
    saved: the check answers false, and false is what stays cached. *)
Example found_but_not_saved :
  let env := {| exec_result := fun _ _ _ => inr "C:\bin\claude.exe";
                exec_duration := fun _ _ => 5%Z;
                process_env := fun _ => None;
                saveData_error := Some "EACCES";
                isDesktopApp := true; isWin := true;
                app := {| adapterBasePath := Some "C:\Vault"; activeFile := None |} |} in
  fst (detectClaudePath env (newPlugin DEFAULT_SETTINGS 0)) = Ok (Some "C:\bin\claude.exe")
  /\ fst (checkClaudeCodeInstallation env (newPlugin DEFAULT_SETTINGS 0)) = Ok false
  /\ this_claudeInstalled (snd (checkClaudeCodeInstallation env (newPlugin DEFAULT_SETTINGS 0)))
     = Some false.
Proof. vm_compute. repeat split; reflexivity. Qed.


(** ** Launch: the assistant is not found *)

Lemma probesSince_exec (log : list ExecCall) (call : ExecCall) (elapsed : Z) (st : State) :
  isProbeCall call -> probesSince log st -> probesSince log (with_exec call elapsed st).
Proof.
  intros Hcall (probes & Hlog & Hall). exists (probes ++ [call]). split.
  - simpl. rewrite Hlog, <- List.app_assoc. reflexivity.
  - apply Forall_app. split; [exact Hall|]. constructor; [exact Hcall|constructor].
Qed.

Lemma probesSince_testPath (log : list ExecCall) (path : string) (answer : bool) :
  stable (probesSince log)
    (tryCatch
       (do stdout <- execAsync (testPathCommand path) None;
        ret (String.eqb (JS.trim stdout) "True"))
       (fun _ => ret answer)).
Proof.
  apply hoare_tryCatch; [|intros; apply stable_ret].
  apply hoare_bind; [|intros; apply stable_ret].
  apply hoare_execAsync. intros elapsed st. apply probesSince_exec.
  split; [reflexivity|]. right. exists path. reflexivity.
Qed.

Lemma probesSince_firstExistingPath (log : list ExecCall) (paths : list string) :
  stable (probesSince log) (firstExistingPath paths).
Proof.
  induction paths as [|path rest IH]; simpl.
  - apply stable_ret.
  - apply stable_bind; [apply probesSince_testPath|].
    intros [|]; [apply stable_ret|exact IH].
Qed.

Lemma probesSince_detectClaudePath (log : list ExecCall) :
  stable (probesSince log) detectClaudePath.
Proof.
  unfold detectClaudePath.
  apply stable_tryCatch; [|intros; apply stable_ret].
  apply stable_bind.
  - apply stable_tryCatch; [|intros; apply stable_ret].
    apply stable_bind; [|intros; apply stable_ret].
    apply hoare_execAsync. intros elapsed st. apply probesSince_exec.
    split; [reflexivity|]. left. reflexivity.
  - intros [path|]; [apply stable_ret|].
    apply stable_bind; [apply stable_ask|]. intros env.
    apply probesSince_firstExistingPath.
Qed.

Lemma probesSince_verifyClaudePath (log : list ExecCall) (path : string) :
  stable (probesSince log) (verifyClaudePath path).
Proof.
  unfold verifyClaudePath. destruct (negb (JS.truthy path)).
  - apply stable_ret.
  - apply probesSince_testPath.
Qed.

Lemma probesSince_checkClaude (log : list ExecCall) :
  stable (probesSince log) checkClaudeCodeInstallation.
Proof.
  unfold checkClaudeCodeInstallation.
  apply stable_bind; [apply stable_get|]. intros st.
  destruct (this_claudeInstalled st); [apply stable_ret|].
  apply stable_tryCatch.
  - destruct (useCustomClaudePath (this_settings st)).
    + apply stable_bind; [apply probesSince_verifyClaudePath|]. intros v.
      apply stable_bind; [|intros; apply stable_ret].
      apply stable_modify. intros st' H. exact H.
    + apply stable_bind; [apply probesSince_detectClaudePath|]. intros d.
      destruct (from_option JS.truthy false d).
      * apply stable_bind; [apply stable_modify; intros st' H; exact H|]. intros _.
        apply stable_bind; [apply stable_saveSettings; intros v st' H; exact H|]. intros _.
        apply stable_bind; [apply stable_modify; intros st' H; exact H|]. intros _.
        apply stable_ret.
      * apply stable_bind; [apply stable_modify; intros st' H; exact H|]. intros _.
        apply stable_ret.
  - intros e. apply stable_bind; [apply stable_modify; intros st' H; exact H|]. intros _.
    apply stable_ret.
Qed.

Lemma timers_checkClaude (pending : list PendingAutomation) :
  stable (fun st => timers st = pending) checkClaudeCodeInstallation.
Proof.
  intros env st H. destruct (this_claudeInstalled st) as [b|] eqn:Hc.
  { rewrite (checkClaude_cached env st b Hc). exact H. }
  unfold checkClaudeCodeInstallation, bind, get. rewrite Hc.
  unfold tryCatch. destruct (useCustomClaudePath (this_settings st)).
  - unfold bind.
    pose proof (stable_verifyClaudePath (fun st => timers st = pending)
                  ltac:(intros; assumption) (claudeCodePath (this_settings st)) env st H) as Hv.
    destruct (verifyClaudePath _ env st) as [[v|e] st1]; simpl in *; exact Hv.
  - unfold bind.
    pose proof (stable_detectClaudePath (fun st => timers st = pending)
                  ltac:(intros; assumption) env st H) as Hd.
    destruct (detectClaudePath env st) as [[d|e] st1]; simpl in *; [|exact Hd].
    destruct (from_option JS.truthy false d); simpl; [|exact Hd].
    unfold saveSettings, bind, ask, get, modify, throw.
    destruct (saveData_error env); simpl; exact Hd.
Qed.

(** C9.  On Windows desktop, when the installation check answers false,
    [openClaudeCode] shows the not-found notice and returns: the state is
    the one the check left, plus the notice.  The processes run during the
    invocation are the check's own probes (none when the answer was
    cached); no built command is spawned and no automation is scheduled. *)
Theorem openClaudeCode_not_found_aborts (env : Env) (st : State) :
  isDesktopApp env = true ->
  isWin env = true ->
  fst (checkClaudeCodeInstallation env st) = Ok false ->
  let checked := snd (checkClaudeCodeInstallation env st) in
  let final := snd (openClaudeCode env st) in
  openClaudeCode env st
  = (Ok tt, with_notice "Claude Code not found. Please install it first." checked)
  /\ notices final = notices checked ++ ["Claude Code not found. Please install it first."]
  /\ execLog final = execLog checked
  /\ (exists probes, execLog final = execLog st ++ probes /\ Forall isProbeCall probes)
  /\ timers final = timers st
  /\ (this_claudeInstalled st = Some false -> execLog final = execLog st).
Proof.
  intros Hdesktop Hwin Hfalse checked final.
  assert (Hrun : openClaudeCode env st
                 = (Ok tt, with_notice "Claude Code not found. Please install it first." checked)).
  { unfold openClaudeCode, bind at 1, ask. rewrite Hdesktop, Hwin. simpl.
    unfold bind. subst checked.
    destruct (checkClaudeCodeInstallation env st) as [[b|e] st1]; simpl in *;
      [|discriminate].
    injection Hfalse as ->. reflexivity. }
  subst final. rewrite Hrun. simpl.
  split; [reflexivity|]. split; [reflexivity|]. split; [reflexivity|].
  split; [|split].
  - apply (probesSince_checkClaude (execLog st) env st).
    exists []. split; [rewrite List.app_nil_r; reflexivity|constructor].
  - apply (timers_checkClaude (timers st) env st). reflexivity.
  - intros Hcached. subst checked.
    rewrite (checkClaude_cached env st false Hcached). reflexivity.
Qed.

Lemma openClaudeCode_not_found_aborts_witness :
  let st := newPlugin DEFAULT_SETTINGS 0 in
  openClaudeCode env_all_absent st
  = (Ok tt, with_notice "Claude Code not found. Please install it first."
              (snd (checkClaudeCodeInstallation env_all_absent st))).
Proof.
  intros st.
  apply (openClaudeCode_not_found_aborts env_all_absent st eq_refl eq_refl eq_refl).
Defined.

(** ** The terminal presence cache *)

Lemma probeCommonPaths_records (executable : string) (paths : list string)
    (env : Env) (st st' : State) (o : Outcome bool) :
  probeCommonPaths executable paths env st = (o, st') ->
  (o = Ok true /\ terminalAppCache st' !! executable = Some (true, clock st'))
  \/ (o = Ok false /\ terminalAppCache st' = terminalAppCache st).
Proof.
  revert st. induction paths as [|path rest IH]; intros st; cbn [probeCommonPaths].
  - intros [= <- <-]. right. split; reflexivity.
  - unfold bind, tryCatch, execAsync, cacheSet, DateNow, get, modify, ret.
    destruct (exec_result env (execLog st) (testPathCommand path) None) as [e|stdout].
    + intros H. apply IH in H. exact H.
    + destruct (String.eqb (JS.trim stdout) "True").
      * intros [= <- <-]. left. split; [reflexivity|]. apply lookup_insert_eq.
      * intros H. apply IH in H. exact H.
Qed.

(** A probe always answers, and it records its answer under the key
    together with the time at which it finished. *)
Lemma probeTerminalApp_records (executable : string) (env : Env) (st st' : State)
    (o : Outcome bool) :
  probeTerminalApp executable env st = (o, st') ->
  exists b, o = Ok b /\ terminalAppCache st' !! executable = Some (b, clock st').
Proof.
  unfold probeTerminalApp.
  unfold tryCatch at 1. unfold bind at 1. unfold tryCatch at 1. unfold bind at 1.
  unfold execAsync.
  set (st1 := with_exec ("where " +:+ executable, None) _ st).
  assert (Hrest : forall paths o2 st2,
            (do found <- probeCommonPaths executable paths;
             if found then ret true
             else do _ <- cacheSet executable false; ret false) env st1 = (o2, st2) ->
            exists b, o2 = Ok b
                      /\ terminalAppCache st2 !! executable = Some (b, clock st2)).
  { intros paths o2 st2. unfold bind at 1.
    destruct (probeCommonPaths executable paths env st1) as [found st3] eqn:E.
    apply probeCommonPaths_records in E. destruct E as [[-> Hc]|[-> Hc]].
    - intros [= <- <-]. exists true. split; [reflexivity|exact Hc].
    - unfold bind, cacheSet, DateNow, get, modify, ret. intros [= <- <-].
      exists false. split; [reflexivity|]. apply lookup_insert_eq. }
  destruct (exec_result env (execLog st) ("where " +:+ executable) None) as [e|stdout].
  - cbv beta iota. unfold ret at 1. unfold bind at 1, ask.
    match goal with
    | |- (let (_, _) := ?r in _) = _ -> _ => destruct r as [o2 st2] eqn:E
    end.
    destruct (Hrest _ _ _ E) as (b & -> & Hc).
    intros [= <- <-]. exists b. split; [reflexivity|exact Hc].
  - cbv beta iota. destruct (JS.truthy (JS.trim stdout)).
    + unfold bind, cacheSet, DateNow, get, modify, ret. intros [= <- <-].
      exists true. split; [reflexivity|]. apply lookup_insert_eq.
    + unfold ret at 1. unfold bind at 1, ask.
      match goal with
      | |- (let (_, _) := ?r in _) = _ -> _ => destruct r as [o2 st2] eqn:E
      end.
      destruct (Hrest _ _ _ E) as (b & -> & Hc).
      intros [= <- <-]. exists b. split; [reflexivity|exact Hc].
Qed.

(** A probe starts by asking the shell where the executable is. *)
Lemma probeTerminalApp_asks (executable : string) (env : Env) (st : State) :
  logExtends (execLog st ++ [("where " +:+ executable, None)])
    (snd (probeTerminalApp executable env st)).
Proof.
  set (P := logExtends (execLog st ++ [("where " +:+ executable, None)])).
  destruct (logExtends_frame (execLog st ++ [("where " +:+ executable, None)]))
    as (F1 & F2 & F3 & F4 & F5 & F6). fold P in F1, F2, F3, F4, F5, F6.
  assert (Hset : forall b, stable P (cacheSet executable b))
    by (intros b; apply stable_cacheSet; assumption).
  assert (H : hoare (eq st) (probeTerminalApp executable) P).
  { unfold probeTerminalApp.
    apply hoare_tryCatch.
    - apply hoare_bind.
      + apply hoare_tryCatch; [|intros; apply stable_ret].
        apply hoare_bind.
        * apply hoare_execAsync. intros elapsed st' <-.
          exists []. simpl. rewrite List.app_nil_r. reflexivity.
        * intros stdout. destruct (JS.truthy (JS.trim stdout)); [|apply stable_ret].
          apply stable_bind; [apply Hset|]. intros; apply stable_ret.
      + intros [|]; [apply stable_ret|].
        apply stable_bind; [apply stable_ask|]. intros env'.
        apply stable_bind; [apply stable_probeCommonPaths; assumption|].
        intros [|]; [apply stable_ret|].
        apply stable_bind; [apply Hset|]. intros; apply stable_ret.
    - intros e. apply stable_bind; [apply Hset|]. intros; apply stable_ret. }
  apply (H env st eq_refl).
Qed.

Lemma checkTerminal_fresh_entry (executable : string) (env : Env) (st : State)
    (installed : bool) (timestamp : Z) :
  isWin env = true ->
  terminalAppCache st !! executable = Some (installed, timestamp) ->
  (clock st - timestamp < CACHE_DURATION)%Z ->
  checkTerminalAppInstalled executable env st = (Ok installed, st).
Proof.
  intros Hwin Hentry Hfresh.
  unfold checkTerminalAppInstalled, bind, ask, get, DateNow, ret. rewrite Hwin. simpl.
  rewrite Hentry.
  destruct (Z.ltb_spec (clock st - timestamp) CACHE_DURATION); [reflexivity|lia].
Qed.

Lemma checkTerminal_stale_entry (executable : string) (env : Env) (st : State)
    (installed : bool) (timestamp : Z) :
  isWin env = true ->
  terminalAppCache st !! executable = Some (installed, timestamp) ->
  (clock st - timestamp >= CACHE_DURATION)%Z ->
  checkTerminalAppInstalled executable env st = probeTerminalApp executable env st.
Proof.
  intros Hwin Hentry Hstale.
  unfold checkTerminalAppInstalled, bind, ask, get, DateNow, ret. rewrite Hwin. simpl.
  rewrite Hentry.
  destruct (Z.ltb_spec (clock st - timestamp) CACHE_DURATION); [lia|reflexivity].
Qed.

Lemma checkTerminal_no_entry (executable : string) (env : Env) (st : State) :
  isWin env = true ->
  terminalAppCache st !! executable = None ->
  checkTerminalAppInstalled executable env st = probeTerminalApp executable env st.
Proof.
  intros Hwin Hentry.
  unfold checkTerminalAppInstalled, bind, ask, get, DateNow, ret. rewrite Hwin. simpl.
  rewrite Hentry. reflexivity.
Qed.

(** C8, as the code has it.  On Windows, with an entry for the key in the
    cache: a query made less than 60 000 ms after the entry's timestamp
    returns the cached answer and touches nothing, whatever the
    environment now is; a query made 60 000 ms or more after it runs the
    probe again, starting with the shell lookup, answers what the probe
    finds and records that answer with the time at which the probe
    finished. *)
Theorem terminal_cache_window (executable : string) (env : Env) (st : State)
    (installed : bool) (timestamp : Z) :
  isWin env = true ->
  terminalAppCache st !! executable = Some (installed, timestamp) ->
  ((clock st - timestamp < 60000)%Z ->
     checkTerminalAppInstalled executable env st = (Ok installed, st))
  /\ ((clock st - timestamp >= 60000)%Z ->
        let r := checkTerminalAppInstalled executable env st in
        r = probeTerminalApp executable env st
        /\ (exists rest,
              execLog (snd r) = execLog st ++ ("where " +:+ executable, None) :: rest)
        /\ exists b, fst r = Ok b
                     /\ terminalAppCache (snd r) !! executable = Some (b, clock (snd r))).
Proof.
  intros Hwin Hentry. split.
  - intros Hfresh. apply (checkTerminal_fresh_entry _ _ _ _ _ Hwin Hentry Hfresh).
  - intros Hstale r.
    assert (Hr : r = probeTerminalApp executable env st)
      by (apply (checkTerminal_stale_entry _ _ _ _ _ Hwin Hentry Hstale)).
    split; [exact Hr|]. rewrite Hr. split.
    + destruct (probeTerminalApp_asks executable env st) as [rest Hlog].
      exists rest. rewrite Hlog, <- List.app_assoc. reflexivity.
    + destruct (probeTerminalApp executable env st) as [o st'] eqn:E.
      apply probeTerminalApp_records in E. exact E.
Qed.

Lemma terminal_cache_window_witness :
  let st := with_clock (clock st_wt_cached + 59999) st_wt_cached in
  checkTerminalAppInstalled "wt.exe" (env_const (inl "gone") 0) st = (Ok true, st).
Proof.
  intros st.
  apply (terminal_cache_window "wt.exe" (env_const (inl "gone") 0) st true 1000 eq_refl);
    [reflexivity|vm_compute; reflexivity].
Defined.

(** Two probes of the same key exactly 60 000 ms apart: the second one does
    not return the cached answer, it runs the probe again. *)
Lemma probe_at_60000_runs_again :
  let first := checkTerminalAppInstalled "wt.exe" (env_const (inr "C:\wt.exe") 0)
                 (newPlugin DEFAULT_SETTINGS 1000) in
  let st := with_clock (clock (snd first) + 60000) (snd first) in
  let second := checkTerminalAppInstalled "wt.exe" (env_const (inl "gone") 0) st in
  fst first = Ok true
  /\ terminalAppCache (snd first) !! "wt.exe" = Some (true, 1000%Z)
  /\ (clock st - 1000 = 60000)%Z
  /\ fst second = Ok false
  /\ execLog st = [("where wt.exe", None)]
  /\ List.length (execLog (snd second)) = 6.
Proof. vm_compute. repeat split; reflexivity. Qed.

(** Two queries less than 60 000 ms apart agree even when the terminal has
    been removed in between. *)
Example probe_within_window_is_cached :
  let st := with_clock (clock st_wt_cached + 59999) st_wt_cached in
  checkTerminalAppInstalled "wt.exe" (env_const (inl "gone") 0) st = (Ok true, st)
  /\ fst (probeTerminalApp "wt.exe" (env_const (inl "gone") 0) st) = Ok false.
Proof. vm_compute. split; reflexivity. Qed.

Lemma two_probes_within_window (executable : string) (env1 env2 : Env) (st : State) (d : Z) :
  isWin env1 = true -> isWin env2 = true ->
  terminalAppCache st !! executable = None ->
  (d < 60000)%Z ->
  let first := checkTerminalAppInstalled executable env1 st in
  let later := with_clock (clock (snd first) + d) (snd first) in
  checkTerminalAppInstalled executable env2 later = (fst first, later).
Proof.
  intros Hwin1 Hwin2 Hnone Hd first later. subst later first.
  rewrite (checkTerminal_no_entry _ _ _ Hwin1 Hnone).
  destruct (probeTerminalApp executable env1 st) as [o st1] eqn:E.
  apply probeTerminalApp_records in E. destruct E as (b & -> & Hentry).
  simpl. apply (checkTerminal_fresh_entry _ _ _ b (clock st1) Hwin2).
  - exact Hentry.
  - simpl. unfold CACHE_DURATION. lia.
Qed.

(** ** Launch: terminal selection *)

(** An id for which the table has neither an own nor an inherited property
    is rejected before anything is spawned. *)
Lemma openInTerminal_undefined (cwd : string) (env : Env) (st : State) :
  getProperty TERMINAL_APPS (terminalApp (this_settings st)) = Undefined ->
  openInTerminal cwd env st = (Thrown "Invalid terminal application selected", st).
Proof.
  intros H. unfold openInTerminal, bind, get, ask. rewrite H. reflexivity.
Qed.

Lemma openClaudeCode_undefined (env : Env) (st : State) :
  isDesktopApp env = true -> isWin env = true ->
  this_claudeInstalled st = Some true ->
  terminalApp (this_settings st) <> "custom" ->
  getProperty TERMINAL_APPS (terminalApp (this_settings st)) = Undefined ->
  openClaudeCode env st
  = (Ok tt, with_notice "Failed to open Claude Code: Invalid terminal application selected" st).
Proof.
  intros Hdesktop Hwin Hcached Hcustom Hundef.
  unfold openClaudeCode, bind at 1, ask. rewrite Hdesktop, Hwin. simpl.
  unfold bind at 1. rewrite (checkClaude_cached env st true Hcached). simpl.
  unfold bind at 1, get. unfold tryCatch, bind at 1.
  apply String.eqb_neq in Hcustom. rewrite Hcustom.
  rewrite (openInTerminal_undefined _ env st Hundef). reflexivity.
Qed.

Example openInTerminal_foo :
  let st := newPlugin (set_terminalApp "foo" DEFAULT_SETTINGS) 0 in
  openInTerminal "C:\Vault" env_all_present st
  = (Thrown "Invalid terminal application selected", st).
Proof. reflexivity. Qed.

Example openInTerminal_cmd :
  let st := newPlugin DEFAULT_SETTINGS 0 in
  execLog (snd (openInTerminal "C:\Vault" env_all_present st))
  = [("cmd /c " +:+ Q +:+ "start cmd /k " +:+ BQ +:+ "cd /d C:\Vault && claude" +:+ BQ +:+ Q,
      None)].
Proof. reflexivity. Qed.

(** C7 at the id [constructor], which is neither [custom] nor a key of the
    table: the lookup finds the property every object inherits, the guard
    lets it pass, and the fallback branch spawns the built command in the
    working directory. *)
Theorem openInTerminal_inherited_key_spawns :
  let st := newPlugin (set_terminalApp "constructor" DEFAULT_SETTINGS) 0 in
  ownProperty TERMINAL_APPS "constructor" = None
  /\ String.eqb "constructor" "custom" = false
  /\ fst (openInTerminal "C:\Vault" env_all_present st) = Ok tt
  /\ execLog (snd (openInTerminal "C:\Vault" env_all_present st))
     = [("claude", Some "C:\Vault")]
  /\ notices (snd (openClaudeCode env_all_present
                     (with_claudeInstalled (Some true) st)))
     = ["Opening Claude Code in: vault root"].
Proof. vm_compute. repeat split; reflexivity. Qed.

(** ** Launch: the custom command *)

(** The custom command is handed to the process spawner with the resolved
    directory as its working directory; a failure is rethrown with the
    prefix of the custom branch. *)
Lemma executeCustomCommand_spawns (cwd : string) (env : Env) (st : State) :
  let command := customCommandLine (this_settings st) cwd in
  let st' := with_exec (command, Some cwd) (exec_duration env (execLog st) command) st in
  executeCustomCommand cwd env st
  = match exec_result env (execLog st) command (Some cwd) with
    | inr _ => (Ok tt, st')
    | inl message => (Thrown ("Custom command failed: " +:+ message), st')
    end.
Proof.
  intros command st'. unfold executeCustomCommand, bind at 1, get.
  unfold tryCatch, bind, execAsync. fold command. fold st'.
  destruct (exec_result env (execLog st) command (Some cwd)); reflexivity.
Qed.

(** A replacement text without dollar signs is inserted as it is. *)
Lemma GetSubstitution_plain (matched before after template : string) :
  JS.count "$" template = 0 ->
  JS.GetSubstitution matched before after template = template.
Proof.
  induction template as [|c rest IH]; [reflexivity|].
  intros H. simpl in H.
  destruct (Ascii.eqb c "$") eqn:E; [discriminate|].
  specialize (IH H).
  destruct c as [[] [] [] [] [] [] [] []]; try discriminate E;
    simpl; rewrite IH; reflexivity.
Qed.

(** [replace] touches the first occurrence of the pattern and nothing
    after it. *)
Lemma replace_first_only (pattern replacement str before after : string) :
  JS.splitFirst pattern str = Some (before, after) ->
  JS.count "$" replacement = 0 ->
  JS.replace pattern replacement str = before +:+ replacement +:+ after.
Proof.
  intros Hsplit Hplain. unfold JS.replace. rewrite Hsplit.
  rewrite GetSubstitution_plain by exact Hplain. reflexivity.
Qed.

Lemma replace_absent (pattern replacement str : string) :
  JS.splitFirst pattern str = None -> JS.replace pattern replacement str = str.
Proof. intros H. unfold JS.replace. rewrite H. reflexivity. Qed.

Example customCommand_scenario :
  customCommandLine
    (set_customCommand
       ("cmd /c " +:+ Q +:+ "start cmd /k " +:+ BQ +:+ "cd /d {{cwd}} && {{claude}}" +:+ BQ +:+ Q)
       (mkSettings "custom" EmptyString "claude" false "Ctrl+Shift+C" None None None None None
          None None None None None None None None (Some true)))
    "C:\Vault"
  = "cmd /c " +:+ Q +:+ "start cmd /k " +:+ BQ +:+ "cd /d C:\Vault && claude --verbose"
      +:+ BQ +:+ Q.
Proof. reflexivity. Qed.

(** A dollar pattern in the directory is expanded by the replacement. *)
Example customCommand_dollar :
  customCommandLine (set_customCommand "cd {{cwd}} && {{claude}}" DEFAULT_SETTINGS)
    "C:\a$&b"
  = "cd C:\a{{cwd}}b && claude".
Proof. reflexivity. Qed.

(** C1 at a template that names the directory twice: only the first
    occurrence of the placeholder is replaced; the command handed to the
    process spawner still contains the second one. *)
Theorem executeCustomCommand_second_placeholder_kept :
  let settings := set_customCommand "cd /d {{cwd}} && echo {{cwd}} && {{claude}}"
                    (set_terminalApp "custom" DEFAULT_SETTINGS) in
  let st := newPlugin settings 0 in
  customCommandLine settings "C:\Vault" = "cd /d C:\Vault && echo {{cwd}} && claude"
  /\ executeCustomCommand "C:\Vault" env_all_present st
     = (Ok tt, with_exec ("cd /d C:\Vault && echo {{cwd}} && claude", Some "C:\Vault") 5 st)
  /\ JS.includes "{{cwd}}" (customCommandLine settings "C:\Vault") = true
  /\ JS.replaceEvery 8 "{{claude}}" "claude"
       (JS.replaceEvery 8 "{{cwd}}" "C:\Vault" (customCommand settings))
     = "cd /d C:\Vault && echo C:\Vault && claude".
Proof. vm_compute. repeat split; reflexivity. Qed.

(** * Further properties *)

(** ** Escaping *)

Lemma escapePS_before (before before' s : string) :
  JSExt.replaceAllClass isPowerShellSpecial "`$&" before s
  = JSExt.replaceAllClass isPowerShellSpecial "`$&" before' s.
Proof.
  revert before before'. induction s as [|a s IH]; intros before before'; [reflexivity|].
  cbn [JSExt.replaceAllClass]. rewrite (IH _ (before' +:+ JS.str1 a)).
  destruct (isPowerShellSpecial a); reflexivity.
Qed.

Lemma escapePS_from (before s : string) :
  JSExt.replaceAllClass isPowerShellSpecial "`$&" before s = escapePowerShellString s.
Proof. apply escapePS_before. Qed.

Lemma escapePS_cons (a : ascii) (s : string) :
  escapePowerShellString (String a s)
  = if isPowerShellSpecial a
    then String "`" (String a (escapePowerShellString s))
    else String a (escapePowerShellString s).
Proof.
  unfold escapePowerShellString at 1. cbn [JSExt.replaceAllClass].
  rewrite escapePS_from. destruct (isPowerShellSpecial a); reflexivity.
Qed.

Lemma isPowerShellSpecial_backtick : isPowerShellSpecial "`" = true.
Proof. reflexivity. Qed.

Lemma dropBackticks_escape (s : string) :
  dropBackticks (escapePowerShellString s) = s.
Proof.
  induction s as [|a s IH]; [reflexivity|].
  rewrite escapePS_cons. destruct (isPowerShellSpecial a) eqn:E.
  - simpl. rewrite IH. reflexivity.
  - simpl. destruct (Ascii.eqb a "`") eqn:Eb.
    + apply Ascii.eqb_eq in Eb. subst a. discriminate E.
    + rewrite IH. reflexivity.
Qed.

(** X1.  [escapePowerShellString] puts one backtick before every double
    quote, backtick and dollar sign and changes nothing else: the empty
    text stays empty; a text that starts with one of the three characters
    becomes a backtick, that character, and the escaped rest; a text that
    starts with any other character becomes that character and the
    escaped rest.  So removing the escapes gives the text back, the length
    grows by the number of special characters, and escaping distributes
    over concatenation. *)
Theorem escapePowerShellString_escapes (a : ascii) (s t : string) :
  escapePowerShellString EmptyString = EmptyString
  /\ (a = JS.dquote \/ a = "`"%char \/ a = "$"%char ->
      escapePowerShellString (String a s) = String "`" (String a (escapePowerShellString s)))
  /\ (a <> JS.dquote -> a <> "`"%char -> a <> "$"%char ->
      escapePowerShellString (String a s) = String a (escapePowerShellString s))
  /\ dropBackticks (escapePowerShellString s) = s
  /\ String.length (escapePowerShellString s)
     = String.length s + JS.count JS.dquote s + JS.count "`" s + JS.count "$" s
  /\ escapePowerShellString (s +:+ t) = escapePowerShellString s +:+ escapePowerShellString t.
Proof.
  split; [reflexivity|]. split.
  { intros [-> | [-> | ->]]; rewrite escapePS_cons; reflexivity. }
  split.
  { intros Hq Hb Hd. rewrite escapePS_cons. unfold isPowerShellSpecial.
    apply Ascii.eqb_neq in Hq, Hb, Hd. rewrite Hq, Hb, Hd. reflexivity. }
  split; [apply dropBackticks_escape|split].
  - clear a. induction s as [|a s IH]; [reflexivity|].
    rewrite escapePS_cons. unfold isPowerShellSpecial. simpl.
    destruct (Ascii.eqb a JS.dquote) eqn:Eq.
    { apply Ascii.eqb_eq in Eq. subst a. simpl. rewrite IH. lia. }
    destruct (Ascii.eqb a "`") eqn:Eb.
    { apply Ascii.eqb_eq in Eb. subst a. simpl. rewrite IH. lia. }
    destruct (Ascii.eqb a "$") eqn:Ed.
    { apply Ascii.eqb_eq in Ed. subst a. simpl. rewrite IH. lia. }
    simpl. rewrite IH. lia.
  - clear a. induction s as [|a s IH]; [reflexivity|].
    rewrite app_cons, !escapePS_cons, IH.
    destruct (isPowerShellSpecial a); reflexivity.
Qed.

Lemma escapePowerShellString_escapes_witness :
  escapePowerShellString "$HOME" = String "`" (String "$" (escapePowerShellString "HOME"))
  /\ escapePowerShellString "HOME" = String "H" (escapePowerShellString "OME").
Proof.
  destruct (escapePowerShellString_escapes "$" "HOME" EmptyString) as (_ & Hspecial & _).
  destruct (escapePowerShellString_escapes "H" "OME" EmptyString) as (_ & _ & Hplain & _).
  split; [apply Hspecial; right; right; reflexivity|].
  apply Hplain; discriminate.
Defined.

(** X2.  Two different texts never escape to the same PowerShell string. *)
Theorem escapePowerShellString_injective (s t : string) :
  s <> t -> escapePowerShellString s <> escapePowerShellString t.
Proof.
  intros Hne H. apply Hne. apply (f_equal dropBackticks) in H.
  rewrite !dropBackticks_escape in H. exact H.
Qed.

Lemma escapePowerShellString_injective_witness :
  escapePowerShellString "a`$b" <> escapePowerShellString "a$b".
Proof.
  apply (escapePowerShellString_injective "a`$b" "a$b"). discriminate.
Defined.

Lemma undouble_escape (s : string) : undoubleQuotes (escapeWindowsPath s) = s.
Proof.
  induction s as [|a s IH]; [reflexivity|].
  unfold escapeWindowsPath, JS.str1 in *. simpl.
  destruct (Ascii.eqb a JS.dquote) eqn:E.
  - apply Ascii.eqb_eq in E. subst a. rewrite !app_cons, app_nil_l. simpl.
    rewrite IH. reflexivity.
  - simpl. rewrite E, IH. reflexivity.
Qed.

(** X3.  [escapeWindowsPath] loses nothing: halving the doubled quotes
    gives the path back, so two different paths never escape to the same
    text; and no quote stands alone in the result (their number is even). *)
Theorem escapeWindowsPath_injective (s t : string) :
  undoubleQuotes (escapeWindowsPath s) = s
  /\ Nat.Even (JS.count JS.dquote (escapeWindowsPath s))
  /\ (s <> t -> escapeWindowsPath s <> escapeWindowsPath t).
Proof.
  split; [apply undouble_escape|]. split.
  - exists (JS.count JS.dquote s). apply escape_counts.
  - intros Hne H. apply Hne. apply (f_equal undoubleQuotes) in H.
    rewrite !undouble_escape in H. exact H.
Qed.

Lemma escapeWindowsPath_injective_witness :
  escapeWindowsPath ("C:\My " +:+ Q +:+ "Vault")
  <> escapeWindowsPath ("C:\My " +:+ Q +:+ Q +:+ "Vault").
Proof.
  destruct (escapeWindowsPath_injective ("C:\My " +:+ Q +:+ "Vault")
              ("C:\My " +:+ Q +:+ Q +:+ "Vault")) as (_ & _ & H).
  apply H. discriminate.
Defined.

(** ** Hotkeys *)

Example parseHotkey_default :
  parseHotkey "Ctrl+Shift+C" = [ {| modifiers := ["Mod"; "Shift"]; key := "C" |} ].
Proof. reflexivity. Qed.

Example parseHotkey_spaces_and_case :
  parseHotkey " cmd + OPTION + k " = [ {| modifiers := ["Mod"; "Alt"]; key := "k" |} ].
Proof. reflexivity. Qed.

Example parseHotkey_last_key_wins :
  parseHotkey "a+b" = [ {| modifiers := []; key := "b" |} ].
Proof. reflexivity. Qed.

Lemma hotkeyStep_fold (parts : list string) (acc : list string * string) :
  let result := fold_left hotkeyStep parts acc in
  (exists added,
     result.1 = acc.1 ++ added
     /\ Forall (fun m => m = "Mod" \/ m = "Alt" \/ m = "Shift") added
     /\ length added <= length parts)
  /\ (result.2 = acc.2
      \/ (In result.2 parts
          /\ ~ In (JSExt.toLowerCase result.2) ["ctrl"; "cmd"; "alt"; "option"; "shift"])).
Proof.
  revert acc. induction parts as [|part rest IH]; intros acc.
  - simpl. split; [|left; reflexivity].
    exists []. rewrite List.app_nil_r. split; [reflexivity|]. split; [constructor|simpl; lia].
  - cbn [fold_left]. destruct (IH (hotkeyStep acc part)) as [(added & H1 & Hall & Hlen) Hkey].
    cbv zeta. unfold hotkeyStep in *.
    destruct (String.eqb (JSExt.toLowerCase part) "ctrl") eqn:E1;
      [|destruct (String.eqb (JSExt.toLowerCase part) "cmd") eqn:E2];
      [| |destruct (String.eqb (JSExt.toLowerCase part) "alt") eqn:E3];
      [| | |destruct (String.eqb (JSExt.toLowerCase part) "option") eqn:E4];
      [| | | |destruct (String.eqb (JSExt.toLowerCase part) "shift") eqn:E5];
      cbn [orb fst snd] in *.
    1,2: split; [exists ("Mod" :: added); rewrite H1, <- List.app_assoc;
                 split; [reflexivity|]; split; [constructor; auto|simpl; lia]
                |destruct Hkey as [Hk|[Hin Hno]]; [left; exact Hk|right; split; [right; exact Hin|exact Hno]]].
    1,2: split; [exists ("Alt" :: added); rewrite H1, <- List.app_assoc;
                 split; [reflexivity|]; split; [constructor; auto|simpl; lia]
                |destruct Hkey as [Hk|[Hin Hno]]; [left; exact Hk|right; split; [right; exact Hin|exact Hno]]].
    1: split; [exists ("Shift" :: added); rewrite H1, <- List.app_assoc;
                 split; [reflexivity|]; split; [constructor; auto|simpl; lia]
                |destruct Hkey as [Hk|[Hin Hno]]; [left; exact Hk|right; split; [right; exact Hin|exact Hno]]].
    split.
    + exists added. split; [exact H1|]. split; [exact Hall|simpl; lia].
    + right. destruct Hkey as [Hk|[Hin Hno]].
      * rewrite Hk. split; [left; reflexivity|].
        apply String.eqb_neq in E1, E2, E3, E4, E5.
        simpl. intros [H|[H|[H|[H|[H|[]]]]]]; congruence.
      * split; [right; exact Hin|exact Hno].
Qed.

(** X4.  [parseHotkey] returns no hotkey for the empty string and exactly
    one otherwise.  Its modifiers are drawn from Mod, Alt and Shift, at
    most one per part of the shortcut; its key is empty or one of the
    trimmed parts that is not a modifier name in any letter case. *)
Theorem parseHotkey_shape (hotkeyString : string) :
  parseHotkey EmptyString = []
  /\ (hotkeyString <> EmptyString ->
      exists h, parseHotkey hotkeyString = [h]
        /\ Forall (fun m => m = "Mod" \/ m = "Alt" \/ m = "Shift") (modifiers h)
        /\ length (modifiers h) <= length (JSExt.split "+" hotkeyString)
        /\ (key h = EmptyString
            \/ (In (key h) (map JS.trim (JSExt.split "+" hotkeyString))
                /\ ~ In (JSExt.toLowerCase (key h))
                        ["ctrl"; "cmd"; "alt"; "option"; "shift"]))).
Proof.
  split; [reflexivity|]. intros Hne.
  unfold parseHotkey. destruct hotkeyString as [|c s]; [contradiction|].
  cbn [JS.truthy negb].
  destruct (hotkeyStep_fold (map JS.trim (JSExt.split "+" (String c s))) ([], EmptyString))
    as [(added & H1 & Hall & Hlen) Hkey].
  eexists. split; [reflexivity|]. cbn [modifiers key].
  cbn [fst snd app] in H1. rewrite H1.
  split; [exact Hall|]. split; [rewrite length_map in Hlen; exact Hlen|exact Hkey].
Qed.

Lemma parseHotkey_shape_witness :
  exists h, parseHotkey "Ctrl+Shift+C" = [h]
    /\ Forall (fun m => m = "Mod" \/ m = "Alt" \/ m = "Shift") (modifiers h)
    /\ length (modifiers h) <= length (JSExt.split "+" "Ctrl+Shift+C")
    /\ (key h = EmptyString
        \/ (In (key h) (map JS.trim (JSExt.split "+" "Ctrl+Shift+C"))
            /\ ~ In (JSExt.toLowerCase (key h))
                    ["ctrl"; "cmd"; "alt"; "option"; "shift"])).
Proof.
  apply (parseHotkey_shape "Ctrl+Shift+C"). discriminate.
Defined.

(** ** More on the command builder *)

Lemma prefix_refl (p : string) : String.prefix p p = true.
Proof. rewrite <- (app_nil_r p) at 2. apply prefix_app. Qed.

Lemma prefix_app_l (p a b : string) :
  String.prefix p a = true -> String.prefix p (a +:+ b) = true.
Proof.
  revert a. induction p as [|c p IH]; intros a H.
  - destruct (a +:+ b); reflexivity.
  - destruct a as [|x a]; [discriminate|]. rewrite app_cons. simpl in *.
    destruct (ascii_dec c x); [apply IH, H|discriminate].
Qed.

Lemma includes_app_l (p a b : string) :
  JS.includes p a = true -> JS.includes p (a +:+ b) = true.
Proof.
  induction a as [|x a IH].
  - simpl. rewrite orb_false_r. intros H. rewrite app_nil_l.
    destruct p; [|discriminate]. destruct b; reflexivity.
  - rewrite app_cons. simpl. intros H. apply orb_true_iff in H. destruct H as [H|H].
    + pose proof (prefix_app_l p (String x a) b H) as Hp. rewrite app_cons in Hp.
      simpl in Hp. rewrite Hp. reflexivity.
    + rewrite (IH H). apply orb_true_r.
Qed.

Lemma includes_app_r (p a b : string) :
  JS.includes p b = true -> JS.includes p (a +:+ b) = true.
Proof.
  intros H. induction a as [|x a IH]; [exact H|].
  rewrite app_cons. simpl. rewrite IH. apply orb_true_r.
Qed.

Lemma includes_extended (p c x : string) :
  (exists seg, x = c +:+ seg) -> JS.includes p c = true -> JS.includes p x = true.
Proof. intros [seg ->]. apply includes_app_l. Qed.

Ltac extends_by_cases :=
  eexists; first [ reflexivity | symmetry; apply app_nil_r ].

Lemma addPermissionMode_extends (s : OpenInClaudeCodeSettings) (c : string) :
  exists seg, addPermissionMode s c = c +:+ seg.
Proof.
  unfold addPermissionMode. destruct (permissionMode s) as [m|];
    [destruct (isDefaultMode m)|]; extends_by_cases.
Qed.

Lemma addSkipPermissions_extends (s : OpenInClaudeCodeSettings) (c : string) :
  exists seg, addSkipPermissions s c = c +:+ seg.
Proof.
  unfold addSkipPermissions. destruct (truthyBool _); extends_by_cases.
Qed.

Lemma addAllowedTools_extends (s : OpenInClaudeCodeSettings) (c : string) :
  exists seg, addAllowedTools s c = c +:+ seg.
Proof.
  unfold addAllowedTools. destruct (nonEmptyList _); extends_by_cases.
Qed.

Lemma addDeniedTools_extends (s : OpenInClaudeCodeSettings) (c : string) :
  exists seg, addDeniedTools s c = c +:+ seg.
Proof.
  unfold addDeniedTools. destruct (nonEmptyList _); extends_by_cases.
Qed.

Lemma addModel_extends (s : OpenInClaudeCodeSettings) (c : string) :
  exists seg, addModel s c = c +:+ seg.
Proof.
  unfold addModel. destruct (claudeModel s) as [m|];
    [destruct (JS.truthy m && negb (String.eqb m "default"))|]; extends_by_cases.
Qed.

Lemma addContinue_extends (s : OpenInClaudeCodeSettings) (c : string) :
  exists seg, addContinue s c = c +:+ seg.
Proof.
  unfold addContinue. destruct (truthyBool _); extends_by_cases.
Qed.

Lemma addMaxTurns_extends (s : OpenInClaudeCodeSettings) (c : string) :
  exists seg, addMaxTurns s c = c +:+ seg.
Proof.
  unfold addMaxTurns. destruct (maxTurns s) as [n|];
    [destruct (negb (n =? 0)%Z && negb (n =? 10)%Z)|]; extends_by_cases.
Qed.

Lemma addVerbose_extends (s : OpenInClaudeCodeSettings) (c : string) :
  exists seg, addVerbose s c = c +:+ seg.
Proof.
  unfold addVerbose. destruct (truthyBool _); extends_by_cases.
Qed.

Lemma addAdditionalDirectories_extends (s : OpenInClaudeCodeSettings) (c : string) :
  exists seg, addAdditionalDirectories s c = c +:+ seg.
Proof.
  unfold addAdditionalDirectories. destruct (nonEmptyList _).
  - eexists. apply addDirs_app.
  - extends_by_cases.
Qed.

Lemma extends_trans (c x y : string) :
  (exists seg, x = c +:+ seg) -> (exists seg, y = x +:+ seg) -> exists seg, y = c +:+ seg.
Proof.
  intros [s1 ->] [s2 ->]. exists (s1 +:+ s2). apply app_assoc.
Qed.

(** The builder only ever appends to the base token. *)
Lemma buildClaudeCommand_base (settings : OpenInClaudeCodeSettings) :
  exists flags,
    buildClaudeCommand settings
    = (if useCustomClaudePath settings then claudeCodePath settings else "claude") +:+ flags.
Proof.
  unfold buildClaudeCommand, commandBeforeMaxTurns. cbv zeta.
  eapply extends_trans; [|apply addAdditionalDirectories_extends].
  eapply extends_trans; [|apply addVerbose_extends].
  eapply extends_trans; [|apply addMaxTurns_extends].
  eapply extends_trans; [|apply addContinue_extends].
  eapply extends_trans; [|apply addModel_extends].
  eapply extends_trans; [|apply addDeniedTools_extends].
  eapply extends_trans; [|apply addAllowedTools_extends].
  eapply extends_trans; [|apply addSkipPermissions_extends].
  apply addPermissionMode_extends.
Qed.

Ltac carry_to_model :=
  apply (includes_extended _ _ _ (addAdditionalDirectories_extends _ _));
  apply (includes_extended _ _ _ (addVerbose_extends _ _));
  apply (includes_extended _ _ _ (addMaxTurns_extends _ _));
  apply (includes_extended _ _ _ (addContinue_extends _ _)).

Ltac carry_to_denied :=
  carry_to_model; apply (includes_extended _ _ _ (addModel_extends _ _)).

Ltac carry_to_allowed :=
  carry_to_denied; apply (includes_extended _ _ _ (addDeniedTools_extends _ _)).

(** X5.  The built command starts with the base token, and every list or
    value option that is set shows up in it: the allowed tools and the
    denied tools joined with commas in their order, and the model. *)
Theorem buildClaudeCommand_lists_tools (settings : OpenInClaudeCodeSettings) :
  let base := if useCustomClaudePath settings then claudeCodePath settings else "claude" in
  let command := buildClaudeCommand settings in
  String.prefix base command = true
  /\ (forall tools, allowedTools settings = Some tools -> tools <> [] ->
        JS.includes (" --allowedTools " +:+ JS.join "," tools) command = true)
  /\ (forall tools, deniedTools settings = Some tools -> tools <> [] ->
        JS.includes (" --disallowedTools " +:+ JS.join "," tools) command = true)
  /\ (forall model, claudeModel settings = Some model ->
        model <> EmptyString -> model <> "default" ->
        JS.includes (" --model " +:+ model) command = true).
Proof.
  intros base command. subst base command.
  split; [|unfold buildClaudeCommand, commandBeforeMaxTurns; cbv zeta; split; [|split]].
  - destruct (buildClaudeCommand_base settings) as [flags ->]. apply prefix_app.
  - intros tools Htools Hne. carry_to_allowed.
    unfold addAllowedTools. rewrite Htools.
    destruct tools as [|t tools]; [contradiction|]. cbn [nonEmptyList from_option id].
    apply includes_app_r, includes_prefix, prefix_refl.
  - intros tools Htools Hne. carry_to_denied.
    unfold addDeniedTools. rewrite Htools.
    destruct tools as [|t tools]; [contradiction|]. cbn [nonEmptyList from_option id].
    apply includes_app_r, includes_prefix, prefix_refl.
  - intros model Hmodel Hne Hdefault. carry_to_model.
    unfold addModel. rewrite Hmodel.
    destruct model as [|c m]; [contradiction|].
    apply String.eqb_neq in Hdefault. rewrite Hdefault. cbn [JS.truthy negb andb].
    apply includes_app_r, includes_prefix, prefix_refl.
Qed.

Lemma buildClaudeCommand_lists_tools_witness :
  JS.includes " --allowedTools Edit,Write"
    (buildClaudeCommand (set_allowedTools (Some ["Edit"; "Write"]) DEFAULT_SETTINGS)) = true.
Proof.
  destruct (buildClaudeCommand_lists_tools
              (set_allowedTools (Some ["Edit"; "Write"]) DEFAULT_SETTINGS)) as (_ & H & _).
  apply (H ["Edit"; "Write"]); [reflexivity|discriminate].
Defined.

Lemma addDirs_filter (command : string) (dirs : list string) :
  addDirs command (List.filter notBlank dirs) = addDirs command dirs.
Proof.
  revert command. induction dirs as [|dir rest IH]; intros command; [reflexivity|].
  simpl. unfold notBlank at 1. destruct (JS.truthy (JS.trim dir)) eqn:E.
  - simpl. fold (notBlank dir). unfold notBlank at 1. rewrite E. apply IH.
  - apply IH.
Qed.

Lemma addDirs_blank (command : string) (dirs : list string) :
  Forall (fun dir => notBlank dir = false) dirs -> addDirs command dirs = command.
Proof.
  intros H. induction H as [|dir rest Hdir _ IH]; [reflexivity|].
  simpl. unfold notBlank in Hdir. rewrite Hdir. exact IH.
Qed.

Lemma addDirs_includes (command dir : string) (dirs : list string) :
  In dir dirs -> notBlank dir = true ->
  JS.includes (" --add-dir " +:+ Q +:+ escapeWindowsPath (JS.trim dir) +:+ Q)
    (addDirs command dirs) = true.
Proof.
  intros Hin Hdir. revert command.
  induction dirs as [|d rest IH]; intros command; [contradiction|].
  simpl. destruct Hin as [-> | Hin].
  - unfold notBlank in Hdir. rewrite Hdir. rewrite addDirs_app.
    apply includes_app_l, includes_app_r, includes_prefix, prefix_refl.
  - destruct (JS.truthy (JS.trim d)); apply IH, Hin.
Qed.

(** X6.  Blank entries of [additionalDirectories] never produce a flag:
    the command is the one built from the list without them, and the one
    built without the option when all entries are blank.  Every other
    entry appears as [--add-dir] with its trimmed, escaped text between
    double quotes. *)
Theorem additionalDirectories_blank_ignored (settings : OpenInClaudeCodeSettings)
    (dirs : list string) :
  additionalDirectories settings = Some dirs ->
  buildClaudeCommand (set_additionalDirectories (Some (List.filter notBlank dirs)) settings)
  = buildClaudeCommand settings
  /\ (Forall (fun dir => notBlank dir = false) dirs ->
      buildClaudeCommand settings
      = buildClaudeCommand (set_additionalDirectories None settings))
  /\ (forall dir, In dir dirs -> notBlank dir = true ->
      JS.includes (" --add-dir " +:+ Q +:+ escapeWindowsPath (JS.trim dir) +:+ Q)
        (buildClaudeCommand settings) = true).
Proof.
  intros Hdirs. unfold buildClaudeCommand. cbv zeta.
  set (c := addVerbose settings (addMaxTurns settings (commandBeforeMaxTurns settings))).
  split; [|split].
  - change (addAdditionalDirectories
              (set_additionalDirectories (Some (List.filter notBlank dirs)) settings) c
            = addAdditionalDirectories settings c).
    unfold addAdditionalDirectories.
    cbn [additionalDirectories set_additionalDirectories]. rewrite Hdirs.
    cbn [from_option id].
    destruct dirs as [|d rest]; [reflexivity|].
    cbn [nonEmptyList]. rewrite <- (addDirs_filter c (d :: rest)).
    destruct (List.filter notBlank (d :: rest)); reflexivity.
  - intros Hblank.
    change (addAdditionalDirectories settings c
            = addAdditionalDirectories (set_additionalDirectories None settings) c).
    unfold addAdditionalDirectories.
    cbn [additionalDirectories set_additionalDirectories nonEmptyList]. rewrite Hdirs.
    destruct dirs as [|d rest]; [reflexivity|].
    cbn [nonEmptyList from_option id]. apply addDirs_blank, Hblank.
  - intros dir Hin Hdir. unfold addAdditionalDirectories. rewrite Hdirs.
    destruct dirs as [|d rest]; [contradiction|].
    cbn [nonEmptyList from_option id]. apply addDirs_includes; assumption.
Qed.

Lemma additionalDirectories_blank_ignored_witness :
  buildClaudeCommand
    (set_additionalDirectories (Some (List.filter notBlank ["  "; " C:\a "; EmptyString]))
       (set_additionalDirectories (Some ["  "; " C:\a "; EmptyString]) DEFAULT_SETTINGS))
  = buildClaudeCommand
      (set_additionalDirectories (Some ["  "; " C:\a "; EmptyString]) DEFAULT_SETTINGS).
Proof.
  apply (additionalDirectories_blank_ignored
           (set_additionalDirectories (Some ["  "; " C:\a "; EmptyString]) DEFAULT_SETTINGS)
           ["  "; " C:\a "; EmptyString]).
  reflexivity.
Defined.

(** ** More on the path resolver *)

(** X7.  The working directory always starts with the vault path; what
    follows is empty or a backslash and a folder path without any forward
    slash. *)
Theorem getWorkingDirectory_under_vault (settings : OpenInClaudeCodeSettings) (app : App) :
  exists rest,
    getWorkingDirectory settings app = getVaultPath settings app +:+ rest
    /\ JS.count "/" rest = 0
    /\ (rest = EmptyString \/ exists folder, rest = String JS.backslash folder).
Proof.
  unfold getWorkingDirectory. cbv zeta.
  destruct (truthyBool (alwaysOpenVaultRoot settings)).
  { exists EmptyString. rewrite app_nil_r. split; [reflexivity|]. split; [reflexivity|left; reflexivity]. }
  destruct (activeFile app) as [file|].
  2: { exists EmptyString. rewrite app_nil_r. split; [reflexivity|]. split; [reflexivity|left; reflexivity]. }
  destruct (JS.truthy (folderPathOf file)).
  2: { exists EmptyString. rewrite app_nil_r. split; [reflexivity|]. split; [reflexivity|left; reflexivity]. }
  exists (JS.str1 JS.backslash
            +:+ JS.replaceAllChar "/" (JS.str1 JS.backslash) (folderPathOf file)).
  split; [reflexivity|]. split.
  - rewrite count_app. rewrite replaceAllChar_removes by discriminate. reflexivity.
  - right. eexists. reflexivity.
Qed.

(** ** Programs that never throw *)

Lemma total_ret {A} (a : A) : total (ret a).
Proof. intros env st. exists a. reflexivity. Qed.

Lemma total_bind {A B} (m : M A) (k : A -> M B) :
  total m -> (forall a, total (k a)) -> total (bind m k).
Proof.
  intros Hm Hk env st. unfold bind.
  destruct (Hm env st) as [a Ha]. destruct (m env st) as [o st']. simpl in Ha. subst o.
  apply Hk.
Qed.

Lemma total_tryCatch {A} (body : M A) (handler : string -> M A) :
  (forall e, total (handler e)) -> total (tryCatch body handler).
Proof.
  intros Hh env st. unfold tryCatch.
  destruct (body env st) as [[a|e] st']; [exists a; reflexivity|apply Hh].
Qed.

Lemma total_get : total get.
Proof. intros env st. exists st. reflexivity. Qed.

Lemma total_ask : total ask.
Proof. intros env st. exists env. reflexivity. Qed.

Lemma total_modify (f : State -> State) : total (modify f).
Proof. intros env st. exists tt. reflexivity. Qed.

Lemma total_if {A} (b : bool) (m1 m2 : M A) : total m1 -> total m2 -> total (if b then m1 else m2).
Proof. destruct b; auto. Qed.

Lemma total_Notice (text : string) : total (Notice text).
Proof. apply total_modify. Qed.

Lemma total_DateNow : total DateNow.
Proof. unfold DateNow. apply total_bind; [apply total_get|intros; apply total_ret]. Qed.

Lemma total_cacheSet (executable : string) (installed : bool) :
  total (cacheSet executable installed).
Proof.
  unfold cacheSet. apply total_bind; [apply total_DateNow|intros; apply total_modify].
Qed.

Lemma total_firstExistingPath (paths : list string) : total (firstExistingPath paths).
Proof.
  induction paths as [|path rest IH]; simpl; [apply total_ret|].
  apply total_bind; [apply total_tryCatch; intros; apply total_ret|].
  intros [|]; [apply total_ret|exact IH].
Qed.

Lemma total_detectClaudePath : total detectClaudePath.
Proof. unfold detectClaudePath. apply total_tryCatch. intros; apply total_ret. Qed.

Lemma total_verifyClaudePath (path : string) : total (verifyClaudePath path).
Proof.
  unfold verifyClaudePath. apply total_if; [apply total_ret|].
  apply total_tryCatch. intros; apply total_ret.
Qed.

Lemma total_probeTerminalApp (executable : string) : total (probeTerminalApp executable).
Proof.
  unfold probeTerminalApp. apply total_tryCatch. intros e.
  apply total_bind; [apply total_cacheSet|intros; apply total_ret].
Qed.

Lemma total_checkTerminalAppInstalled (executable : string) :
  total (checkTerminalAppInstalled executable).
Proof.
  unfold checkTerminalAppInstalled.
  apply total_bind; [apply total_ask|]. intros env.
  apply total_if; [apply total_ret|].
  apply total_bind; [apply total_get|]. intros st.
  apply total_bind; [apply total_DateNow|]. intros now.
  destruct (terminalAppCache st !! executable) as [[installed timestamp]|].
  - apply total_if; [apply total_ret|apply total_probeTerminalApp].
  - apply total_probeTerminalApp.
Qed.

Lemma total_collectInstalled (entries : list (string * TerminalConfig))
    (availableApps : list (string * string)) :
  total (collectInstalled entries availableApps).
Proof.
  revert availableApps. induction entries as [|[key config] rest IH]; intros availableApps; simpl.
  - apply total_ret.
  - apply total_bind; [apply total_ask|]. intros env.
    apply total_if; [apply IH|].
    apply total_bind; [apply total_checkTerminalAppInstalled|].
    intros [|]; apply IH.
Qed.

Lemma total_checkEach (entries : list (string * TerminalConfig)) : total (checkEach entries).
Proof.
  induction entries as [|[key config] rest IH]; simpl; [apply total_ret|].
  apply total_bind; [apply total_checkTerminalAppInstalled|intros; exact IH].
Qed.

Lemma total_checkAndDisplayClaudeStatus : total checkAndDisplayClaudeStatus.
Proof.
  unfold checkAndDisplayClaudeStatus.
  apply total_bind; [apply total_get|]. intros st.
  apply total_bind.
  { apply total_if; [apply total_ret|].
    apply total_bind; [apply total_detectClaudePath|intros; apply total_ret]. }
  intros currentPath.
  apply total_bind; [apply total_verifyClaudePath|]. intros _.
  apply total_if; [|apply total_ret].
  apply total_bind; [apply total_modify|intros; apply total_checkEach].
Qed.

Lemma total_checkClaude : total checkClaudeCodeInstallation.
Proof.
  intros env st. destruct (checkClaude_completes env st) as (b & Hb & _).
  exists b. exact Hb.
Qed.

Lemma total_openClaudeCode : total openClaudeCode.
Proof.
  unfold openClaudeCode.
  apply total_bind; [apply total_ask|]. intros env.
  apply total_if; [apply total_Notice|].
  apply total_bind; [apply total_checkClaude|]. intros installed.
  apply total_if; [apply total_Notice|].
  apply total_bind; [apply total_get|]. intros st.
  apply total_tryCatch. intros e. apply total_Notice.
Qed.



(** ** Launch: outcomes and notices *)

Lemma executeCustomCommand_effects (cwd : string) (env : Env) (st : State) :
  let r := executeCustomCommand cwd env st in
  this_settings (snd r) = this_settings st
  /\ notices (snd r) = notices st
  /\ timers (snd r) = timers st
  /\ execLog (snd r) = execLog st ++ [(customCommandLine (this_settings st) cwd, Some cwd)].
Proof.
  cbv zeta. rewrite executeCustomCommand_spawns.
  destruct (exec_result env (execLog st) _ (Some cwd)); simpl; repeat split; reflexivity.
Qed.

Lemma isEditor_property (terminal : string) :
  isEditor terminal = true ->
  exists config open,
    getProperty TERMINAL_APPS terminal = OwnProperty config
    /\ openCommand config = Some open
    /\ customDelay config = None
    /\ forall cwd command,
         open cwd command
         = (if String.eqb terminal "vscode" then "code " else "cursor ")
             +:+ Q +:+ escapeWindowsPath cwd +:+ Q.
Proof.
  unfold isEditor. intros H. apply orb_true_iff in H.
  destruct H as [H|H]; apply String.eqb_eq in H; subst terminal;
    eexists; eexists; (split; [reflexivity|]); (split; [reflexivity|]);
    (split; [reflexivity|]); intros; reflexivity.
Qed.

(** The effects of [openInTerminal], by cases on its outcome. *)
Lemma openInTerminal_effects (cwd : string) (env : Env) (st st' : State) (o : Outcome unit) :
  openInTerminal cwd env st = (o, st') ->
  this_settings st' = this_settings st
  /\ match o with
     | Ok _ =>
         (exists call, execLog st' = execLog st ++ [call])
         /\ (if isEditor (terminalApp (this_settings st))
             then (exists text, notices st' = notices st ++ [text])
                  /\ exists pending, timers st' = timers st ++ [pending]
             else notices st' = notices st /\ timers st' = timers st)
     | Thrown _ =>
         notices st' = notices st /\ timers st' = timers st
         /\ ((execLog st' = execLog st
              /\ getProperty TERMINAL_APPS (terminalApp (this_settings st)) = Undefined)
             \/ exists call, execLog st' = execLog st ++ [call])
     end.
Proof.
  unfold openInTerminal, bind at 1, get. unfold bind at 1, ask.
  destruct (isEditor (terminalApp (this_settings st))) eqn:Eed.
  - destruct (isEditor_property _ Eed) as (config & open & Hprop & Hopen & Hdelay & _).
    rewrite Hprop. unfold handleCodeEditor, bind at 1, get.
    cbn [openCommandOf]. rewrite Hopen.
    unfold bind, execAsync, Notice, modify.
    destruct (exec_result env (execLog st) _ None); intros [= <- <-]; simpl.
    + split; [reflexivity|]. split; [reflexivity|]. split; [reflexivity|].
      right. eexists. reflexivity.
    + split; [reflexivity|]. split; [eexists; reflexivity|].
      split; eexists; reflexivity.
  - destruct (getProperty TERMINAL_APPS (terminalApp (this_settings st))) as [config|k|].
    + destruct (if isWin env then openCommandOf (OwnProperty config) else None) as [open|];
        unfold bind, execAsync, ret;
        destruct (exec_result env (execLog st) _ _); intros [= <- <-]; simpl;
        (split; [reflexivity|]);
        first [ split; [eexists; reflexivity|split; reflexivity]
              | split; [reflexivity|split; [reflexivity|right; eexists; reflexivity]] ].
    + destruct (if isWin env then openCommandOf (Inherited k) else None) as [open|];
        unfold bind, execAsync, ret;
        destruct (exec_result env (execLog st) _ _); intros [= <- <-]; simpl;
        (split; [reflexivity|]);
        first [ split; [eexists; reflexivity|split; reflexivity]
              | split; [reflexivity|split; [reflexivity|right; eexists; reflexivity]] ].
    + intros [= <- <-]. simpl. split; [reflexivity|]. split; [reflexivity|].
      split; [reflexivity|left; split; reflexivity].
Qed.



Lemma openClaudeCode_cached (env : Env) (st : State) :
  isDesktopApp env = true -> isWin env = true ->
  this_claudeInstalled st = Some true ->
  openClaudeCode env st
  = tryCatch
      (do _ <- (if String.eqb (terminalApp (this_settings st)) "custom"
                then executeCustomCommand (getWorkingDirectory (this_settings st) (app env))
                else openInTerminal (getWorkingDirectory (this_settings st) (app env)));
       do st' <- get;
       if negb (isEditor (terminalApp (this_settings st')))
       then Notice ("Opening Claude Code in: " +:+ displayPathOf (app env))
       else ret tt)
      (fun message => Notice ("Failed to open Claude Code: " +:+ message)) env st.
Proof.
  intros Hdesktop Hwin Hcached.
  unfold openClaudeCode, bind at 1, ask. rewrite Hdesktop, Hwin. cbn [negb orb].
  unfold bind at 1. rewrite (checkClaude_cached env st true Hcached). reflexivity.
Qed.

Lemma openClaudeCode_spawns (env : Env) (st st' : State) (o : Outcome unit) :
  isDesktopApp env = true -> isWin env = true ->
  this_claudeInstalled st = Some true ->
  openClaudeCode env st = (o, st') ->
  (exists calls,
     execLog st' = execLog st ++ calls /\ length calls <= 1
     /\ (calls = [] <->
         terminalApp (this_settings st) <> "custom"
         /\ getProperty TERMINAL_APPS (terminalApp (this_settings st)) = Undefined))
  /\ (exists pending,
        timers st' = timers st ++ pending /\ length pending <= 1
        /\ (pending <> [] -> isEditor (terminalApp (this_settings st)) = true)).
Proof.
  intros Hdesktop Hwin Hcached. rewrite (openClaudeCode_cached env st Hdesktop Hwin Hcached).
  unfold tryCatch, bind at 1.
  destruct (String.eqb (terminalApp (this_settings st)) "custom") eqn:Ecustom.
  - destruct (executeCustomCommand_effects
                (getWorkingDirectory (this_settings st) (app env)) env st)
      as (Hs & Hnot & Htim & Hlog).
    apply String.eqb_eq in Ecustom.
    assert (Hgoal : forall final,
              execLog final = execLog (snd (executeCustomCommand
                   (getWorkingDirectory (this_settings st) (app env)) env st)) ->
              timers final = timers (snd (executeCustomCommand
                   (getWorkingDirectory (this_settings st) (app env)) env st)) ->
              (exists calls, execLog final = execLog st ++ calls /\ length calls <= 1
                 /\ (calls = [] <-> terminalApp (this_settings st) <> "custom"
                      /\ getProperty TERMINAL_APPS (terminalApp (this_settings st)) = Undefined))
              /\ (exists pending, timers final = timers st ++ pending /\ length pending <= 1
                    /\ (pending <> [] -> isEditor (terminalApp (this_settings st)) = true))).
    { intros final Hl Ht. split.
      - eexists. split; [rewrite Hl; exact Hlog|]. split; [simpl; lia|].
        split; [discriminate|]. intros [Hne _]. contradiction.
      - exists []. split; [rewrite Ht, Htim, List.app_nil_r; reflexivity|].
        split; [simpl; lia|]. intros H; contradiction. }
    destruct (executeCustomCommand _ env st) as [[[]|e] st2]; simpl in *.
    + unfold bind, get. destruct (negb (isEditor (terminalApp (this_settings st2))));
        intros [= <- <-]; apply Hgoal; reflexivity.
    + intros [= <- <-]. apply Hgoal; reflexivity.
  - apply String.eqb_neq in Ecustom.
    destruct (openInTerminal _ env st) as [o2 st2] eqn:Eopen.
    destruct (openInTerminal_effects _ _ _ _ _ Eopen) as (Hs & Heff).
    destruct o2 as [[]|e]; simpl in *.
    + destruct Heff as ((call & Hcall) & Heff).
      assert (Hdefined : getProperty TERMINAL_APPS (terminalApp (this_settings st)) <> Undefined).
      { intros Hundef. rewrite (openInTerminal_undefined _ env st Hundef) in Eopen.
        discriminate. }
      unfold bind, get. rewrite Hs.
      destruct (isEditor (terminalApp (this_settings st))) eqn:Eed; simpl;
        intros [= <- <-]; simpl.
      * destruct Heff as (_ & pending & Hp). split.
        -- exists [call]. split; [exact Hcall|]. split; [simpl; lia|].
           split; [discriminate|]. intros [_ H]. contradiction.
        -- exists [pending]. split; [exact Hp|]. split; [simpl; lia|reflexivity].
      * destruct Heff as (_ & Htim). split.
        -- exists [call]. split; [exact Hcall|]. split; [simpl; lia|].
           split; [discriminate|]. intros [_ H]. contradiction.
        -- exists []. split; [rewrite Htim, List.app_nil_r; reflexivity|].
           split; [simpl; lia|]. intros H; contradiction.
    + destruct Heff as (_ & Htim & Hlog). intros [= <- <-]. simpl. split.
      * destruct Hlog as [[Hlog Hundef]|[call Hcall]].
        -- exists []. split; [rewrite Hlog, List.app_nil_r; reflexivity|].
           split; [simpl; lia|]. split; [intros _; split; assumption|reflexivity].
        -- exists [call]. split; [exact Hcall|]. split; [simpl; lia|].
           split; [discriminate|]. intros [_ Hundef].
           rewrite (openInTerminal_undefined _ env st Hundef) in Eopen.
           injection Eopen as _ <-. exfalso.
           apply (f_equal (@length _)) in Hcall. rewrite length_app in Hcall.
           simpl in Hcall. lia.
      * exists []. split; [rewrite Htim, List.app_nil_r; reflexivity|].
        split; [simpl; lia|]. intros H; contradiction.
Qed.

(** X9.  On Windows desktop, with the assistant known to be installed, a
    launch runs at most one process: none exactly when the terminal id
    is not [custom] and has no property in the table, one otherwise.  It
    schedules at most one automation, and only for the two editors. *)
Theorem openClaudeCode_single_spawn (env : Env) (st : State) :
  isDesktopApp env = true -> isWin env = true ->
  this_claudeInstalled st = Some true ->
  (exists calls,
     execLog (snd (openClaudeCode env st)) = execLog st ++ calls /\ length calls <= 1
     /\ (calls = [] <->
         terminalApp (this_settings st) <> "custom"
         /\ getProperty TERMINAL_APPS (terminalApp (this_settings st)) = Undefined))
  /\ (exists pending,
        timers (snd (openClaudeCode env st)) = timers st ++ pending /\ length pending <= 1
        /\ (pending <> [] -> isEditor (terminalApp (this_settings st)) = true)).
Proof.
  intros Hdesktop Hwin Hcached.
  destruct (openClaudeCode env st) as [o st'] eqn:E.
  apply (openClaudeCode_spawns env st st' o Hdesktop Hwin Hcached E).
Qed.

Lemma openClaudeCode_single_spawn_witness :
  let st := with_claudeInstalled (Some true)
              (newPlugin (set_terminalApp "vscode" DEFAULT_SETTINGS) 0) in
  (exists calls,
     execLog (snd (openClaudeCode env_all_present st)) = execLog st ++ calls
     /\ length calls <= 1
     /\ (calls = [] <->
         terminalApp (this_settings st) <> "custom"
         /\ getProperty TERMINAL_APPS (terminalApp (this_settings st)) = Undefined))
  /\ (exists pending,
        timers (snd (openClaudeCode env_all_present st)) = timers st ++ pending
        /\ length pending <= 1
        /\ (pending <> [] -> isEditor (terminalApp (this_settings st)) = true)).
Proof.
  intros st.
  apply (openClaudeCode_single_spawn env_all_present st eq_refl eq_refl eq_refl).
Defined.

Lemma ownProperty_getProperty {A} (table : list (string * A)) (k : string) (v : A) :
  ownProperty table k = Some v -> getProperty table k = OwnProperty v.
Proof. intros H. unfold getProperty. rewrite H. reflexivity. Qed.

(** X10.  A failing spawn is reported, not thrown.  With the custom
    command the notice carries the prefix of the custom branch; with a
    terminal of the table, editors included, it carries the message of the
    failed process, and no automation is scheduled. *)
Theorem openClaudeCode_reports_spawn_failure (env : Env) (st : State) (message : string) :
  isDesktopApp env = true -> isWin env = true ->
  this_claudeInstalled st = Some true ->
  let cwd := getWorkingDirectory (this_settings st) (app env) in
  let claudeCommand := buildClaudeCommand (this_settings st) in
  (terminalApp (this_settings st) = "custom" ->
   exec_result env (execLog st) (customCommandLine (this_settings st) cwd) (Some cwd)
   = inl message ->
   fst (openClaudeCode env st) = Ok tt
   /\ notices (snd (openClaudeCode env st))
      = notices st ++ ["Failed to open Claude Code: Custom command failed: " +:+ message])
  /\ (forall config open,
        ownProperty TERMINAL_APPS (terminalApp (this_settings st)) = Some config ->
        openCommand config = Some open ->
        exec_result env (execLog st) (open cwd claudeCommand) None = inl message ->
        fst (openClaudeCode env st) = Ok tt
        /\ notices (snd (openClaudeCode env st))
           = notices st ++ ["Failed to open Claude Code: " +:+ message]
        /\ timers (snd (openClaudeCode env st)) = timers st).
Proof.
  intros Hdesktop Hwin Hcached cwd claudeCommand.
  destruct (openClaudeCode env st) as [o st'] eqn:E.
  rewrite (openClaudeCode_cached env st Hdesktop Hwin Hcached) in E.
  unfold tryCatch, bind at 1 in E. fold cwd in E. cbn [fst snd]. split.
  - intros Hcustom Hfail.
    apply String.eqb_eq in Hcustom. rewrite Hcustom in E.
    rewrite executeCustomCommand_spawns in E. cbv zeta in E. rewrite Hfail in E.
    injection E as <- <-. split; reflexivity.
  - intros config open Hown Hopen Hfail.
    assert (Hnot : String.eqb (terminalApp (this_settings st)) "custom" = false).
    { apply String.eqb_neq. intros Heq. rewrite Heq in Hown. discriminate. }
    rewrite Hnot in E.
    unfold openInTerminal, bind at 1, get in E. unfold bind at 1, ask in E.
    rewrite (ownProperty_getProperty _ _ _ Hown) in E. fold claudeCommand in E.
    destruct (isEditor (terminalApp (this_settings st))).
    + unfold handleCodeEditor, bind at 1, get in E. cbn [openCommandOf] in E.
      rewrite Hopen in E. unfold bind at 1 in E. unfold execAsync in E.
      rewrite Hfail in E. injection E as <- <-. repeat split; reflexivity.
    + rewrite Hwin in E. cbn [openCommandOf] in E. rewrite Hopen in E.
      unfold bind at 1 in E. unfold execAsync in E.
      rewrite Hfail in E. injection E as <- <-. repeat split; reflexivity.
Qed.

Lemma openClaudeCode_reports_spawn_failure_witness :
  let st := with_claudeInstalled (Some true) (newPlugin DEFAULT_SETTINGS 0) in
  fst (openClaudeCode env_all_absent st) = Ok tt
  /\ notices (snd (openClaudeCode env_all_absent st))
     = notices st ++ ["Failed to open Claude Code: not found"]
  /\ timers (snd (openClaudeCode env_all_absent st)) = timers st.
Proof.
  intros st.
  destruct (openClaudeCode_reports_spawn_failure env_all_absent st "not found"
              eq_refl eq_refl eq_refl) as [_ H].
  eapply H; reflexivity.
Defined.

(** ** Editors and the activation delay *)








(** The launch was for Cursor; by the time the timer goes off the user has
    selected VS Code: the callback sends the chord of VS Code, and its
    failure notice still speaks of Cursor. *)
Example chord_follows_later_selection :
  let st := newPlugin (set_terminalApp "cursor" DEFAULT_SETTINGS) 0 in
  let st1 := snd (openInTerminal "C:\Vault" env_all_present st) in
  let st2 := with_settings (set_terminalApp "vscode" (this_settings st1)) st1 in
  exists pa,
    timers st1 = [pa]
    /\ execLog (snd (run (Async.automationCallback pa) env_all_absent st2))
       = execLog st1
           ++ [(Async.powerShellCommand (Async.automationScript true "claude"), None)]
    /\ notices (snd (run (Async.automationCallback pa) env_all_absent st2))
       = notices st1 ++ ["Failed to open terminal in Cursor. Please open it manually."].
Proof. eexists. vm_compute. repeat split; reflexivity. Qed.

Example parseInt_examples :
  JSExt.parseInt "1500" = Some 1500%Z
  /\ JSExt.parseInt "  2500ms" = Some 2500%Z
  /\ JSExt.parseInt "0x1F4" = Some 500%Z
  /\ JSExt.parseInt "-12" = Some (-12)%Z
  /\ JSExt.parseInt "1e4" = Some 1%Z
  /\ JSExt.parseInt "abc" = None
  /\ JSExt.parseInt EmptyString = None.
Proof. repeat split; reflexivity. Qed.

Lemma onChange_terminalDelay_cases (value : string) (env : Env) (st st' : State)
    (o : Outcome unit) :
  onChange_terminalDelay value env st = (o, st') ->
  (exists n, JSExt.parseInt value = Some n /\ (500 <= n <= 10000)%Z
             /\ this_settings st' = set_terminalDelay (Some n) (this_settings st))
  \/ ((forall n, JSExt.parseInt value = Some n -> (n < 500 \/ 10000 < n)%Z)
      /\ o = Ok tt /\ st' = st).
Proof.
  unfold onChange_terminalDelay. destruct (JSExt.parseInt value) as [n|].
  - destruct (Z.leb_spec 500 n); destruct (Z.leb_spec n 10000); cbn [andb].
    + unfold bind at 1, modifySettings, modify, saveSettings, bind, ask, get, throw.
      destruct (saveData_error env); intros [= <- <-]; left; exists n;
        (split; [reflexivity|]); (split; [lia|reflexivity]).
    + intros [= <- <-]. right. split; [|split; reflexivity].
      intros m [= <-]. lia.
    + intros [= <- <-]. right. split; [|split; reflexivity].
      intros m [= <-]. lia.
    + intros [= <- <-]. right. split; [|split; reflexivity].
      intros m [= <-]. lia.
  - intros [= <- <-]. right. split; [|split; reflexivity]. intros m H. discriminate.
Qed.

(** X12.  The delay field accepts a text only when [parseInt] reads a
    number from 500 to 10000 from it; any other text, a number out of
    range included, changes nothing.  So a delay that is unset or in range
    stays so whatever is typed. *)
Theorem onChange_terminalDelay_keeps_range (value : string) (env : Env) (st : State) :
  delayInRange (this_settings st) ->
  let r := onChange_terminalDelay value env st in
  delayInRange (this_settings (snd r))
  /\ ((forall n, JSExt.parseInt value = Some n -> (n < 500 \/ 10000 < n)%Z) ->
      r = (Ok tt, st))
  /\ (forall n, JSExt.parseInt value = Some n -> (500 <= n <= 10000)%Z ->
      terminalDelay (this_settings (snd r)) = Some n).
Proof.
  intros Hrange r. subst r.
  destruct (onChange_terminalDelay value env st) as [o st'] eqn:E.
  apply onChange_terminalDelay_cases in E. cbn [fst snd].
  destruct E as [(n & Hn & Hin & Hs)|(Hout & -> & ->)].
  - split; [rewrite Hs; unfold delayInRange; simpl; exact Hin|]. split.
    + intros Hall. specialize (Hall n Hn). lia.
    + intros m Hm _. rewrite Hm in Hn. injection Hn as ->. rewrite Hs. reflexivity.
  - split; [exact Hrange|]. split; [reflexivity|].
    intros n Hn Hin. specialize (Hout n Hn). lia.
Qed.

Lemma onChange_terminalDelay_keeps_range_witness :
  delayInRange
    (this_settings (snd (onChange_terminalDelay "99999" env_all_present
                           (newPlugin DEFAULT_SETTINGS 0)))).
Proof.
  apply (onChange_terminalDelay_keeps_range "99999" env_all_present
           (newPlugin DEFAULT_SETTINGS 0)).
  unfold delayInRange. simpl. lia.
Defined.

(** ** Detection *)

Lemma firstExistingPath_ran (paths : list string) (env : Env) (st st' : State)
    (o : Outcome (option string)) :
  firstExistingPath paths env st = (o, st') ->
  (exists r, o = Ok r /\ forall p, r = Some p -> In p paths)
  /\ (exists calls, execLog st' = execLog st ++ calls /\ length calls <= length paths)
  /\ (allFail env -> o = Ok None).
Proof.
  revert st. induction paths as [|path rest IH]; intros st; cbn [firstExistingPath].
  - intros [= <- <-]. split; [exists None; split; [reflexivity|discriminate]|].
    split; [exists []; rewrite List.app_nil_r; split; [reflexivity|simpl; lia]|reflexivity].
  - unfold bind at 1. unfold tryCatch, bind at 1. unfold execAsync.
    set (st1 := with_exec (testPathCommand path, None) _ st).
    assert (Hrec : firstExistingPath rest env st1 = (o, st') ->
              (exists r, o = Ok r /\ forall p, r = Some p -> In p (path :: rest))
              /\ (exists calls, execLog st' = execLog st ++ calls
                                /\ length calls <= length (path :: rest))
              /\ (allFail env -> o = Ok None)).
    { intros H. apply IH in H. destruct H as ((r & -> & Hin) & (calls & Hlog & Hlen) & Hfail).
      split; [exists r; split; [reflexivity|intros p Hp; right; apply Hin, Hp]|].
      split; [|exact Hfail].
      exists ((testPathCommand path, None) :: calls). split.
      - rewrite Hlog. simpl. rewrite <- List.app_assoc. reflexivity.
      - simpl. lia. }
    destruct (exec_result env (execLog st) (testPathCommand path) None) as [e|stdout] eqn:Eexec.
    + unfold ret. exact Hrec.
    + unfold ret. destruct (String.eqb (JS.trim stdout) "True"); [|exact Hrec].
      intros [= <- <-]. split; [exists (Some path); split; [reflexivity|]|].
      { intros p [= <-]. left. reflexivity. }
      split.
      * exists [(testPathCommand path, None)]. split; [reflexivity|simpl; lia].
      * intros Hfail. destruct (Hfail (execLog st) (testPathCommand path) None) as [m Hm].
        rewrite Hm in Eexec. discriminate.
Qed.

Lemma app_not_empty (s t : string) : t <> EmptyString -> s +:+ t <> EmptyString.
Proof.
  intros Ht H. destruct s; [rewrite app_nil_l in H; contradiction|].
  rewrite app_cons in H. discriminate.
Qed.

Lemma detectClaudePath_result (env : Env) (st st' : State) (o : Outcome (option string)) :
  detectClaudePath env st = (o, st') ->
  (exists r, o = Ok r /\ forall p, r = Some p -> p <> EmptyString)
  /\ (exists calls, execLog st' = execLog st ++ ("where claude", None) :: calls
                    /\ length calls <= 5)
  /\ (allFail env -> o = Ok None).
Proof.
  unfold detectClaudePath. unfold tryCatch at 1. unfold bind at 1.
  unfold tryCatch at 1. unfold bind at 1. unfold execAsync.
  set (st1 := with_exec ("where claude", None) _ st).
  assert (Hloop : forall (o' : Outcome (option string)) st2,
            (do env' <- ask;
             firstExistingPath [
               "claude"; "claude.exe";
               envText env' "USERPROFILE" +:+ "\AppData\Local\Programs\Claude\claude.exe";
               envText env' "PROGRAMFILES" +:+ "\Claude\claude.exe";
               envText env' "PROGRAMFILES_X86" +:+ "\Claude\claude.exe" ]) env st1 = (o', st2) ->
            (exists r, o' = Ok r /\ forall p, r = Some p -> p <> EmptyString)
            /\ (exists calls, execLog st2 = execLog st ++ ("where claude", None) :: calls
                              /\ length calls <= 5)
            /\ (allFail env -> o' = Ok None)).
  { intros o' st2. unfold bind, ask. intros H. apply firstExistingPath_ran in H.
    destruct H as ((r & -> & Hin) & (calls & Hlog & Hlen) & Hfail).
    split; [exists r; split; [reflexivity|]|].
    { intros p Hp. specialize (Hin p Hp). simpl in Hin.
      destruct Hin as [<-|[<-|[<-|[<-|[<-|[]]]]]];
        try discriminate; apply app_not_empty; discriminate. }
    split; [|exact Hfail].
    exists calls. split; [|exact Hlen].
    rewrite Hlog. simpl. rewrite <- List.app_assoc. reflexivity. }
  destruct (exec_result env (execLog st) "where claude" None) as [e|stdout] eqn:Eexec.
  - unfold ret at 1. cbv beta iota.
    match goal with
    | |- (let (_, _) := ?r in _) = _ -> _ => destruct r as [o2 st2] eqn:E
    end.
    destruct (Hloop _ _ eq_refl) as ((r & -> & Hr) & Hlog & Hfail).
    intros [= <- <-]. split; [exists r; split; [reflexivity|exact Hr]|].
    split; [exact Hlog|exact Hfail].
  - cbv beta iota. unfold ret at 1.
    destruct (JS.firstLine (JS.trim stdout)) as [|c path] eqn:Epath; cbn [JS.truthy].
    + match goal with
      | |- (let (_, _) := ?r in _) = _ -> _ => destruct r as [o2 st2] eqn:E
      end.
      destruct (Hloop _ _ eq_refl) as ((r & -> & Hr) & Hlog & Hfail).
      intros [= <- <-]. split; [exists r; split; [reflexivity|exact Hr]|].
      split; [exact Hlog|exact Hfail].
    + unfold ret. intros [= <- <-].
      split; [exists (Some (String c path)); split; [reflexivity|]|].
      { intros p [= <-]. discriminate. }
      split.
      * exists []. split; [reflexivity|simpl; lia].
      * intros Hfail. destruct (Hfail (execLog st) "where claude" None) as [m Hm].
        rewrite Hm in Eexec. discriminate.
Qed.

(** X13.  [detectClaudePath] never throws.  A path it returns is never
    empty.  It runs the shell lookup first and then at most five path
    tests, six processes at most; and when every process fails it answers
    that nothing was found. *)
Theorem detectClaudePath_bounded (env : Env) (st : State) :
  let r := detectClaudePath env st in
  (exists found, fst r = Ok found /\ forall p, found = Some p -> p <> EmptyString)
  /\ (exists calls, execLog (snd r) = execLog st ++ ("where claude", None) :: calls
                    /\ length calls <= 5)
  /\ (allFail env -> fst r = Ok None).
Proof.
  intros r. subst r. destruct (detectClaudePath env st) as [o st'] eqn:E.
  apply detectClaudePath_result in E. exact E.
Qed.

Lemma allFail_all_absent : allFail env_all_absent.
Proof. intros log command cwd. exists "not found". reflexivity. Qed.

Lemma detectClaudePath_bounded_witness :
  fst (detectClaudePath env_all_absent (newPlugin DEFAULT_SETTINGS 0)) = Ok None.
Proof.
  apply (detectClaudePath_bounded env_all_absent (newPlugin DEFAULT_SETTINGS 0)).
  exact allFail_all_absent.
Defined.

Lemma checkClaude_autodetect (env : Env) (st st1 : State) (p : string) :
  this_claudeInstalled st = None ->
  useCustomClaudePath (this_settings st) = false ->
  detectClaudePath env st = (Ok (Some p), st1) ->
  checkClaudeCodeInstallation env st
  = match saveData_error env with
    | None =>
        (Ok true,
         with_claudeInstalled (Some true)
           (with_saved (set_claudeCodePath p (this_settings st1))
              (with_settings (set_claudeCodePath p (this_settings st1)) st1)))
    | Some _ =>
        (Ok false,
         with_claudeInstalled (Some false)
           (with_settings (set_claudeCodePath p (this_settings st1)) st1))
    end.
Proof.
  intros Hnone Hcustom Hdetect.
  assert (Hp : JS.truthy p = true).
  { apply detectClaudePath_result in Hdetect.
    destruct Hdetect as ((r & [= <-] & Hr) & _).
    specialize (Hr p eq_refl). destruct p; [contradiction|reflexivity]. }
  unfold checkClaudeCodeInstallation, bind at 1, get. rewrite Hnone, Hcustom.
  unfold tryCatch, bind at 1. rewrite Hdetect. cbn [from_option id]. rewrite Hp.
  unfold bind, modify, saveSettings, bind, ask, get, throw, ret.
  destruct (saveData_error env); reflexivity.
Qed.

(** X14.  When auto-detection finds the executable, the detected path is
    written to the settings.  The check then answers true only if saving
    the settings succeeds; if saving fails it answers false and keeps that
    answer, although the path was found and remains in the settings. *)
Theorem checkClaude_autodetect_saves (env : Env) (st : State) (p : string) :
  this_claudeInstalled st = None ->
  useCustomClaudePath (this_settings st) = false ->
  fst (detectClaudePath env st) = Ok (Some p) ->
  let detected := snd (detectClaudePath env st) in
  let r := checkClaudeCodeInstallation env st in
  claudeCodePath (this_settings (snd r)) = p
  /\ match saveData_error env with
     | None =>
         fst r = Ok true /\ this_claudeInstalled (snd r) = Some true
         /\ savedData (snd r)
            = savedData detected ++ [set_claudeCodePath p (this_settings detected)]
     | Some _ =>
         fst r = Ok false /\ this_claudeInstalled (snd r) = Some false
         /\ savedData (snd r) = savedData detected
     end.
Proof.
  intros Hnone Hcustom Hfound detected r. subst detected r.
  destruct (detectClaudePath env st) as [o st1] eqn:Hdetect. simpl in Hfound. subst o.
  rewrite (checkClaude_autodetect env st st1 p Hnone Hcustom Hdetect).
  destruct (saveData_error env); simpl; repeat split; reflexivity.
Qed.

Lemma checkClaude_autodetect_saves_witness :
  let env := {| exec_result := fun _ _ _ => inr "C:\bin\claude.exe";
                exec_duration := fun _ _ => 0%Z;
                process_env := fun _ => None;
                saveData_error := Some "disk full";
                isDesktopApp := true; isWin := true;
                app := {| adapterBasePath := None; activeFile := None |} |} in
  let r := checkClaudeCodeInstallation env (newPlugin DEFAULT_SETTINGS 0) in
  claudeCodePath (this_settings (snd r)) = "C:\bin\claude.exe"
  /\ fst r = Ok false /\ this_claudeInstalled (snd r) = Some false
  /\ savedData (snd r) = [].
Proof.
  intros env.
  apply (checkClaude_autodetect_saves env (newPlugin DEFAULT_SETTINGS 0) "C:\bin\claude.exe");
    reflexivity.
Defined.

(** ** Probe errors *)

Lemma probeCommonPaths_allFail (executable : string) (paths : list string)
    (env : Env) (st : State) :
  allFail env ->
  exists st', probeCommonPaths executable paths env st = (Ok false, st')
              /\ terminalAppCache st' = terminalAppCache st.
Proof.
  intros Hfail. revert st. induction paths as [|path rest IH]; intros st; cbn [probeCommonPaths].
  - exists st. split; reflexivity.
  - unfold bind at 1. unfold tryCatch, bind at 1. unfold execAsync.
    destruct (Hfail (execLog st) (testPathCommand path) None) as [m Hm]. rewrite Hm.
    unfold ret.
    destruct (IH (with_exec (testPathCommand path, None)
                    (exec_duration env (execLog st) (testPathCommand path)) st))
      as (st' & Hrun & Hcache).
    exists st'. split; [exact Hrun|exact Hcache].
Qed.

Lemma probeTerminalApp_allFail (executable : string) (env : Env) (st : State) :
  allFail env ->
  exists st', probeTerminalApp executable env st = (Ok false, st')
              /\ terminalAppCache st' !! executable = Some (false, clock st').
Proof.
  intros Hfail. unfold probeTerminalApp.
  unfold tryCatch at 1. unfold bind at 1. unfold tryCatch at 1. unfold bind at 1.
  unfold execAsync.
  destruct (Hfail (execLog st) ("where " +:+ executable) None) as [m Hm]. rewrite Hm.
  unfold ret at 1. cbv beta iota. unfold bind at 1, ask. unfold bind at 1.
  match goal with
  | |- context [probeCommonPaths executable ?l env ?s] =>
      destruct (probeCommonPaths_allFail executable l env s Hfail) as (st' & Hrun & _)
  end.
  rewrite Hrun. unfold bind, cacheSet, DateNow, get, modify, ret. cbn [fst snd].
  eexists. split; [reflexivity|]. apply lookup_insert_eq.
Qed.

(** X15.  Errors of the probing processes count as absence.  When every
    process fails: a path is not verified, a first installation check
    answers false, and a terminal without a fresh cache entry is reported
    as not installed, with that answer recorded. *)
Theorem failing_probes_mean_absent (env : Env) (st : State) :
  allFail env ->
  (forall path, fst (verifyClaudePath path env st) = Ok false)
  /\ (this_claudeInstalled st = None ->
      fst (checkClaudeCodeInstallation env st) = Ok false
      /\ this_claudeInstalled (snd (checkClaudeCodeInstallation env st)) = Some false)
  /\ (forall executable,
        isWin env = true -> terminalAppCache st !! executable = None ->
        let r := checkTerminalAppInstalled executable env st in
        fst r = Ok false
        /\ terminalAppCache (snd r) !! executable = Some (false, clock (snd r))).
Proof.
  intros Hfail. split; [|split].
  - intros path. unfold verifyClaudePath. destruct (negb (JS.truthy path)); [reflexivity|].
    unfold tryCatch, bind, execAsync.
    destruct (Hfail (execLog st) (testPathCommand path) None) as [m ->]. reflexivity.
  - intros Hnone. destruct (checkClaudeCodeInstallation env st) as [o st'] eqn:E.
    cbn [fst snd]. unfold checkClaudeCodeInstallation, bind at 1, get in E.
    rewrite Hnone in E. unfold tryCatch in E.
    destruct (useCustomClaudePath (this_settings st)).
    + unfold bind at 1 in E. unfold verifyClaudePath in E.
      destruct (negb (JS.truthy (claudeCodePath (this_settings st)))).
      { injection E as <- <-. split; reflexivity. }
      unfold tryCatch, bind, execAsync in E.
      destruct (Hfail (execLog st) (testPathCommand (claudeCodePath (this_settings st))) None)
        as [m Hm]. rewrite Hm in E. injection E as <- <-. split; reflexivity.
    + unfold bind at 1 in E. destruct (detectClaudePath env st) as [o1 st1] eqn:Hdetect.
      apply detectClaudePath_result in Hdetect. destruct Hdetect as (_ & _ & Hnothing).
      rewrite (Hnothing Hfail) in E. injection E as <- <-. split; reflexivity.
  - intros executable Hwin Hmiss r. subst r.
    rewrite (checkTerminal_no_entry _ _ _ Hwin Hmiss).
    destruct (probeTerminalApp_allFail executable env st Hfail) as (st' & -> & Hentry).
    split; [reflexivity|exact Hentry].
Qed.

Lemma failing_probes_mean_absent_witness :
  fst (verifyClaudePath "C:\tools\claude.exe" env_all_absent (newPlugin DEFAULT_SETTINGS 0))
  = Ok false.
Proof.
  destruct (failing_probes_mean_absent env_all_absent (newPlugin DEFAULT_SETTINGS 0)
              allFail_all_absent) as (Hverify & _).
  apply Hverify.
Defined.

(** ** The terminal cache: one key at a time *)

Lemma probeCommonPaths_writes (executable : string) (paths : list string)
    (env : Env) (st st' : State) (o : Outcome bool) :
  probeCommonPaths executable paths env st = (o, st') ->
  (o = Ok true
   /\ terminalAppCache st' = <[executable := (true, clock st')]> (terminalAppCache st))
  \/ (o = Ok false /\ terminalAppCache st' = terminalAppCache st).
Proof.
  revert st. induction paths as [|path rest IH]; intros st; cbn [probeCommonPaths].
  - intros [= <- <-]. right. split; reflexivity.
  - unfold bind, tryCatch, execAsync, cacheSet, DateNow, get, modify, ret.
    destruct (exec_result env (execLog st) (testPathCommand path) None) as [e|stdout].
    + intros H. apply IH in H. exact H.
    + destruct (String.eqb (JS.trim stdout) "True").
      * intros [= <- <-]. left. split; reflexivity.
      * intros H. apply IH in H. exact H.
Qed.

Lemma probeTerminalApp_writes (executable : string) (env : Env) (st st' : State)
    (o : Outcome bool) :
  probeTerminalApp executable env st = (o, st') ->
  exists b, o = Ok b
            /\ terminalAppCache st' = <[executable := (b, clock st')]> (terminalAppCache st).
Proof.
  unfold probeTerminalApp.
  unfold tryCatch at 1. unfold bind at 1. unfold tryCatch at 1. unfold bind at 1.
  unfold execAsync.
  set (st1 := with_exec ("where " +:+ executable, None) _ st).
  assert (Hrest : forall paths o2 st2,
            (do found <- probeCommonPaths executable paths;
             if found then ret true
             else do _ <- cacheSet executable false; ret false) env st1 = (o2, st2) ->
            exists b, o2 = Ok b
                      /\ terminalAppCache st2
                         = <[executable := (b, clock st2)]> (terminalAppCache st)).
  { intros paths o2 st2. unfold bind at 1.
    destruct (probeCommonPaths executable paths env st1) as [found st3] eqn:E.
    apply probeCommonPaths_writes in E. destruct E as [[-> Hc]|[-> Hc]].
    - intros [= <- <-]. exists true. split; [reflexivity|exact Hc].
    - unfold bind, cacheSet, DateNow, get, modify, ret. intros [= <- <-].
      exists false. split; [reflexivity|]. simpl. rewrite Hc. reflexivity. }
  destruct (exec_result env (execLog st) ("where " +:+ executable) None) as [e|stdout].
  - cbv beta iota. unfold ret at 1. unfold bind at 1, ask.
    match goal with
    | |- (let (_, _) := ?r in _) = _ -> _ => destruct r as [o2 st2] eqn:E
    end.
    destruct (Hrest _ _ _ E) as (b & -> & Hc).
    intros [= <- <-]. exists b. split; [reflexivity|exact Hc].
  - cbv beta iota. destruct (JS.truthy (JS.trim stdout)).
    + unfold bind, cacheSet, DateNow, get, modify, ret. intros [= <- <-].
      exists true. split; reflexivity.
    + unfold ret at 1. unfold bind at 1, ask.
      match goal with
      | |- (let (_, _) := ?r in _) = _ -> _ => destruct r as [o2 st2] eqn:E
      end.
      destruct (Hrest _ _ _ E) as (b & -> & Hc).
      intros [= <- <-]. exists b. split; [reflexivity|exact Hc].
Qed.

Lemma checkTerminal_writes (executable : string) (env : Env) (st st' : State)
    (o : Outcome bool) :
  isWin env = true ->
  checkTerminalAppInstalled executable env st = (o, st') ->
  exists b ts,
    o = Ok b
    /\ terminalAppCache st' !! executable = Some (b, ts)
    /\ (terminalAppCache st' = terminalAppCache st
        \/ terminalAppCache st' = <[executable := (b, ts)]> (terminalAppCache st)).
Proof.
  intros Hwin.
  destruct (terminalAppCache st !! executable) as [[installed timestamp]|] eqn:Hentry.
  - destruct (Z_lt_ge_dec (clock st - timestamp) CACHE_DURATION) as [Hfresh|Hstale].
    + rewrite (checkTerminal_fresh_entry _ _ _ _ _ Hwin Hentry Hfresh).
      intros [= <- <-]. exists installed, timestamp.
      split; [reflexivity|]. split; [exact Hentry|left; reflexivity].
    + rewrite (checkTerminal_stale_entry _ _ _ _ _ Hwin Hentry Hstale).
      intros H. apply probeTerminalApp_writes in H. destruct H as (b & -> & Hc).
      exists b, (clock st'). split; [reflexivity|].
      split; [rewrite Hc; apply lookup_insert_eq|right; exact Hc].
  - rewrite (checkTerminal_no_entry _ _ _ Hwin Hentry).
    intros H. apply probeTerminalApp_writes in H. destruct H as (b & -> & Hc).
    exists b, (clock st'). split; [reflexivity|].
    split; [rewrite Hc; apply lookup_insert_eq|right; exact Hc].
Qed.

(** X16.  On Windows a terminal check always answers, its answer is the
    one found in the cache under the terminal's key afterwards, and the
    entries of all other keys are left as they were. *)
Theorem checkTerminalAppInstalled_own_entry (executable : string) (env : Env) (st : State) :
  isWin env = true ->
  let r := checkTerminalAppInstalled executable env st in
  exists b ts,
    fst r = Ok b
    /\ terminalAppCache (snd r) !! executable = Some (b, ts)
    /\ forall other, other <> executable ->
         terminalAppCache (snd r) !! other = terminalAppCache st !! other.
Proof.
  intros Hwin r. subst r.
  destruct (checkTerminalAppInstalled executable env st) as [o st'] eqn:E.
  destruct (checkTerminal_writes _ _ _ _ _ Hwin E) as (b & ts & -> & Hentry & Hcache).
  exists b, ts. split; [reflexivity|]. split; [exact Hentry|].
  intros other Hother. cbn [snd]. destruct Hcache as [-> | ->]; [reflexivity|].
  apply lookup_insert_ne. congruence.
Qed.

Lemma checkTerminalAppInstalled_own_entry_witness :
  exists b ts,
    fst (checkTerminalAppInstalled "wt.exe" env_all_absent st_wt_cached) = Ok b
    /\ terminalAppCache (snd (checkTerminalAppInstalled "wt.exe" env_all_absent st_wt_cached))
         !! "wt.exe" = Some (b, ts)
    /\ forall other, other <> "wt.exe" ->
         terminalAppCache (snd (checkTerminalAppInstalled "wt.exe" env_all_absent st_wt_cached))
           !! other = terminalAppCache st_wt_cached !! other.
Proof.
  apply (checkTerminalAppInstalled_own_entry "wt.exe" env_all_absent st_wt_cached eq_refl).
Defined.




(** ** The terminal dropdown *)

Lemma settings_frame (s : OpenInClaudeCodeSettings) :
  (forall call elapsed st, this_settings st = s -> this_settings (with_exec call elapsed st) = s)
  /\ (forall v st, this_settings st = s -> this_settings (with_cache v st) = s)
  /\ (forall text st, this_settings st = s -> this_settings (with_notice text st) = s)
  /\ (forall v st, this_settings st = s -> this_settings (with_saved v st) = s).
Proof. repeat split; intros; assumption. Qed.

Lemma collectInstalled_result (entries : list (string * TerminalConfig))
    (acc : list (string * string)) (env : Env) (st st' : State)
    (o : Outcome (list (string * string))) :
  collectInstalled entries acc env st = (o, st') ->
  this_settings st' = this_settings st
  /\ exists found,
       o = Ok (acc ++ found)
       /\ found `sublist_of` map (fun e => (e.1, config_name e.2)) entries.
Proof.
  revert acc st o st'. induction entries as [|[key config] rest IH]; intros acc st o st'.
  - cbn [collectInstalled]. intros [= <- <-]. split; [reflexivity|].
    exists []. rewrite List.app_nil_r. split; [reflexivity|constructor].
  - destruct (settings_frame (this_settings st)) as (F1 & F2 & _).
    cbn [collectInstalled]. unfold bind at 1, ask.
    assert (Hin : forall st1 o' st2,
              this_settings st1 = this_settings st ->
              collectInstalled rest (acc ++ [(key, config_name config)]) env st1 = (o', st2) ->
              this_settings st2 = this_settings st
              /\ exists found,
                   o' = Ok (acc ++ found)
                   /\ found `sublist_of` map (fun e => (e.1, config_name e.2))
                                         ((key, config) :: rest)).
    { intros st1 o' st2 Hs H.
      apply IH in H. destruct H as (Hs' & found & -> & Hsub).
      split; [congruence|].
      exists ((key, config_name config) :: found). split.
      - rewrite <- List.app_assoc. reflexivity.
      - cbn [map fst snd]. apply sublist_skip, Hsub. }
    assert (Hout : forall st1 o' st2,
              this_settings st1 = this_settings st ->
              collectInstalled rest acc env st1 = (o', st2) ->
              this_settings st2 = this_settings st
              /\ exists found,
                   o' = Ok (acc ++ found)
                   /\ found `sublist_of` map (fun e => (e.1, config_name e.2))
                                         ((key, config) :: rest)).
    { intros st1 o' st2 Hs H.
      apply IH in H. destruct H as (Hs' & found & -> & Hsub).
      split; [congruence|].
      exists found. split; [reflexivity|]. cbn [map fst snd]. apply sublist_cons, Hsub. }
    destruct ((String.eqb key "cmd" || String.eqb key "powershell") && isWin env).
    + apply Hin. reflexivity.
    + unfold bind at 1.
      pose proof (stable_checkTerminalAppInstalled (fun x => this_settings x = this_settings st)
                    F1 F2 (executableName config) env st eq_refl) as Hs.
      destruct (total_checkTerminalAppInstalled (executableName config) env st) as [b Hb].
      destruct (checkTerminalAppInstalled (executableName config) env st) as [o1 st1].
      simpl in Hb, Hs. subst o1. destruct b; [apply Hin|apply Hout]; exact Hs.
Qed.

(** X18.  On Windows the list of available terminals always starts with
    Command Prompt and PowerShell, whatever the probes answer; the rest is
    a selection, in the table's order, of the three other terminals; and
    the settings are not touched. *)
Theorem checkInstalledTerminalApps_builtins (env : Env) (st : State) :
  isWin env = true ->
  let r := checkInstalledTerminalApps env st in
  this_settings (snd r) = this_settings st
  /\ exists others,
       fst r = Ok (("cmd", "Command Prompt") :: ("powershell", "PowerShell") :: others)
       /\ others `sublist_of` [ ("windowsterminal", "Windows Terminal");
                                ("vscode", "VS Code"); ("cursor", "Cursor") ].
Proof.
  intros Hwin r. subst r.
  destruct (checkInstalledTerminalApps env st) as [o st'] eqn:E. cbn [fst snd].
  unfold checkInstalledTerminalApps, TERMINAL_APPS in E.
  match type of E with
  | collectInstalled (?e1 :: ?e2 :: ?tl) [] env st = _ => remember tl as others eqn:Hothers
  end.
  cbn [collectInstalled] in E. unfold bind at 1, ask in E. rewrite Hwin in E.
  change ((String.eqb "cmd" "cmd" || String.eqb "cmd" "powershell") && true) with true in E.
  cbv iota in E. unfold bind at 1, ask in E. rewrite Hwin in E.
  change ((String.eqb "powershell" "cmd" || String.eqb "powershell" "powershell") && true)
    with true in E.
  cbv iota in E. cbn [app config_name] in E.
  apply collectInstalled_result in E. destruct E as (Hs & found & -> & Hsub).
  split; [exact Hs|]. exists found. split; [reflexivity|].
  subst others. exact Hsub.
Qed.

Lemma checkInstalledTerminalApps_builtins_witness :
  exists others,
    fst (checkInstalledTerminalApps env_all_absent (newPlugin DEFAULT_SETTINGS 0))
    = Ok (("cmd", "Command Prompt") :: ("powershell", "PowerShell") :: others)
    /\ others `sublist_of` [ ("windowsterminal", "Windows Terminal");
                             ("vscode", "VS Code"); ("cursor", "Cursor") ].
Proof.
  apply (checkInstalledTerminalApps_builtins env_all_absent (newPlugin DEFAULT_SETTINGS 0)
           eq_refl).
Defined.

(** X19.  When the list of installed terminals arrives, the callback of
    the dropdown keeps the selected terminal if it is [custom] or if
    looking it up in the list gives a truthy value: an own key with a
    non-empty name, or a name inherited from [Object.prototype] such as
    [constructor].  Any other selection is replaced by the first key of
    the list ([cmd] on Windows, where the list starts with it, and when
    the list is empty), and a save of the changed settings is started and
    not awaited.  Nothing else changes. *)
Theorem display_repairs_selection (availableApps : list (string * string))
    (env : Env) (st : State) :
  let current := terminalApp (this_settings st) in
  let r := advance (Async.onAvailableApps availableApps) env st in
  (current = "custom" \/ truthyProperty (getProperty availableApps current) = true ->
   r = (st, [], Done (Ok tt)))
  /\ (current <> "custom" ->
      truthyProperty (getProperty availableApps current) = false ->
      let repaired := set_terminalApp (Async.firstKey availableApps) (this_settings st) in
      r.1.1 = with_settings repaired st
      /\ r.2 = Done (Ok tt)
      /\ (exists k, r.1.2 = [ForSave repaired k])
      /\ (availableApps = [] \/ (exists others,
            availableApps = ("cmd", "Command Prompt") :: others) ->
          terminalApp repaired = "cmd")).
Proof.
  cbv zeta. unfold Async.onAvailableApps. cbn [tbind sync advance get fst snd]. split.
  - intros [Hcustom | Htruthy].
    + rewrite Hcustom. reflexivity.
    + rewrite Htruthy. rewrite andb_false_r. reflexivity.
  - intros Hcustom Hfalsy.
    apply String.eqb_neq in Hcustom. rewrite Hcustom, Hfalsy.
    cbn [negb andb tbind sync advance modifySettings modify fst snd Async.saveSettings app].
    split; [reflexivity|]. split; [reflexivity|]. split; [eexists; reflexivity|].
    intros [-> | [others ->]]; reflexivity.
Qed.

Lemma display_repairs_selection_witness :
  let st := newPlugin (set_terminalApp "foo" DEFAULT_SETTINGS) 0 in
  let availableApps := [("cmd", "Command Prompt"); ("powershell", "PowerShell")] in
  terminalApp
    (this_settings (advance (Async.onAvailableApps availableApps) env_all_absent st).1.1)
  = "cmd".
Proof.
  intros st availableApps.
  destruct (display_repairs_selection availableApps env_all_absent st) as [_ Hrepair].
  destruct (Hrepair ltac:(discriminate) eq_refl) as (Hstate & _ & _ & Hcmd).
  rewrite Hstate. apply Hcmd. right. eexists. reflexivity.
Defined.

(** A selection that is a name of [Object.prototype] is kept, although no
    terminal of that name exists. *)
Example display_keeps_inherited_name :
  let st := newPlugin (set_terminalApp "constructor" DEFAULT_SETTINGS) 0 in
  advance (Async.onAvailableApps [("cmd", "Command Prompt"); ("powershell", "PowerShell")])
    env_all_absent st
  = (st, [], Done (Ok tt)).
Proof. reflexivity. Qed.

(** ** Tool permissions *)

Lemma arrayIncludes_In (tool : string) (tools : list string) :
  arrayIncludes tool tools = true <-> In tool tools.
Proof.
  unfold arrayIncludes. rewrite existsb_exists. split.
  - intros (x & Hin & Heq). apply String.eqb_eq in Heq. subst x. exact Hin.
  - intros Hin. exists tool. split; [exact Hin|apply String.eqb_refl].
Qed.

Lemma arrayWithout_In (tool other : string) (tools : list string) :
  In other (arrayWithout tool tools) <-> In other tools /\ other <> tool.
Proof.
  unfold arrayWithout. rewrite filter_In. split; intros [Hin H]; split; try exact Hin.
  - apply negb_true_iff, String.eqb_neq in H. exact H.
  - apply negb_true_iff, String.eqb_neq. exact H.
Qed.

Lemma ensureAllowedTools_value (s : OpenInClaudeCodeSettings) :
  allowedTools (ensureAllowedTools s) = Some (from_option id [] (allowedTools s))
  /\ deniedTools (ensureAllowedTools s) = deniedTools s.
Proof.
  unfold ensureAllowedTools. destruct (allowedTools s) as [tools|] eqn:E.
  - rewrite E. split; reflexivity.
  - split; reflexivity.
Qed.

Lemma toggle_on_allowed (tool : string) (s : OpenInClaudeCodeSettings) :
  let before := from_option id [] (allowedTools s) in
  allowedTools (assignToolToggle tool true s)
  = Some (if arrayIncludes tool before then before else before ++ [tool]).
Proof.
  cbv zeta. unfold assignToolToggle. cbv zeta.
  destruct (ensureAllowedTools_value s) as [Ha Hd]. rewrite Ha. cbn [from_option id].
  destruct (arrayIncludes tool (from_option id [] (allowedTools s))).
  - rewrite Hd. destruct (deniedTools s) as [denied|]; [|exact Ha].
    destruct (arrayIncludes tool denied); [cbn [allowedTools set_deniedTools]|]; exact Ha.
  - cbn [deniedTools set_allowedTools]. rewrite Hd.
    destruct (deniedTools s) as [denied|]; [|reflexivity].
    destruct (arrayIncludes tool denied); reflexivity.
Qed.

Lemma toggle_on_denied (tool : string) (s : OpenInClaudeCodeSettings) :
  deniedTools (assignToolToggle tool true s)
  = match deniedTools s with
    | Some denied => Some (if arrayIncludes tool denied then arrayWithout tool denied else denied)
    | None => None
    end.
Proof.
  unfold assignToolToggle. cbv zeta.
  destruct (ensureAllowedTools_value s) as [Ha Hd]. rewrite Ha. cbn [from_option id].
  destruct (arrayIncludes tool (from_option id [] (allowedTools s)));
    cbn [deniedTools set_allowedTools]; rewrite Hd;
    (destruct (deniedTools s) as [denied|] eqn:E;
     [destruct (arrayIncludes tool denied); cbn [deniedTools set_deniedTools set_allowedTools];
      try rewrite Hd; try rewrite E; reflexivity
     |cbn [deniedTools set_allowedTools]; try rewrite Hd; try rewrite E; reflexivity]).
Qed.

Lemma toggle_off_allowed (tool : string) (s : OpenInClaudeCodeSettings) :
  allowedTools (assignToolToggle tool false s)
  = Some (arrayWithout tool (from_option id [] (allowedTools s)))
  /\ deniedTools (assignToolToggle tool false s) = deniedTools s.
Proof.
  unfold assignToolToggle. cbv zeta.
  destruct (ensureAllowedTools_value s) as [Ha Hd]. rewrite Ha.
  split; [reflexivity|]. cbn [deniedTools set_allowedTools]. exact Hd.
Qed.

(** X20.  Switching a tool on puts it among the allowed tools exactly once
    more at most (a list without duplicates stays so) and removes it from
    the denied tools; switching it off removes it from the allowed tools
    and leaves the denied tools alone.  Either way the other tools keep
    their place in both lists. *)
Theorem assignToolToggle_sets (tool : string) (s : OpenInClaudeCodeSettings) :
  let before := from_option id [] (allowedTools s) in
  (exists allowed,
     allowedTools (assignToolToggle tool true s) = Some allowed
     /\ In tool allowed
     /\ (NoDup before -> NoDup allowed)
     /\ forall other, other <> tool -> (In other allowed <-> In other before))
  /\ (forall denied, deniedTools (assignToolToggle tool true s) = Some denied ->
        ~ In tool denied
        /\ forall other, other <> tool ->
             (In other denied <-> In other (from_option id [] (deniedTools s))))
  /\ (exists allowed,
        allowedTools (assignToolToggle tool false s) = Some allowed
        /\ ~ In tool allowed
        /\ forall other, other <> tool -> (In other allowed <-> In other before))
  /\ deniedTools (assignToolToggle tool false s) = deniedTools s.
Proof.
  intros before. split; [|split; [|split]].
  - eexists. split; [apply toggle_on_allowed|]. fold before.
    destruct (arrayIncludes tool before) eqn:E.
    + split; [apply arrayIncludes_In, E|]. split; [auto|]. intros; reflexivity.
    + split; [apply in_or_app; right; left; reflexivity|]. split.
      * intros Hnodup. apply NoDup_app. split; [exact Hnodup|]. split.
        -- intros x Hx Hx'. apply list_elem_of_In in Hx, Hx'. simpl in Hx'.
           destruct Hx' as [<-|[]]. apply arrayIncludes_In in Hx. congruence.
        -- apply NoDup_singleton.
      * intros other Hother. rewrite in_app_iff. simpl. split; [|auto].
        intros [H|[H|[]]]; [exact H|congruence].
  - intros denied. rewrite toggle_on_denied.
    destruct (deniedTools s) as [d|]; [|discriminate]. intros [= <-]. cbn [from_option id].
    destruct (arrayIncludes tool d) eqn:E.
    + split.
      * intros H. apply arrayWithout_In in H. destruct H as [_ H]. congruence.
      * intros other Hother. rewrite arrayWithout_In. split; [intros [H _]; exact H|auto].
    + split; [|intros; reflexivity].
      intros H. apply arrayIncludes_In in H. congruence.
  - destruct (toggle_off_allowed tool s) as [Ha _].
    eexists. split; [exact Ha|]. fold before. split.
    + intros H. apply arrayWithout_In in H. destruct H as [_ H]. congruence.
    + intros other Hother. rewrite arrayWithout_In. split; [intros [H _]; exact H|auto].
  - apply toggle_off_allowed.
Qed.

Lemma assignToolToggle_sets_witness :
  NoDup ["Edit"; "Bash"].
Proof.
  destruct (assignToolToggle_sets "Bash" (set_allowedTools (Some ["Edit"]) DEFAULT_SETTINGS))
    as ((allowed & Hallowed & _ & Hnodup & _) & _).
  injection Hallowed as <-. apply Hnodup.
  apply NoDup_singleton.
Defined.

(** ** Permission mode *)

(** X21.  Choosing a permission mode stores it and leaves a defined list
    of allowed tools: empty for Plan and Default, the existing one for
    Custom.  Default and Bypass Permissions clear the skip flag.  The
    denied tools are never touched.  After choosing Default the steps of
    the permission mode, the skip flag and the allowed tools add nothing:
    the built command is the one built with these three settings unset
    (the denied tools, if any, still add their flag); after any other
    choice the command names the chosen mode. *)
Theorem assignPermissionMode_effects (value : PermissionMode) (s : OpenInClaudeCodeSettings) :
  let s' := assignPermissionMode value s in
  permissionMode s' = Some value
  /\ (exists tools, allowedTools s' = Some tools)
  /\ (value = pm_plan \/ value = pm_default -> allowedTools s' = Some [])
  /\ (value = pm_custom -> allowedTools s' = Some (from_option id [] (allowedTools s)))
  /\ (value = pm_default \/ value = pm_bypassPermissions ->
      dangerouslySkipPermissions s' = Some false)
  /\ deniedTools s' = deniedTools s
  /\ (value = pm_default ->
      buildClaudeCommand s'
      = buildClaudeCommand
          (set_permissionMode None
             (set_dangerouslySkipPermissions None (set_allowedTools None s))))
  /\ (value <> pm_default ->
      JS.includes (" --permission-mode " +:+ permissionModeText value)
        (buildClaudeCommand s') = true).
Proof.
  cbv zeta. unfold assignPermissionMode, ensureAllowedTools. cbv zeta.
  cbn [allowedTools set_permissionMode].
  destruct (allowedTools s) as [tools|] eqn:Ea.
  - split; [destruct value; reflexivity|].
    split; [destruct value; cbn; rewrite ?Ea; eexists; reflexivity|].
    split; [intros [-> | ->]; reflexivity|].
    split; [intros ->; cbn; exact Ea|].
    split; [intros [-> | ->]; reflexivity|].
    split; [destruct value; reflexivity|].
    split; [intros ->; reflexivity|].
    intros Hne. unfold buildClaudeCommand, commandBeforeMaxTurns. cbv zeta.
    carry_to_allowed.
    apply (includes_extended _ _ _ (addAllowedTools_extends _ _)).
    apply (includes_extended _ _ _ (addSkipPermissions_extends _ _)).
    destruct value; try contradiction; unfold addPermissionMode; cbn;
      apply includes_app_r, includes_prefix, prefix_refl.
  - split; [destruct value; reflexivity|].
    split; [destruct value; cbn; eexists; reflexivity|].
    split; [intros [-> | ->]; reflexivity|].
    split; [intros ->; reflexivity|].
    split; [intros [-> | ->]; reflexivity|].
    split; [destruct value; reflexivity|].
    split; [intros ->; reflexivity|].
    intros Hne. unfold buildClaudeCommand, commandBeforeMaxTurns. cbv zeta.
    carry_to_allowed.
    apply (includes_extended _ _ _ (addAllowedTools_extends _ _)).
    apply (includes_extended _ _ _ (addSkipPermissions_extends _ _)).
    destruct value; try contradiction; unfold addPermissionMode; cbn;
      apply includes_app_r, includes_prefix, prefix_refl.
Qed.

Lemma assignPermissionMode_effects_witness :
  JS.includes " --permission-mode plan"
    (buildClaudeCommand (assignPermissionMode pm_plan DEFAULT_SETTINGS)) = true.
Proof.
  apply (assignPermissionMode_effects pm_plan DEFAULT_SETTINGS). discriminate.
Defined.

(** After choosing Default with a denied tool, the flag of the denied
    tools is still part of the command. *)
Example default_mode_keeps_denied_tools :
  buildClaudeCommand
    (assignPermissionMode pm_default (set_deniedTools (Some ["Bash"]) DEFAULT_SETTINGS))
  = "claude --disallowedTools Bash".
Proof. reflexivity. Qed.

(** ** Launch: the command line of the terminals *)

Ltac find_in_command :=
  repeat first [ apply includes_here | apply includes_app_r ].

Lemma terminal_property (terminal : string) :
  terminal = "cmd" \/ terminal = "powershell" \/ terminal = "windowsterminal" ->
  exists config open,
    getProperty TERMINAL_APPS terminal = OwnProperty config
    /\ openCommand config = Some open
    /\ isEditor terminal = false
    /\ forall cwd command,
         JS.includes (escapeWindowsPath cwd) (open cwd command) = true
         /\ JS.includes command (open cwd command) = true.
Proof.
  intros [-> | [-> | ->]]; eexists; eexists;
    (split; [reflexivity|]); (split; [reflexivity|]); (split; [reflexivity|]);
    intros cwd command; cbv zeta; split; find_in_command.
Qed.

(** X22.  For Command Prompt, PowerShell and Windows Terminal on Windows,
    [openInTerminal] runs one process without a working-directory option,
    and its command line contains both the escaped directory and the
    built command of the assistant. *)
Theorem openInTerminal_command_line (cwd : string) (env : Env) (st : State) :
  isWin env = true ->
  terminalApp (this_settings st) = "cmd"
  \/ terminalApp (this_settings st) = "powershell"
  \/ terminalApp (this_settings st) = "windowsterminal" ->
  exists command,
    execLog (snd (openInTerminal cwd env st)) = execLog st ++ [(command, None)]
    /\ JS.includes (escapeWindowsPath cwd) command = true
    /\ JS.includes (buildClaudeCommand (this_settings st)) command = true
    /\ timers (snd (openInTerminal cwd env st)) = timers st.
Proof.
  intros Hwin Hterminal.
  destruct (terminal_property _ Hterminal) as (config & open & Hprop & Hopen & Hed & Hcmd).
  destruct (openInTerminal cwd env st) as [o st'] eqn:E. cbn [snd].
  unfold openInTerminal, bind at 1, get in E. unfold bind at 1, ask in E.
  rewrite Hwin, Hprop, Hed in E. cbn [openCommandOf] in E. rewrite Hopen in E.
  unfold bind, execAsync, ret in E.
  destruct (Hcmd cwd (buildClaudeCommand (this_settings st))) as [Hdir Hclaude].
  destruct (exec_result env (execLog st) _ None); injection E as <- <-;
    eexists; (split; [reflexivity|]); (split; [exact Hdir|]);
    (split; [exact Hclaude|reflexivity]).
Qed.

Lemma openInTerminal_command_line_witness :
  exists command,
    execLog (snd (openInTerminal "C:\Vault" env_all_present
                    (newPlugin (set_terminalApp "powershell" DEFAULT_SETTINGS) 0)))
    = [] ++ [(command, None)]
    /\ JS.includes (escapeWindowsPath "C:\Vault") command = true
    /\ JS.includes "claude" command = true
    /\ timers (snd (openInTerminal "C:\Vault" env_all_present
                      (newPlugin (set_terminalApp "powershell" DEFAULT_SETTINGS) 0))) = [].
Proof.
  apply (openInTerminal_command_line "C:\Vault" env_all_present
           (newPlugin (set_terminalApp "powershell" DEFAULT_SETTINGS) 0) eq_refl).
  right. left. reflexivity.
Defined.


